(** * VRChat Prometheus exporter (Projects/VRChat stats exporter/exporter.py)

    A shallow embedding of the exporter's scrape scheduler, its two caches
    and its collectors, and the properties of the specification checked
    against it.

    Conventions of the embedding
    - Values coming out of [resp.json()] are [Json] values; JSON numbers are
      integers here (the exporter never does arithmetic on them).
    - Python exceptions are the [Exc] outcome of the [M] monad.  The state
      reached when the exception was raised is kept, as in Python.
    - The wall clock is an integer number of milliseconds; it advances
      during [time.sleep] and during an HTTP exchange only.
    - The upstream API, the iteration order of Python sets and the two
      builtins [float] (on strings) and [repr] (on containers) are the
      fields of an [Environment]. *)

From Stdlib Require Import String Ascii ZArith List Bool Lia Permutation.
From Stdlib Require Import DecimalString.
Import ListNotations.

Set Warnings "-register-all".

Local Open Scope string_scope.
Local Open Scope Z_scope.

(* ================================================================== *)
(** * Strings as Python uses them *)
(* ================================================================== *)

(** [needle in hay] on two Python strings. *)
Fixpoint str_contains (needle hay : string) : bool :=
  prefix needle hay ||
  match hay with
  | EmptyString => false
  | String _ rest => str_contains needle rest
  end.

(** [s.split(c)] for a one-character separator. *)
Fixpoint split_on (c : ascii) (s : string) : list string :=
  match s with
  | EmptyString => [EmptyString]
  | String a rest =>
      let parts := split_on c rest in
      if Ascii.eqb a c then EmptyString :: parts
      else match parts with
           | [] => [String a EmptyString]
           | p :: ps => String a p :: ps
           end
  end.

(** [s in (t1, t2, ...)] for strings. *)
Definition str_in_tuple (s : string) (t : list string) : bool :=
  existsb (String.eqb s) t.

(** [str(z)] on an integer. *)
Definition str_of_Z (z : Z) : string := NilZero.string_of_int (Z.to_int z).

Definition tilde : ascii := "~"%char.
Definition colon : ascii := ":"%char.
Definition slash : ascii := "/"%char.

(** No character of [s] is [c]. *)
Fixpoint char_free (c : ascii) (s : string) : bool :=
  match s with
  | EmptyString => true
  | String a rest => negb (Ascii.eqb a c) && char_free c rest
  end.

(* ================================================================== *)
(** * JSON values and the Python operations applied to them *)
(* ================================================================== *)

Inductive Json : Type :=
| JNull
| JBool (b : bool)
| JNum (z : Z)
| JStr (s : string)
| JList (l : list Json)
| JObj (fields : list (string * Json)).

Inductive Exn : Type :=
| TypeError | AttributeError | ValueError | KeyError | IndexError
| ZeroDivisionError | OverflowError.

(** A pure Python expression: a value or a raised exception. *)
Definition Py (A : Type) : Type := (Exn + A)%type.

Definition py_bind {A B} (x : Py A) (f : A -> Py B) : Py B :=
  match x with
  | inl e => inl e
  | inr a => f a
  end.

(** Truth value of a JSON value ([if x:], [x or y], [not x]). *)
Definition truthy (j : Json) : bool :=
  match j with
  | JNull => false
  | JBool b => b
  | JNum z => negb (z =? 0)
  | JStr s => negb (s =? "")%string
  | JList l => match l with [] => false | _ => true end
  | JObj f => match f with [] => false | _ => true end
  end.

(** [x or y]. *)
Definition py_or (x y : Json) : Json := if truthy x then x else y.

Definition is_str (s : string) (j : Json) : bool :=
  match j with
  | JStr t => (t =? s)%string
  | _ => false
  end.

(** [x in (s1, s2, ...)] and [x in [s1, s2, ...]] against string literals:
    equality with a string never raises. *)
Definition json_in_strs (x : Json) (t : list string) : bool :=
  existsb (fun s => is_str s x) t.

Fixpoint assoc {A} (k : string) (l : list (string * A)) : option A :=
  match l with
  | [] => None
  | (k', v) :: rest => if (k' =? k)%string then Some v else assoc k rest
  end.

(** ["lit" in x] for a string literal on the left. *)
Definition lit_in (lit : string) (x : Json) : Py bool :=
  match x with
  | JObj f => inr (match assoc lit f with Some _ => true | None => false end)
  | JList l => inr (existsb (is_str lit) l)
  | JStr s => inr (str_contains lit s)
  | JNull | JBool _ | JNum _ => inl TypeError
  end.

(** [x.get(key, default)]: only a dict has [get]. *)
Definition py_get (x : Json) (key : string) (default : Json) : Py Json :=
  match x with
  | JObj f => inr (match assoc key f with Some v => v | None => default end)
  | _ => inl AttributeError
  end.

(** [len(x)]. *)
Definition py_len (x : Json) : Py Z :=
  match x with
  | JStr s => inr (Z.of_nat (String.length s))
  | JList l => inr (Z.of_nat (List.length l))
  | JObj f => inr (Z.of_nat (List.length f))
  | JNull | JBool _ | JNum _ => inl TypeError
  end.

(** Whether a value can be a dict key or a set member. *)
Definition hashable (x : Json) : bool :=
  match x with
  | JList _ | JObj _ => false
  | _ => true
  end.

(** Equality of two hashable values as dict keys ([True == 1]). *)
Definition key_eqb (x y : Json) : bool :=
  match x, y with
  | JNull, JNull => true
  | JStr s, JStr t => (s =? t)%string
  | JBool b, JBool c => Bool.eqb b c
  | JNum z, JNum w => z =? w
  | JBool b, JNum z | JNum z, JBool b => z =? (if b then 1 else 0)
  | _, _ => false
  end.

(* ================================================================== *)
(** * Constant tables *)
(* ================================================================== *)

Definition TRUST_RANK_MAP : list (string * Z) :=
  [ ("system_legend", 5);
    ("system_trust_veteran", 4);
    ("system_trust_trusted", 3);
    ("system_trust_known", 2);
    ("system_trust_basic", 1);
    ("system_probable_troll", -1);
    ("system_troll", -2) ].

Definition INSTANCE_TYPE_MAP : list (string * string) :=
  [ ("public", "public");
    ("hidden", "friends+");
    ("friends", "friends");
    ("private", "private");
    ("group", "group") ].

(** The reserved location values. *)
Definition SENTINELS : list string := ["private"; "offline"; "traveling"].

(* ================================================================== *)
(** * Helpers *)
(* ================================================================== *)

(** [_parse_instance_type(location: str) -> str]. *)
Definition _parse_instance_type (location : string) : string :=
  if (location =? "")%string || str_in_tuple location SENTINELS
  then (if (location =? "")%string then "unknown" else location)
  else if negb (str_contains "~" location) then "public"
  else match find (fun kl => str_contains ("~" ++ fst kl) location)
                  INSTANCE_TYPE_MAP with
       | Some (_, label) => label
       | None => "unknown"
       end.

(** [_parse_region(location: str) -> str]. *)
Definition _parse_region (location : string) : string :=
  match find (fun region => str_contains ("~region(" ++ region ++ ")") location)
             ["us"; "use"; "eu"; "jp"; "aus"] with
  | Some region => region
  | None => "us"
  end.

(** The body of the [for tag in reversed(tags)] loop, over the tags still
    to be visited. *)
Fixpoint trust_rank_scan (tags : list Json) : Py Z :=
  match tags with
  | [] => inr 0
  | tag :: rest =>
      if hashable tag then
        match tag with
        | JStr t => match assoc t TRUST_RANK_MAP with
                    | Some rank => inr rank
                    | None => trust_rank_scan rest
                    end
        | _ => trust_rank_scan rest
        end
      else inl TypeError
  end.

Definition chars_of (s : string) : list Json :=
  map (fun c => JStr (String c EmptyString)) (list_ascii_of_string s).

(** [_trust_rank_value(tags)]: [reversed] accepts a list, a string and a
    dict (its keys); anything else has no [__reversed__]. *)
Definition _trust_rank_value (tags : Json) : Py Z :=
  match tags with
  | JList l => trust_rank_scan (List.rev l)
  | JStr s => trust_rank_scan (List.rev (chars_of s))
  | JObj f => trust_rank_scan (List.rev (map (fun kv => JStr (fst kv)) f))
  | JNull | JBool _ | JNum _ => inl TypeError
  end.

(** The three places of [collect_friends_online] that take a world id out
    of a friend's location, each behind its own guard. *)

(** First pass: [if loc and loc not in ("", "private", "offline",
    "traveling"): wid = loc.split(":")[0]]. *)
Definition world_id_of_location (loc : Json) : Py (option string) :=
  if truthy loc && negb (json_in_strs loc ("" :: SENTINELS)) then
    match loc with
    | JStr s => inr (Some (hd "" (split_on colon s)))
    | _ => inl AttributeError
    end
  else inr None.

(** Second pass: [if loc and ":" in loc and loc not in ("private",
    "offline", "traveling")], then [parts = loc.split(":")],
    [wid, iid = parts[0], parts[1].split("~")[0]]. *)
Definition instance_of_location (loc : Json) : Py (option (string * string)) :=
  if truthy loc then
    py_bind (lit_in ":" loc) (fun has_colon =>
      if has_colon && negb (json_in_strs loc SENTINELS) then
        match loc with
        | JStr s =>
            match split_on colon s with
            | wid :: p1 :: _ => inr (Some (wid, hd "" (split_on tilde p1)))
            | _ => inl IndexError
            end
        | _ => inl AttributeError
        end
      else inr None)
  else inr None.

(** Third pass: [if loc and loc not in ("", "private", "offline",
    "traveling") and ":" in loc], then [wid = loc.split(":")[0]] and
    [instance_type = _parse_instance_type(loc)]. *)
Definition detail_of_location (loc : Json) : Py (option (string * string)) :=
  if truthy loc && negb (json_in_strs loc ("" :: SENTINELS)) then
    py_bind (lit_in ":" loc) (fun has_colon =>
      if has_colon then
        match loc with
        | JStr s => inr (Some (hd "" (split_on colon s), _parse_instance_type s))
        | _ => inl AttributeError
        end
      else inr None)
  else inr None.

(* ================================================================== *)
(** * Configuration, environment and process state *)
(* ================================================================== *)

(** The values read from the process environment at start-up.  Durations
    are in milliseconds, [SCRAPE_INTERVAL] in seconds as in the source. *)
Record Config : Type := {
  SCRAPE_INTERVAL : Z;
  REQUEST_DELAY : Z;
  MAX_WORLD_LOOKUPS : Z;
  OFFLINE_SCRAPE_CYCLES : Z;
  AUTH_COOKIE : string;
  USERNAME : string;
  PASSWORD : string
}.

Record Request : Type := {
  endpoint : string;
  params : list (string * string)
}.

(** What [session.get] gives back: a response with its status code and
    decoded body, or a [requests.RequestException]. *)
Inductive HttpResult : Type :=
| Response (status_code : Z) (body : Json)
| RequestException.

Record Environment : Type := {
  (** the answer of the upstream API to the n-th exchange of the process *)
  upstream : nat -> Request -> HttpResult;
  (** how long that exchange takes, in milliseconds *)
  latency : nat -> Request -> nat;
  (** [list(s)] for a set [s] whose members were added in the given order *)
  set_order : list string -> list string;
  set_order_perm : forall l, Permutation (set_order l) l;
  (** [float(s)] on a string, [None] for [ValueError] *)
  float_of_str : string -> option Z;
  (** [str(x)] on a list or a dict *)
  repr : Json -> string;
  (** pages a pagination loop may fetch before the model gives up on it *)
  patience : nat
}.

(** The dict kept under a world id in [_world_cache]. *)
Record WorldRec : Type := {
  w_name : Json;
  w_authorName : Json;
  w_visits : Json;
  w_favorites : Json;
  w_occupants : Json;
  w_heat : Json
}.

(** The dict kept under ["world_id:instance_id"] in [_instance_cache]. *)
Record InstanceRec : Type := {
  i_playerCount : Json;
  i_region : Json;
  i_type : Json;
  i_world_name : Json;
  i_world_id : string;
  i_instance_id : string
}.

Inductive Metric : Type :=
| ONLINE_USERS | API_HEALTHY
| USER_INFO | USER_STATUS | USER_TRUST_RANK
| FRIENDS_ONLINE | FRIENDS_OFFLINE | FRIENDS_ACTIVE | FRIENDS_TOTAL
| FRIEND_STATUS_GAUGE | FRIEND_PLATFORM_GAUGE | FRIEND_WORLD_GAUGE
| FRIEND_DETAIL
| WORLD_VISITS | WORLD_FAVORITES | WORLD_OCCUPANTS | WORLD_HEAT
| WORLDS_CACHED
| FAVORITES_TOTAL
| INSTANCE_PLAYER_COUNT
| API_REQUEST_DURATION_sum | API_REQUEST_DURATION_count
| SCRAPE_ERRORS | SCRAPE_DURATION | LAST_SCRAPE_TS | SCRAPE_CYCLE_NUM.

Inductive Collector : Type :=
| CPlatform | CCurrentUser | CFriendsOnline | CWorldMetrics
| CInstanceMetrics | CFriendsOffline | CFavorites.

(** What the process does that an observer can see, newest first in
    [log]. *)
Inductive Event : Type :=
| EvRequest (issued completed : Z) (req : Request)
| EvSleep (ms : Z)
| EvCycle (number : Z)
| EvCollect (c : Collector).

(** A dict in insertion order.  Every value of the two caches carries the
    identity of the dict object it is. *)
Definition Dict (V : Type) : Type := list (string * V).

Record State : Type := {
  authenticated : bool;
  _last_request_time : Z;
  now : Z;
  exchanges : nat;
  _world_cache : Dict (nat * WorldRec);
  _instance_cache : Dict (nat * InstanceRec);
  next_id : nat;
  cycle : Z;
  registry : list (Metric * list string * Z);
  log : list Event
}.

Definition set_authenticated (v : bool) (s : State) : State :=
  {| authenticated := v; _last_request_time := _last_request_time s;
     now := now s; exchanges := exchanges s;
     _world_cache := _world_cache s; _instance_cache := _instance_cache s;
     next_id := next_id s; cycle := cycle s; registry := registry s;
     log := log s |}.

Definition set_last_request_time (v : Z) (s : State) : State :=
  {| authenticated := authenticated s; _last_request_time := v;
     now := now s; exchanges := exchanges s;
     _world_cache := _world_cache s; _instance_cache := _instance_cache s;
     next_id := next_id s; cycle := cycle s; registry := registry s;
     log := log s |}.

(** The clock moves by [d] and the event [ev] is recorded. *)
Definition pass_time (d : Z) (ev : Event) (s : State) : State :=
  {| authenticated := authenticated s;
     _last_request_time := _last_request_time s;
     now := now s + d; exchanges := exchanges s;
     _world_cache := _world_cache s; _instance_cache := _instance_cache s;
     next_id := next_id s; cycle := cycle s; registry := registry s;
     log := ev :: log s |}.

Definition count_exchange (s : State) : State :=
  {| authenticated := authenticated s;
     _last_request_time := _last_request_time s;
     now := now s; exchanges := S (exchanges s);
     _world_cache := _world_cache s; _instance_cache := _instance_cache s;
     next_id := next_id s; cycle := cycle s; registry := registry s;
     log := log s |}.

Definition set_world_cache (v : Dict (nat * WorldRec)) (s : State) : State :=
  {| authenticated := authenticated s;
     _last_request_time := _last_request_time s;
     now := now s; exchanges := exchanges s;
     _world_cache := v; _instance_cache := _instance_cache s;
     next_id := next_id s; cycle := cycle s; registry := registry s;
     log := log s |}.

Definition set_instance_cache (v : Dict (nat * InstanceRec)) (s : State)
  : State :=
  {| authenticated := authenticated s;
     _last_request_time := _last_request_time s;
     now := now s; exchanges := exchanges s;
     _world_cache := _world_cache s; _instance_cache := v;
     next_id := next_id s; cycle := cycle s; registry := registry s;
     log := log s |}.

Definition bump_next_id (s : State) : State :=
  {| authenticated := authenticated s;
     _last_request_time := _last_request_time s;
     now := now s; exchanges := exchanges s;
     _world_cache := _world_cache s; _instance_cache := _instance_cache s;
     next_id := S (next_id s); cycle := cycle s; registry := registry s;
     log := log s |}.

Definition set_cycle (v : Z) (s : State) : State :=
  {| authenticated := authenticated s;
     _last_request_time := _last_request_time s;
     now := now s; exchanges := exchanges s;
     _world_cache := _world_cache s; _instance_cache := _instance_cache s;
     next_id := next_id s; cycle := v; registry := registry s;
     log := log s |}.

Definition set_registry (v : list (Metric * list string * Z)) (s : State)
  : State :=
  {| authenticated := authenticated s;
     _last_request_time := _last_request_time s;
     now := now s; exchanges := exchanges s;
     _world_cache := _world_cache s; _instance_cache := _instance_cache s;
     next_id := next_id s; cycle := cycle s; registry := v;
     log := log s |}.

Definition push_event (ev : Event) (s : State) : State :=
  {| authenticated := authenticated s;
     _last_request_time := _last_request_time s;
     now := now s; exchanges := exchanges s;
     _world_cache := _world_cache s; _instance_cache := _instance_cache s;
     next_id := next_id s; cycle := cycle s; registry := registry s;
     log := ev :: log s |}.

(** The state of a process that starts at time [t0]. *)
Definition initial_state (t0 : Z) : State :=
  {| authenticated := false; _last_request_time := 0;
     now := t0; exchanges := O;
     _world_cache := []; _instance_cache := [];
     next_id := O; cycle := 0; registry := []; log := [] |}.

(* ------------------------------------------------------------------ *)
(** ** Dicts *)

Definition dict_get {V} (k : string) (d : Dict V) : option V := assoc k d.

Definition dict_mem {V} (k : string) (d : Dict V) : bool :=
  match assoc k d with Some _ => true | None => false end.

(** [d[k] = v]: an existing key keeps its place. *)
Fixpoint dict_set {V} (k : string) (v : V) (d : Dict V) : Dict V :=
  match d with
  | [] => [(k, v)]
  | (k', v') :: rest =>
      if (k' =? k)%string then (k, v) :: rest
      else (k', v') :: dict_set k v rest
  end.

(** The object stored under [k] is changed in place by [f]. *)
Fixpoint dict_update {V} (k : string) (f : V -> V) (d : Dict V) : Dict V :=
  match d with
  | [] => []
  | (k', v') :: rest =>
      if (k' =? k)%string then (k', f v') :: rest
      else (k', v') :: dict_update k f rest
  end.

Definition dict_keys {V} (d : Dict V) : list string := map fst d.

(** [s.add(x)] on a set kept in insertion order. *)
Definition set_add (x : string) (s : list string) : list string :=
  if str_in_tuple x s then s else (s ++ [x])%list.

(** A dict whose keys are arbitrary hashable values, used for counting:
    [counts[key] = counts.get(key, 0) + 1]. *)
Fixpoint count_bump (key : Json) (counts : list (Json * Z))
  : list (Json * Z) :=
  match counts with
  | [] => [(key, 1)]
  | (k, n) :: rest =>
      if key_eqb k key then (k, n + 1) :: rest
      else (k, n) :: count_bump key rest
  end.

Definition count_incr (key : Json) (counts : list (Json * Z))
  : Py (list (Json * Z)) :=
  if hashable key then inr (count_bump key counts) else inl TypeError.

(* ------------------------------------------------------------------ *)
(** ** The metrics registry *)

Definition metric_code (m : Metric) : nat :=
  match m with
  | ONLINE_USERS => 0 | API_HEALTHY => 1 | USER_INFO => 2
  | USER_STATUS => 3 | USER_TRUST_RANK => 4 | FRIENDS_ONLINE => 5
  | FRIENDS_OFFLINE => 6 | FRIENDS_ACTIVE => 7 | FRIENDS_TOTAL => 8
  | FRIEND_STATUS_GAUGE => 9 | FRIEND_PLATFORM_GAUGE => 10
  | FRIEND_WORLD_GAUGE => 11 | FRIEND_DETAIL => 12 | WORLD_VISITS => 13
  | WORLD_FAVORITES => 14 | WORLD_OCCUPANTS => 15 | WORLD_HEAT => 16
  | WORLDS_CACHED => 17 | FAVORITES_TOTAL => 18
  | INSTANCE_PLAYER_COUNT => 19 | API_REQUEST_DURATION_sum => 20
  | API_REQUEST_DURATION_count => 21 | SCRAPE_ERRORS => 22
  | SCRAPE_DURATION => 23 | LAST_SCRAPE_TS => 24 | SCRAPE_CYCLE_NUM => 25
  end%nat.

Definition metric_eqb (a b : Metric) : bool :=
  Nat.eqb (metric_code a) (metric_code b).

Fixpoint labels_eqb (a b : list string) : bool :=
  match a, b with
  | [], [] => true
  | x :: a', y :: b' => (x =? y)%string && labels_eqb a' b'
  | _, _ => false
  end.

(** The value of the child of metric [m] with label values [ls]. *)
Fixpoint sample (m : Metric) (ls : list string)
  (r : list (Metric * list string * Z)) : option Z :=
  match r with
  | [] => None
  | (m', ls', v) :: rest =>
      if metric_eqb m' m && labels_eqb ls' ls then Some v
      else sample m ls rest
  end.

(** [m.labels(ls).set(v)]. *)
Fixpoint registry_set (m : Metric) (ls : list string) (v : Z)
  (r : list (Metric * list string * Z)) : list (Metric * list string * Z) :=
  match r with
  | [] => [(m, ls, v)]
  | (m', ls', v') :: rest =>
      if metric_eqb m' m && labels_eqb ls' ls then (m', ls', v) :: rest
      else (m', ls', v') :: registry_set m ls v rest
  end.

(** The registry once [m.labels(ls)] has been called: a child that is not
    there yet is created with the value 0. *)
Definition registry_child (m : Metric) (ls : list string)
  (r : list (Metric * list string * Z)) : list (Metric * list string * Z) :=
  match sample m ls r with
  | Some _ => r
  | None => registry_set m ls 0 r
  end.

(** [m._metrics.clear()]. *)
Definition registry_clear (m : Metric) (r : list (Metric * list string * Z))
  : list (Metric * list string * Z) :=
  filter (fun e => negb (metric_eqb (fst (fst e)) m)) r.

(** The label sets under which [m] has a child. *)
Definition children (m : Metric) (r : list (Metric * list string * Z))
  : list (list string) :=
  map (fun e => snd (fst e)) (filter (fun e => metric_eqb (fst (fst e)) m) r).

(* ================================================================== *)
(** * The monad of the exporter: state, exceptions, divergence *)
(* ================================================================== *)

Inductive Outcome (A : Type) : Type :=
| Ret (a : A)
| Exc (e : Exn)
| SystemExit
| Diverge.

Arguments Ret {A} a.
Arguments Exc {A} e.
Arguments SystemExit {A}.
Arguments Diverge {A}.

Definition M (A : Type) : Type := State -> State * Outcome A.

Definition ret {A} (a : A) : M A := fun s => (s, Ret a).

Definition bind {A B} (m : M A) (f : A -> M B) : M B :=
  fun s =>
    match m s with
    | (s', Ret a) => f a s'
    | (s', Exc e) => (s', Exc e)
    | (s', SystemExit) => (s', SystemExit)
    | (s', Diverge) => (s', Diverge)
    end.

Notation "x <- c1 ;; c2" := (bind c1 (fun x => c2))
  (at level 61, c1 at next level, right associativity).
Notation "c1 ;; c2" := (bind c1 (fun _ => c2))
  (at level 61, right associativity).

Definition raise {A} (e : Exn) : M A := fun s => (s, Exc e).
Definition sys_exit {A} : M A := fun s => (s, SystemExit).
Definition diverge {A} : M A := fun s => (s, Diverge).
Definition gets {A} (f : State -> A) : M A := fun s => (s, Ret (f s)).
Definition modify (f : State -> State) : M unit := fun s => (f s, Ret tt).

(** A pure Python expression evaluated in the current state. *)
Definition lift {A} (x : Py A) : M A :=
  match x with
  | inl e => raise e
  | inr a => ret a
  end.

(** [try: body  except Exception as e: handler(e)]. *)
Definition try_except {A} (body : M A) (handler : Exn -> M A) : M A :=
  fun s =>
    match body s with
    | (s', Exc e) => handler e s'
    | r => r
    end.

(** [for x in xs: body(x)]. *)
Fixpoint for_each {A} (xs : list A) (body : A -> M unit) : M unit :=
  match xs with
  | [] => ret tt
  | x :: rest => body x ;; for_each rest body
  end.

(** [when b: m]. *)
Definition when (b : bool) (m : M unit) : M unit :=
  if b then m else ret tt.

(** The state in which a computation stops, whatever its outcome. *)
Definition final {A} (m : M A) (s : State) : State := fst (m s).

(** [bool(l)] on a list or a dict. *)
Definition nonempty {A} (l : list A) : bool :=
  match l with
  | [] => false
  | _ => true
  end.

(* ================================================================== *)
(** * The exporter *)
(* ================================================================== *)

Section Exporter.

Context (cfg : Config) (env : Environment).

(** [str(x)], as [labels(...)] applies it to every label value. *)
Definition py_str (x : Json) : string :=
  match x with
  | JNull => "None"
  | JBool true => "True"
  | JBool false => "False"
  | JNum z => str_of_Z z
  | JStr s => s
  | JList _ | JObj _ => repr env x
  end.

(** [float(z)] for an integer [z]: the nearest double, a tie going to the
    even mantissa, and an [OverflowError] when that is beyond the range of
    a double.  A double has a mantissa of 53 bits: an integer of at most
    53 bits is its own value. *)
Definition float_of_int (z : Z) : Py Z :=
  let a := Z.abs z in
  let dropped := Z.log2 a - 52 in
  if dropped <=? 0 then inr z
  else
    let q := Z.shiftr a dropped in
    let r := a - Z.shiftl q dropped in
    let half := Z.shiftl 1 (dropped - 1) in
    let q' := if (half <? r) || ((r =? half) && Z.odd q) then q + 1 else q in
    let v := Z.shiftl q' dropped in
    if 2 ^ 1024 <=? v then inl OverflowError else inr (Z.sgn z * v).

(** [float(x)], as [Gauge.set] applies it to its argument. *)
Definition py_float (x : Json) : Py Z :=
  match x with
  | JNum z => float_of_int z
  | JBool b => inr (if b then 1 else 0)
  | JStr s => match float_of_str env s with
              | Some z => inr z
              | None => inl ValueError
              end
  | JNull | JList _ | JObj _ => inl TypeError
  end.

(* ------------------------------------------------------------------ *)
(** ** Metric primitives *)

Definition gauge_set (m : Metric) (ls : list string) (v : Z) : M unit :=
  modify (fun s => set_registry (registry_set m ls v (registry s)) s).

(** [m.set(x)] for a value that still has to go through [float]. *)
Definition gauge_set_json (m : Metric) (ls : list string) (x : Json)
  : M unit :=
  v <- lift (py_float x) ;;
  gauge_set m ls v.

(** [m.labels(ls)]: the child is created, at 0, when the metric has none
    under these labels. *)
Definition metric_labels (m : Metric) (ls : list string) : M unit :=
  modify (fun s => set_registry (registry_child m ls (registry s)) s).

(** [m.labels(ls).set(x)]: the child is there before [float] is applied
    to [x]. *)
Definition gauge_labels_set_json (m : Metric) (ls : list string) (x : Json)
  : M unit :=
  metric_labels m ls ;;
  gauge_set_json m ls x.

Definition counter_add (m : Metric) (ls : list string) (d : Z) : M unit :=
  modify (fun s =>
    let old := match sample m ls (registry s) with
               | Some v => v
               | None => 0
               end in
    set_registry (registry_set m ls (old + d) (registry s)) s).

Definition counter_inc (m : Metric) (ls : list string) : M unit :=
  counter_add m ls 1.

Definition metric_clear (m : Metric) : M unit :=
  modify (fun s => set_registry (registry_clear m (registry s)) s).

(** [API_REQUEST_DURATION.labels(endpoint=label).observe(duration)]. *)
Definition observe_duration (label : string) (duration : Z) : M unit :=
  counter_add API_REQUEST_DURATION_sum [label] duration ;;
  counter_add API_REQUEST_DURATION_count [label] 1.

(* ------------------------------------------------------------------ *)
(** ** Time *)

(** [time.time()]. *)
Definition time : M Z := gets now.

(** [time.sleep(ms)]: a negative length is a [ValueError]. *)
Definition sleep (ms : Z) : M unit :=
  if ms <? 0 then raise ValueError
  else modify (pass_time ms (EvSleep ms)).

(* ------------------------------------------------------------------ *)
(** ** VRChatClient *)

(** [self.session.get(url, params=params, timeout=30)]. *)
Definition session_get (req : Request) : M HttpResult :=
  n <- gets exchanges ;;
  t <- time ;;
  let d := Z.of_nat (latency env n req) in
  modify (fun s => count_exchange (pass_time d (EvRequest t (t + d) req) s)) ;;
  ret (upstream env n req).

Definition _throttle : M unit :=
  t <- time ;;
  last <- gets _last_request_time ;;
  let elapsed := t - last in
  when (elapsed <? REQUEST_DELAY cfg) (sleep (REQUEST_DELAY cfg - elapsed)) ;;
  t' <- time ;;
  modify (set_last_request_time t').

(** The histogram label of an endpoint: its first path segment. *)
Definition endpoint_label (ep : string) : string :=
  if str_contains "/" ep then nth 1 (split_on slash ep) "" else ep.

(** [_get]: [JNull] stands for the [None] returned on every failure. *)
Definition _get (ep : string) (ps : list (string * string)) : M Json :=
  _throttle ;;
  t0 <- time ;;
  r <- session_get {| endpoint := ep; params := ps |} ;;
  match r with
  | RequestException => ret JNull
  | Response status body =>
      t1 <- time ;;
      observe_duration (endpoint_label ep) (t1 - t0) ;;
      if status =? 200 then ret body
      else if status =? 401 then
        modify (set_authenticated false) ;; ret JNull
      else if status =? 429 then
        sleep 10000 ;; ret JNull
      else ret JNull
  end.

(** [resp and "id" in resp]. *)
Definition has_id (resp : Json) : Py bool :=
  if truthy resp then lit_in "id" resp else inr false.

Definition authenticate : M bool :=
  if negb (AUTH_COOKIE cfg =? "")%string then
    resp <- _get "/auth/user" [] ;;
    ok <- lift (has_id resp) ;;
    if ok then
      _ <- lift (py_get resp "displayName" JNull) ;;
      modify (set_authenticated true) ;;
      ret true
    else ret false
  else if negb (USERNAME cfg =? "")%string && negb (PASSWORD cfg =? "")%string
  then
    resp <- _get "/auth/user" [] ;;
    ok <- lift (has_id resp) ;;
    if ok then
      two_factor <- lift (py_get resp "requiresTwoFactorAuth" JNull) ;;
      if truthy two_factor then ret false
      else
        _ <- lift (py_get resp "displayName" JNull) ;;
        modify (set_authenticated true) ;;
        ret true
    else ret false
  else ret false.

(* ------------------------------------------------------------------ *)
(** ** Cache primitives *)

(** [_world_cache[wid] = {...}]: a new dict object is bound to the key. *)
Definition world_cache_assign (wid : string) (r : WorldRec) : M unit :=
  id <- gets next_id ;;
  modify bump_next_id ;;
  modify (fun s => set_world_cache (dict_set wid (id, r) (_world_cache s)) s).

(** [_world_cache[wid].update({...})]: the dict object under the key is
    changed in place. *)
Definition world_cache_update (wid : string) (r : WorldRec) : M unit :=
  present <- gets (fun s => dict_mem wid (_world_cache s)) ;;
  if present then
    modify (fun s =>
      set_world_cache
        (dict_update wid (fun e => (fst e, r)) (_world_cache s)) s)
  else raise KeyError.

Definition instance_cache_assign (key : string) (r : InstanceRec) : M unit :=
  id <- gets next_id ;;
  modify bump_next_id ;;
  modify (fun s =>
    set_instance_cache (dict_set key (id, r) (_instance_cache s)) s).

(** [info[...] = ...] on the dict object [info] met under [key] while
    iterating over [_instance_cache.items()]. *)
Definition instance_cache_mutate (key : string)
  (f : InstanceRec -> InstanceRec) : M unit :=
  modify (fun s =>
    set_instance_cache
      (dict_update key (fun e => (fst e, f (snd e))) (_instance_cache s)) s).

(** [_world_cache.get(wid, {}).get("name", wid)]. *)
Definition cached_world_name (wid : string) (c : Dict (nat * WorldRec))
  : Json :=
  match dict_get wid c with
  | Some (_, r) => w_name r
  | None => JStr wid
  end.

(* ------------------------------------------------------------------ *)
(** ** Pagination *)

Definition page_size : Z := 100.

(** The [while True] loop that pages through an endpoint; [mk offset] are
    the request parameters for one page. *)
Fixpoint fetch_pages (fuel : nat) (ep : string)
  (mk : Z -> list (string * string)) (offset : Z) (acc : list Json)
  : M (list Json) :=
  match fuel with
  | O => diverge
  | S fuel' =>
      page <- _get ep (mk offset) ;;
      match page with
      | JList items =>
          if truthy page then
            let acc' := (acc ++ items)%list in
            if Z.of_nat (List.length items) <? page_size then ret acc'
            else fetch_pages fuel' ep mk (offset + page_size) acc'
          else ret acc
      | _ => ret acc
      end
  end.

Definition friends_params (offline : string) (offset : Z)
  : list (string * string) :=
  [("offset", str_of_Z offset); ("n", str_of_Z page_size);
   ("offline", offline)].

Definition favorites_params (ftype : string) (offset : Z)
  : list (string * string) :=
  [("type", ftype); ("offset", str_of_Z offset); ("n", str_of_Z page_size)].

(* ------------------------------------------------------------------ *)
(** ** Collection functions *)

Definition collect_platform : M unit :=
  data <- _get "/visits" [] ;;
  match data with
  | JNull =>
      gauge_set API_HEALTHY [] 0 ;;
      counter_inc SCRAPE_ERRORS ["visits"]
  | _ =>
      gauge_set API_HEALTHY [] 1 ;;
      gauge_set_json ONLINE_USERS [] data
  end.

Definition USER_STATES : list string :=
  ["active"; "join me"; "ask me"; "busy"; "offline"].

(** [USER_STATUS.state(status)]. *)
Definition enum_state (m : Metric) (states : list string) (current : string)
  : M unit :=
  for_each states (fun st =>
    gauge_set m [st] (if (st =? current)%string then 1 else 0)).

(** [m.set(len(x))]. *)
Definition gauge_set_len (m : Metric) (x : Json) : M unit :=
  n <- lift (py_len x) ;;
  gauge_set m [] n.

Definition collect_current_user : M Json :=
  data <- _get "/auth/user" [] ;;
  ok <- lift (has_id data) ;;
  if negb ok then
    counter_inc SCRAPE_ERRORS ["auth_user"] ;; ret JNull
  else
    display_name <- lift (py_get data "displayName" (JStr "")) ;;
    user_id <- lift (py_get data "id" (JStr "")) ;;
    username <- lift (py_get data "username" (JStr "")) ;;
    status_description <- lift (py_get data "statusDescription" (JStr "")) ;;
    last_platform <- lift (py_get data "last_platform" (JStr "")) ;;
    developer_type <- lift (py_get data "developerType" (JStr "none")) ;;
    home_location <- lift (py_get data "homeLocation" (JStr "")) ;;
    metric_clear USER_INFO ;;
    gauge_set USER_INFO
      (map py_str [display_name; user_id; username; status_description;
                   last_platform; developer_type; home_location]) 1 ;;
    status <- lift (py_get data "status" (JStr "offline")) ;;
    when (json_in_strs status USER_STATES)
         (enum_state USER_STATUS USER_STATES (py_str status)) ;;
    tags <- lift (py_get data "tags" (JList [])) ;;
    rank <- lift (_trust_rank_value tags) ;;
    gauge_set USER_TRUST_RANK [] rank ;;
    online_friends <- lift (py_get data "onlineFriends" (JList [])) ;;
    offline_friends <- lift (py_get data "offlineFriends" (JList [])) ;;
    active_friends <- lift (py_get data "activeFriends" (JList [])) ;;
    all_friends <- lift (py_get data "friends" (JList [])) ;;
    gauge_set_len FRIENDS_ONLINE online_friends ;;
    gauge_set_len FRIENDS_OFFLINE offline_friends ;;
    gauge_set_len FRIENDS_ACTIVE active_friends ;;
    gauge_set_len FRIENDS_TOTAL all_friends ;;
    ret data.

(** *** collect_friends_online *)

(** First pass: the set [unknown_world_ids], in insertion order. *)
Fixpoint scan_unknown_worlds (cache : Dict (nat * WorldRec))
  (friends : list Json) (acc : list string) : Py (list string) :=
  match friends with
  | [] => inr acc
  | f :: rest =>
      py_bind (py_get f "location" (JStr "")) (fun loc =>
      py_bind (world_id_of_location loc) (fun w =>
        match w with
        | Some wid =>
            scan_unknown_worlds cache rest
              (if dict_mem wid cache then acc else set_add wid acc)
        | None => scan_unknown_worlds cache rest acc
        end))
  end.

(** The record built from a successful world lookup. *)
Definition world_of_json (wid : string) (wdata : Json) : Py WorldRec :=
  py_bind (py_get wdata "name" (JStr wid)) (fun name =>
  py_bind (py_get wdata "authorName" (JStr "")) (fun author =>
  py_bind (py_get wdata "visits" (JNum 0)) (fun visits =>
  py_bind (py_get wdata "favorites" (JNum 0)) (fun favorites =>
  py_bind (py_get wdata "occupants" (JNum 0)) (fun occupants =>
  py_bind (py_get wdata "heat" (JNum 0)) (fun heat =>
    inr {| w_name := name; w_authorName := author; w_visits := visits;
           w_favorites := favorites; w_occupants := occupants;
           w_heat := heat |})))))).

(** The record stored when the lookup of [wid] fails. *)
Definition world_placeholder (wid : string) : WorldRec :=
  {| w_name := JStr wid; w_authorName := JStr ""; w_visits := JNum 0;
     w_favorites := JNum 0; w_occupants := JNum 0; w_heat := JNum 0 |}.

(** [wdata and "name" in wdata]. *)
Definition has_name (wdata : Json) : Py bool :=
  if truthy wdata then lit_in "name" wdata else inr false.

(** One turn of the world resolution loop, after the cap test. *)
Definition resolve_world (wid : string) : M unit :=
  wdata <- _get ("/worlds/" ++ wid) [] ;;
  ok <- lift (has_name wdata) ;;
  if ok then
    r <- lift (world_of_json wid wdata) ;;
    world_cache_assign wid r
  else world_cache_assign wid (world_placeholder wid).

(** [for wid in list(unknown_world_ids)], with [resolved] counted up to
    the cap. *)
Fixpoint resolve_worlds (wids : list string) (resolved : Z) : M unit :=
  match wids with
  | [] => ret tt
  | wid :: rest =>
      if resolved >=? MAX_WORLD_LOOKUPS cfg then ret tt
      else resolve_world wid ;; resolve_worlds rest (resolved + 1)
  end.

(** Second pass: the dict [unknown_instances]. *)
Fixpoint scan_unknown_instances (cache : Dict (nat * InstanceRec))
  (friends : list Json) (acc : Dict (string * string))
  : Py (Dict (string * string)) :=
  match friends with
  | [] => inr acc
  | f :: rest =>
      py_bind (py_get f "location" (JStr "")) (fun loc =>
      py_bind (instance_of_location loc) (fun i =>
        match i with
        | Some (wid, iid) =>
            let key := wid ++ ":" ++ iid in
            scan_unknown_instances cache rest
              (if dict_mem key cache then acc
               else dict_set key (wid, iid) acc)
        | None => scan_unknown_instances cache rest acc
        end))
  end.

(** The record built from a successful instance lookup. *)
Definition instance_of_json (wid iid : string) (world_name : Json)
  (inst : Json) : Py InstanceRec :=
  py_bind (py_get inst "userCount" (JNum 0)) (fun user_count =>
  py_bind (py_get inst "n_users" user_count) (fun player_count =>
  py_bind (py_get inst "region" (JStr "us")) (fun region =>
  py_bind (py_get inst "type" (JStr "public")) (fun type =>
    inr {| i_playerCount := player_count; i_region := region;
           i_type := type; i_world_name := world_name;
           i_world_id := wid; i_instance_id := iid |})))).

(** One turn of the instance resolution loop. *)
Definition resolve_instance (item : string * (string * string)) : M unit :=
  let '(key, (wid, iid)) := item in
  inst <- _get ("/instances/" ++ wid ++ ":" ++ iid) [] ;;
  if truthy inst then
    wc <- gets _world_cache ;;
    r <- lift (instance_of_json wid iid (cached_world_name wid wc) inst) ;;
    instance_cache_assign key r
  else ret tt.

(** Third pass, one friend: the counts are updated and the friend's
    detail gauge is set. *)
Definition friend_metrics (f : Json)
  (counts : list (Json * Z) * list (Json * Z) * Dict Z)
  : M (list (Json * Z) * list (Json * Z) * Dict Z) :=
  let '(status_counts, platform_counts, world_counts) := counts in
  status <- lift (py_get f "status" (JStr "offline")) ;;
  platform <- lift (py_get f "last_platform" (JStr "unknown")) ;;
  name <- lift (py_get f "displayName" (JStr "unknown")) ;;
  avatar <- lift (py_get f "currentAvatarThumbnailImageUrl" (JStr "")) ;;
  avatar_name0 <- lift (py_get f "currentAvatarName" (JStr "unknown")) ;;
  let avatar_name := py_or avatar_name0 (JStr "unknown") in
  loc <- lift (py_get f "location" (JStr "")) ;;
  status_counts' <- lift (count_incr status status_counts) ;;
  platform_counts' <- lift (count_incr platform platform_counts) ;;
  d <- lift (detail_of_location loc) ;;
  wc <- gets _world_cache ;;
  let '(world_counts', world_name, instance_type) :=
    match d with
    | Some (wid, itype) =>
        (dict_set wid
           (match dict_get wid world_counts with
            | Some n => n
            | None => 0
            end + 1) world_counts,
         cached_world_name wid wc, JStr itype)
    | None =>
        (world_counts, py_or loc (JStr "unknown"),
         py_or loc (JStr "unknown"))
    end in
  gauge_set FRIEND_DETAIL
    (map py_str [name; status; platform; world_name; instance_type;
                 avatar_name]) 1 ;;
  ret (status_counts', platform_counts', world_counts').

Fixpoint friends_metrics (friends : list Json)
  (counts : list (Json * Z) * list (Json * Z) * Dict Z)
  : M (list (Json * Z) * list (Json * Z) * Dict Z) :=
  match friends with
  | [] => ret counts
  | f :: rest =>
      counts' <- friend_metrics f counts ;;
      friends_metrics rest counts'
  end.

(** "Resolve unknown world IDs". *)
Definition resolve_unknown_worlds (all_friends : list Json) : M unit :=
  wc <- gets _world_cache ;;
  unknown_world_ids <- lift (scan_unknown_worlds wc all_friends []) ;;
  resolve_worlds (set_order env unknown_world_ids) 0.

(** "Resolve unknown instances". *)
Definition resolve_unknown_instances (all_friends : list Json) : M unit :=
  ic <- gets _instance_cache ;;
  unknown_instances <- lift (scan_unknown_instances ic all_friends []) ;;
  for_each (firstn 20 unknown_instances) resolve_instance.

(** "Per-friend metrics" and the three breakdown gauges. *)
Definition publish_friends (all_friends : list Json) : M unit :=
  counts <- friends_metrics all_friends ([], [], []) ;;
  let '(status_counts, platform_counts, world_counts) := counts in
  for_each status_counts (fun sc =>
    gauge_set FRIEND_STATUS_GAUGE [py_str (fst sc)] (snd sc)) ;;
  for_each platform_counts (fun pc =>
    gauge_set FRIEND_PLATFORM_GAUGE [py_str (fst pc)] (snd pc)) ;;
  (* World occupancy by friends *)
  metric_clear FRIEND_WORLD_GAUGE ;;
  for_each world_counts (fun wcount =>
    wc' <- gets _world_cache ;;
    gauge_set FRIEND_WORLD_GAUGE
      [py_str (cached_world_name (fst wcount) wc'); fst wcount]
      (snd wcount)).

(** Everything [collect_friends_online] does once [all_friends] has been
    paged in. *)
Definition process_friends_online (all_friends : list Json) : M unit :=
  metric_clear FRIEND_DETAIL ;;
  resolve_unknown_worlds all_friends ;;
  resolve_unknown_instances all_friends ;;
  publish_friends all_friends.

(** The friends paged in by one call of [collect_friends_online]. *)
Definition fetch_online_friends : M (list Json) :=
  fetch_pages (patience env) "/auth/user/friends" (friends_params "false")
              0 [].

Definition collect_friends_online : M unit :=
  all_friends <- fetch_online_friends ;;
  process_friends_online all_friends.

(** *** collect_friends_offline *)

Definition collect_friends_offline : M unit :=
  all_offline <- fetch_pages (patience env) "/auth/user/friends"
                             (friends_params "true") 0 [] ;;
  gauge_set FRIENDS_OFFLINE [] (Z.of_nat (List.length all_offline)).

(** *** collect_world_metrics *)

(** One turn of the refresh loop, after the cap test. *)
Definition refresh_world (wid : string) : M unit :=
  wdata <- _get ("/worlds/" ++ wid) [] ;;
  ok <- lift (has_name wdata) ;;
  if ok then
    r <- lift (world_of_json wid wdata) ;;
    world_cache_update wid r
  else ret tt.

Fixpoint refresh_worlds (world_ids : list string) (refreshed : Z) : M unit :=
  match world_ids with
  | [] => ret tt
  | wid :: rest =>
      if refreshed >=? MAX_WORLD_LOOKUPS cfg then ret tt
      else refresh_world wid ;; refresh_worlds rest (refreshed + 1)
  end.

(** The four gauges of one cached world. *)
Definition push_world (entry : string * (nat * WorldRec)) : M unit :=
  let wid := fst entry in
  let info := snd (snd entry) in
  let wname := py_str (w_name info) in
  let author := py_str (w_authorName info) in
  gauge_labels_set_json WORLD_VISITS [wid; wname; author] (w_visits info) ;;
  gauge_labels_set_json WORLD_FAVORITES [wid; wname] (w_favorites info) ;;
  gauge_labels_set_json WORLD_OCCUPANTS [wid; wname] (w_occupants info) ;;
  gauge_labels_set_json WORLD_HEAT [wid; wname] (w_heat info).

Definition collect_world_metrics : M unit :=
  wc <- gets _world_cache ;;
  match wc with
  | [] => ret tt
  | _ =>
      refresh_worlds (dict_keys wc) 0 ;;
      wc' <- gets _world_cache ;;
      for_each wc' push_world ;;
      wc'' <- gets _world_cache ;;
      gauge_set WORLDS_CACHED [] (Z.of_nat (List.length wc''))
  end.

(** *** collect_instance_metrics *)

(** The body of the loop over [_instance_cache.items()], for the entry met
    under [key]. *)
Definition refresh_instance (key : string) : M unit :=
  entry <- gets (fun s => dict_get key (_instance_cache s)) ;;
  match entry with
  | None => raise KeyError
  | Some (_, info) =>
      let wid := i_world_id info in
      let iid := i_instance_id info in
      inst <- _get ("/instances/" ++ wid ++ ":" ++ iid) [] ;;
      (if truthy inst then
         user_count <- lift (py_get inst "userCount" (i_playerCount info)) ;;
         player_count <- lift (py_get inst "n_users" user_count) ;;
         instance_cache_mutate key (fun r =>
           {| i_playerCount := player_count; i_region := i_region r;
              i_type := i_type r; i_world_name := i_world_name r;
              i_world_id := i_world_id r;
              i_instance_id := i_instance_id r |}) ;;
         region <- lift (py_get inst "region" (i_region info)) ;;
         instance_cache_mutate key (fun r =>
           {| i_playerCount := i_playerCount r; i_region := region;
              i_type := i_type r; i_world_name := i_world_name r;
              i_world_id := i_world_id r;
              i_instance_id := i_instance_id r |}) ;;
         type <- lift (py_get inst "type" (i_type info)) ;;
         instance_cache_mutate key (fun r =>
           {| i_playerCount := i_playerCount r; i_region := i_region r;
              i_type := type; i_world_name := i_world_name r;
              i_world_id := i_world_id r;
              i_instance_id := i_instance_id r |})
       else ret tt) ;;
      wc <- gets _world_cache ;;
      entry' <- gets (fun s => dict_get key (_instance_cache s)) ;;
      match entry' with
      | None => raise KeyError
      | Some (_, info') =>
          gauge_labels_set_json INSTANCE_PLAYER_COUNT
            [wid; py_str (cached_world_name wid wc); iid;
             py_str (i_type info'); py_str (i_region info')]
            (i_playerCount info')
      end
  end.

Definition collect_instance_metrics : M unit :=
  metric_clear INSTANCE_PLAYER_COUNT ;;
  ic <- gets _instance_cache ;;
  for_each (dict_keys ic) refresh_instance.

(** *** collect_favorites *)

(** [x[0]]. *)
Definition py_first (x : Json) : Py Json :=
  match x with
  | JList (h :: _) => inr h
  | JList [] => inl IndexError
  | JStr (String c _) => inr (JStr (String c EmptyString))
  | JStr EmptyString => inl IndexError
  | JObj _ => inl KeyError
  | JNull | JBool _ | JNum _ => inl TypeError
  end.

(** [fav.get("tags", ["unknown"])[0] if fav.get("tags") else
    fav.get("type", "unknown")]. *)
Definition favorite_tag (fav : Json) : Py Json :=
  py_bind (py_get fav "tags" JNull) (fun t =>
    if truthy t then
      py_bind (py_get fav "tags" (JList [JStr "unknown"])) py_first
    else py_get fav "type" (JStr "unknown")).

Fixpoint count_tags (favs : list Json) (tag_counts : list (Json * Z))
  : Py (list (Json * Z)) :=
  match favs with
  | [] => inr tag_counts
  | fav :: rest =>
      py_bind (favorite_tag fav) (fun tag =>
      py_bind (count_incr tag tag_counts) (fun tag_counts' =>
        count_tags rest tag_counts'))
  end.

(** [for ftype in ("world", "avatar", "friend")], each type paged in
    turn. *)
Fixpoint fetch_favorites (ftypes : list string) (all_favs : list Json)
  : M (list Json) :=
  match ftypes with
  | [] => ret all_favs
  | ftype :: rest =>
      all_favs' <- fetch_pages (patience env) "/favorites"
                               (favorites_params ftype) 0 all_favs ;;
      fetch_favorites rest all_favs'
  end.

Definition collect_favorites : M unit :=
  all_favs <- fetch_favorites ["world"; "avatar"; "friend"] [] ;;
  tag_counts <- lift (count_tags all_favs []) ;;
  metric_clear FAVORITES_TOTAL ;;
  for_each tag_counts (fun tc =>
    gauge_set FAVORITES_TOTAL [py_str (fst tc)] (snd tc)).

(* ------------------------------------------------------------------ *)
(** ** Main scrape loop *)

(** Entry into a collector, as the observer sees it. *)
Definition enter (c : Collector) : M unit := modify (push_event (EvCollect c)).

(** [a % b] on Python integers. *)
Definition py_mod (a b : Z) : Py Z :=
  if b =? 0 then inl ZeroDivisionError else inr (a mod b).

(** The collectors of cycle [cycle_number], in the order [scrape_all]
    calls them. *)
Definition run_collectors (cycle_number : Z) : M unit :=
  enter CPlatform ;; collect_platform ;;
  enter CCurrentUser ;; _ <- collect_current_user ;;
  enter CFriendsOnline ;; collect_friends_online ;;
  enter CWorldMetrics ;; collect_world_metrics ;;
  ic <- gets _instance_cache ;;
  when (nonempty ic) (enter CInstanceMetrics ;; collect_instance_metrics) ;;
  r5 <- lift (py_mod cycle_number (OFFLINE_SCRAPE_CYCLES cfg)) ;;
  when (r5 =? 0) (enter CFriendsOffline ;; collect_friends_offline) ;;
  when (cycle_number mod 3 =? 0) (enter CFavorites ;; collect_favorites).

Definition scrape_all (cycle_number : Z) : M unit :=
  start <- time ;;
  modify (push_event (EvCycle cycle_number)) ;;
  run_collectors cycle_number ;;
  finish <- time ;;
  gauge_set SCRAPE_DURATION [] (finish - start) ;;
  t <- time ;;
  gauge_set LAST_SCRAPE_TS [] t ;;
  gauge_set SCRAPE_CYCLE_NUM [] cycle_number.

(** [cycle += 1] and [scrape_all(client, cycle)]. *)
Definition next_cycle : M unit :=
  modify (fun s => set_cycle (cycle s + 1) s) ;;
  c <- gets cycle ;;
  scrape_all c.

(** One turn of the [while True] loop of [main]. *)
Definition main_iteration : M unit :=
  continue <-
    try_except
      (is_auth <- gets authenticated ;;
       ok <- (if is_auth then ret true else authenticate) ;;
       if negb ok then
         sleep 60000 ;; ret true
       else
         next_cycle ;; ret false)
      (fun _ => counter_inc SCRAPE_ERRORS ["main_loop"] ;; ret false) ;;
  if continue then ret tt
  else sleep (1000 * SCRAPE_INTERVAL cfg).

(** The first [turns] turns of the loop. *)
Fixpoint main_loop (turns : nat) : M unit :=
  match turns with
  | O => ret tt
  | S n => main_iteration ;; main_loop n
  end.

Definition main (turns : nat) : M unit :=
  ok <- authenticate ;;
  if negb ok then sys_exit
  else
    modify (set_cycle 0) ;;
    main_loop turns.

End Exporter.

(* ================================================================== *)
(** * What an observer reads off a run *)
(* ================================================================== *)

(** The events logged between [s] and a later state [s'], oldest first. *)
Definition since (s s' : State) : list Event :=
  List.rev (firstn (List.length (log s') - List.length (log s)) (log s')).

(** The collectors entered, in the order of the events. *)
Fixpoint collectors_of (l : list Event) : list Collector :=
  match l with
  | [] => []
  | EvCollect c :: rest => c :: collectors_of rest
  | _ :: rest => collectors_of rest
  end.

(** The cycle numbers [scrape_all] was started with. *)
Fixpoint cycles_of (l : list Event) : list Z :=
  match l with
  | [] => []
  | EvCycle n :: rest => n :: cycles_of rest
  | _ :: rest => cycles_of rest
  end.

(** Issue and completion time of every request. *)
Fixpoint requests_of (l : list Event) : list (Z * Z) :=
  match l with
  | [] => []
  | EvRequest issued completed _ :: rest =>
      (issued, completed) :: requests_of rest
  | _ :: rest => requests_of rest
  end.

(** The sleeps asked for. *)
Fixpoint sleeps_of (l : list Event) : list Z :=
  match l with
  | [] => []
  | EvSleep ms :: rest => ms :: sleeps_of rest
  | _ :: rest => sleeps_of rest
  end.

(** Requests given oldest first: each is issued at least [d] after the
    previous one was issued. *)
Fixpoint issue_spaced (d : Z) (rs : list (Z * Z)) : Prop :=
  match rs with
  | r1 :: ((r2 :: _) as rest) => fst r1 + d <= fst r2 /\ issue_spaced d rest
  | _ => True
  end.

(** Requests given oldest first: each is issued at least [d] after the
    previous one completed. *)
Fixpoint completion_spaced (d : Z) (rs : list (Z * Z)) : Prop :=
  match rs with
  | r1 :: ((r2 :: _) as rest) =>
      snd r1 + d <= fst r2 /\ completion_spaced d rest
  | _ => True
  end.

(** What [_get] returns for an exchange result. *)
Definition reply_json (r : HttpResult) : Json :=
  match r with
  | Response status body => if status =? 200 then body else JNull
  | RequestException => JNull
  end.

(** The request [_get(f"/worlds/{wid}")] sends. *)
Definition world_request (wid : string) : Request :=
  {| endpoint := "/worlds/" ++ wid; params := [] |}.

(** The request [_get(f"/instances/{wid}:{iid}")] sends for the cache key
    [wid:iid]. *)
Definition instance_request (key : string) : Request :=
  {| endpoint := "/instances/" ++ key; params := [] |}.

(** The order of section 4.10 of the specification: the collectors of
    cycle [n], [has_instances] telling whether the instance cache is
    non-empty. *)
Definition schedule (cfg : Config) (has_instances : bool) (n : Z)
  : list Collector :=
  ([CPlatform; CCurrentUser; CFriendsOnline; CWorldMetrics]
   ++ (if has_instances then [CInstanceMetrics] else [])
   ++ (if n mod OFFLINE_SCRAPE_CYCLES cfg =? 0 then [CFriendsOffline] else [])
   ++ (if n mod 3 =? 0 then [CFavorites] else []))%list.

(** Every object of the two caches of [s] is still in [s'], under the same
    key and with the same identity. *)
Definition keeps_objects (s s' : State) : Prop :=
  (forall k id r, dict_get k (_world_cache s) = Some (id, r) ->
     exists r', dict_get k (_world_cache s') = Some (id, r'))
  /\
  (forall k id r, dict_get k (_instance_cache s) = Some (id, r) ->
     exists r', dict_get k (_instance_cache s') = Some (id, r')).

(** The upstream gives the same answer to a request whenever it is asked. *)
Definition upstream_unchanged (env : Environment) : Prop :=
  forall n m req, upstream env n req = upstream env m req.

(** A world lookup answer the resolution code was written for: a JSON
    object, or nothing. *)
Definition object_or_none (j : Json) : bool :=
  match j with
  | JObj _ | JNull => true
  | _ => false
  end.

Definition worlds_well_formed (env : Environment) : Prop :=
  forall n wid,
    object_or_none (reply_json (upstream env n (world_request wid))) = true.

(* ================================================================== *)
(** * Vocabulary of the proofs *)
(* ================================================================== *)

(** [respects R m]: wherever [m] is started and however it ends, the state
    it stops in is related by [R] to the state it started in. *)
Definition respects {A} (R : State -> State -> Prop) (m : M A) : Prop :=
  forall s, R s (final m s).

Class Preorder (R : State -> State -> Prop) : Prop := {
  pre_refl : forall s, R s s;
  pre_trans : forall a b c, R a b -> R b c -> R a c
}.

(** Two states agree on what [f] reads. *)
Definition same_on {B} (f : State -> B) (s s' : State) : Prop := f s = f s'.


(** The state in which [_throttle] leaves the client. *)
Definition throttled (cfg : Config) (s : State) : State :=
  let elapsed := now s - _last_request_time s in
  if elapsed <? REQUEST_DELAY cfg then
    let d := REQUEST_DELAY cfg - elapsed in
    set_last_request_time (now s + d) (pass_time d (EvSleep d) s)
  else set_last_request_time (now s) s.

(** Requests given newest first: each was issued at least [d] after the
    one before it was issued. *)
Fixpoint spaced_desc (d : Z) (rs : list (Z * Z)) : Prop :=
  match rs with
  | r2 :: ((r1 :: _) as rest) => fst r1 + d <= fst r2 /\ spaced_desc d rest
  | _ => True
  end.

(** What the throttle maintains: the requests of the log are spaced, and
    [_last_request_time] is not before the issue of the latest one. *)
Definition throttle_invariant (cfg : Config) (s : State) : Prop :=
  spaced_desc (REQUEST_DELAY cfg) (requests_of (log s)) /\
  match requests_of (log s) with
  | r :: _ => fst r <= _last_request_time s
  | [] => True
  end.

Definition keeps_throttle (cfg : Config) (s s' : State) : Prop :=
  throttle_invariant cfg s -> throttle_invariant cfg s'.

(** The state after [_world_cache[wid] = r] for a new dict [r]. *)
Definition bind_world (wid : string) (r : WorldRec) (s : State) : State :=
  set_world_cache (dict_set wid (next_id s, r) (_world_cache s))
                  (bump_next_id s).

(** The state after [_instance_cache[key] = r] for a new dict [r]. *)
Definition bind_instance (key : string) (r : InstanceRec) (s : State)
  : State :=
  set_instance_cache (dict_set key (next_id s, r) (_instance_cache s))
                     (bump_next_id s).



(** A key that is not in the instance cache is not in it afterwards. *)
Definition stays_absent (key : string) (s s' : State) : Prop :=
  dict_mem key (_instance_cache s) = false ->
  dict_mem key (_instance_cache s') = false.


(** What a turn of the refresh loop does with the answer [j] to the lookup
    of [wid]: it raises ([None]), leaves the record alone ([Some None]) or
    overwrites its six fields ([Some (Some r)]). *)
Definition refresh_action (wid : string) (j : Json)
  : option (option WorldRec) :=
  match has_name j with
  | inl _ => None
  | inr false => Some None
  | inr true => match world_of_json wid j with
                | inl _ => None
                | inr r => Some (Some r)
                end
  end.

(** The world cache the refresh loop leaves when the lookup of [wid]
    always returns [resp wid]. *)
Fixpoint refresh_plan (cfg : Config) (resp : string -> Json)
  (wids : list string) (refreshed : Z) (c : Dict (nat * WorldRec))
  : Dict (nat * WorldRec) :=
  match wids with
  | [] => c
  | wid :: rest =>
      if refreshed >=? MAX_WORLD_LOOKUPS cfg then c
      else match refresh_action wid (resp wid) with
           | None => c
           | Some None => refresh_plan cfg resp rest (refreshed + 1) c
           | Some (Some r) =>
               if dict_mem wid c then
                 refresh_plan cfg resp rest (refreshed + 1)
                   (dict_update wid (fun e => (fst e, r)) c)
               else c
           end
  end.

(** The answer of an unchanging upstream to the lookup of [wid]. *)
Definition world_answer (env : Environment) (wid : string) : Json :=
  reply_json (upstream env O (world_request wid)).

(** A child of a metric that exists is not removed. *)
Definition keeps_child (m : Metric) (ls : list string) (s s' : State)
  : Prop :=
  sample m ls (registry s) <> None -> sample m ls (registry s') <> None.

(** The value read for a child of a metric. *)
Definition child_value (m : Metric) (ls : list string) (s : State)
  : option Z :=
  sample m ls (registry s).

(** Between [s] and [s'] the log has grown by events that name the
    collectors [l], in that order. *)
Definition logged (s s' : State) (l : list Collector) : Prop :=
  exists new,
    log s' = (new ++ log s)%list /\ collectors_of (List.rev new) = l.

(** Between [s] and [s'] the log has grown by events that name no collector
    and no cycle, and the cycle counter has not moved. *)
Definition quiet (s s' : State) : Prop :=
  (exists new,
     log s' = (new ++ log s)%list /\
     collectors_of new = [] /\ cycles_of new = [])
  /\ cycle s' = cycle s.

(** Between [s] and [s'] the log has grown by events that name no cycle,
    and the cycle counter has not moved. *)
Definition same_cycle (s s' : State) : Prop :=
  (exists new, log s' = (new ++ log s)%list /\ cycles_of new = [])
  /\ cycle s' = cycle s.

(** The cycle numbers of the log are 1, 2, ..., up to the cycle counter. *)
Definition cycles_counted (s : State) : Prop :=
  exists k : nat,
    cycles_of (List.rev (log s)) = map Z.of_nat (seq 1 k) /\
    cycle s = Z.of_nat k.

(** The schedule from the instance collector on, from the offline
    collector on, and the favorites collector. *)
Definition schedule_favorites (n : Z) : list Collector :=
  if n mod 3 =? 0 then [CFavorites] else [].

Definition schedule_offline (cfg : Config) (n : Z) : list Collector :=
  ((if n mod OFFLINE_SCRAPE_CYCLES cfg =? 0 then [CFriendsOffline] else [])
   ++ schedule_favorites n)%list.

Definition schedule_instances (cfg : Config) (has_instances : bool) (n : Z)
  : list Collector :=
  ((if has_instances then [CInstanceMetrics] else [])
   ++ schedule_offline cfg n)%list.



(** The test [scrape_all] makes when cycle [n] comes to collector [c] in
    state [s]: the first four collectors are called in every cycle. *)
Definition due (cfg : Config) (n : Z) (c : Collector) (s : State) : Py bool :=
  match c with
  | CInstanceMetrics => inr (nonempty (_instance_cache s))
  | CFriendsOffline =>
      py_bind (py_mod n (OFFLINE_SCRAPE_CYCLES cfg)) (fun r => inr (r =? 0))
  | CFavorites => inr (n mod 3 =? 0)
  | _ => inr true
  end.



(** The value of the error counter for the main loop. *)
Definition main_loop_errors (s : State) : Z :=
  match child_value SCRAPE_ERRORS ["main_loop"] s with
  | Some v => v
  | None => 0
  end.

Definition keeps_counted (s s' : State) : Prop :=
  cycles_counted s -> cycles_counted s'.

(** Between [s] and [s'] the collectors entered are an initial segment of
    [full], and all of [full] when the computation returned. *)
Definition ran (s s' : State) (returned : Prop) (full : list Collector)
  : Prop :=
  (exists j, logged s s' (firstn j full)) /\ (returned -> logged s s' full).

(** A computation started in [s] returned. *)
Definition returns {A} (m : M A) (s : State) : Prop :=
  exists a, snd (m s) = Ret a.

(* ================================================================== *)
(** * Sample configurations and environments *)
(* ================================================================== *)

(** The defaults of the configuration block, with an auth cookie set. *)
Definition default_config : Config :=
  {| SCRAPE_INTERVAL := 120; REQUEST_DELAY := 1500;
     MAX_WORLD_LOOKUPS := 40; OFFLINE_SCRAPE_CYCLES := 5;
     AUTH_COOKIE := "authcookie_0000"; USERNAME := ""; PASSWORD := "" |}.

(** An upstream that answers by endpoint alone, always after [lat]
    milliseconds; sets iterate in insertion order. *)
Definition static_env (api : string -> HttpResult) (lat : nat) : Environment :=
  {| upstream := fun _ req => api (endpoint req);
     latency := fun _ _ => lat;
     set_order := fun l => l;
     set_order_perm := fun l => Permutation_refl l;
     float_of_str := fun _ => None;
     repr := fun _ => "<container>";
     patience := 8 |}.

Definition ok (body : Json) : HttpResult := Response 200 body.

(** A friend record of the friends endpoint. *)
Definition friend (name status platform location : string) : Json :=
  JObj [("displayName", JStr name); ("status", JStr status);
        ("last_platform", JStr platform); ("location", JStr location);
        ("currentAvatarName", JStr "avatar")].

(** A user document with two trust tags. *)
Definition user_doc : Json :=
  JObj [("id", JStr "usr_1"); ("displayName", JStr "me");
        ("status", JStr "active");
        ("tags", JList [JStr "system_trust_basic"; JStr "system_trust_known"]);
        ("onlineFriends", JList [JStr "usr_2"; JStr "usr_3"]);
        ("friends", JList [JStr "usr_2"; JStr "usr_3"; JStr "usr_4"])].

(** Two online friends, one in a public instance of [wrld_abc], one with
    the [offline] location. *)
Definition api_two_friends (ep : string) : HttpResult :=
  if (ep =? "/visits")%string then ok (JNum 54321)
  else if (ep =? "/auth/user")%string then ok user_doc
  else if (ep =? "/auth/user/friends")%string then
    ok (JList [friend "ann" "active" "standalonewindows" "wrld_abc:inst1~public";
               friend "bob" "offline" "android" "offline"])
  else if (ep =? "/worlds/wrld_abc")%string then
    ok (JObj [("name", JStr "The Abc"); ("authorName", JStr "zed");
              ("visits", JNum 10); ("favorites", JNum 2);
              ("occupants", JNum 3); ("heat", JNum 4)])
  else if (ep =? "/instances/wrld_abc:inst1")%string then
    ok (JObj [("n_users", JNum 7); ("region", JStr "eu");
              ("type", JStr "public")])
  else Response 404 JNull.

(** An upstream that answers by request alone. *)
Definition request_env (api : Request -> HttpResult) (lat : nat)
  : Environment :=
  {| upstream := fun _ req => api req;
     latency := fun _ _ => lat;
     set_order := fun l => l;
     set_order_perm := fun l => Permutation_refl l;
     float_of_str := fun _ => None;
     repr := fun _ => "<container>";
     patience := 8 |}.

(** A hundred online friends, each in a world of their own. *)
Definition hundred_friends : list Json :=
  map (fun i : nat =>
         friend ("friend" ++ str_of_Z (Z.of_nat i)) "active"
                "standalonewindows"
                ("wrld_" ++ str_of_Z (Z.of_nat i) ++ ":1~public"))
      (seq 0 100).

(** The friends endpoint serves that one page; every other endpoint
    answers 404. *)
Definition api_hundred_friends (req : Request) : HttpResult :=
  if (endpoint req =? "/auth/user/friends")%string then
    match assoc "offset" (params req) with
    | Some "0" => ok (JList hundred_friends)
    | _ => ok (JList [])
    end
  else Response 404 JNull.

Definition env_hundred_friends : Environment :=
  request_env api_hundred_friends 50.



(** One online friend in a public instance of [wrld_abc]; the world and
    instance lookups fail with a 404. *)
Definition api_lookups_fail (ep : string) : HttpResult :=
  if (ep =? "/visits")%string then ok (JNum 54321)
  else if (ep =? "/auth/user")%string then ok user_doc
  else if (ep =? "/auth/user/friends")%string then
    ok (JList [friend "ann" "active" "standalonewindows"
                      "wrld_abc:inst1~public"])
  else Response 404 JNull.

(** An upstream whose only online friend is [ann], busy, at the first
    exchange and [bob], active, from then on; every other endpoint answers
    404. *)
Definition env_friend_leaves : Environment :=
  {| upstream := fun n req =>
       if (endpoint req =? "/auth/user/friends")%string then
         if Nat.ltb n 1 then
           ok (JList [friend "ann" "busy" "android" "private"])
         else
           ok (JList [friend "bob" "active" "standalonewindows" "private"])
       else Response 404 JNull;
     latency := fun _ _ => 100%nat;
     set_order := fun l => l;
     set_order_perm := fun l => Permutation_refl l;
     float_of_str := fun _ => None;
     repr := fun _ => "<container>";
     patience := 8 |}.

(** A user document whose [tags] field is null. *)
Definition user_doc_null_tags : Json :=
  JObj [("id", JStr "usr_1"); ("displayName", JStr "me");
        ("status", JStr "active"); ("tags", JNull)].

Definition api_null_tags (ep : string) : HttpResult :=
  if (ep =? "/visits")%string then ok (JNum 54321)
  else if (ep =? "/auth/user")%string then ok user_doc_null_tags
  else if (ep =? "/auth/user/friends")%string then
    ok (JList [friend "ann" "active" "standalonewindows" "private"])
  else Response 404 JNull.

(* ================================================================== *)
(** * Further observations *)
(* ================================================================== *)

(** The regions [_parse_region] looks for, in the order of its tuple. *)
Definition REGIONS : list string := ["us"; "use"; "eu"; "jp"; "aus"].

(** The requests sent, in the order of the events. *)
Fixpoint sent (l : list Event) : list Request :=
  match l with
  | [] => []
  | EvRequest _ _ req :: rest => req :: sent rest
  | _ :: rest => sent rest
  end.

(** The number of observations recorded in the request histogram under an
    endpoint label, and their total duration. *)
Definition observations (label : string) (s : State) : Z * Z :=
  (match child_value API_REQUEST_DURATION_count [label] s with
   | Some v => v
   | None => 0
   end,
   match child_value API_REQUEST_DURATION_sum [label] s with
   | Some v => v
   | None => 0
   end).

(** The request [authenticate] sends. *)
Definition auth_request : Request :=
  {| endpoint := "/auth/user"; params := [] |}.

(* ================================================================== *)
(** * Further sample configurations and environments *)
(* ================================================================== *)

(** The defaults with no credentials at all. *)
Definition config_without_credentials : Config :=
  {| SCRAPE_INTERVAL := 120; REQUEST_DELAY := 1500;
     MAX_WORLD_LOOKUPS := 40; OFFLINE_SCRAPE_CYCLES := 5;
     AUTH_COOKIE := ""; USERNAME := ""; PASSWORD := "" |}.

(** The defaults with a user name and a password instead of a cookie. *)
Definition config_with_password : Config :=
  {| SCRAPE_INTERVAL := 120; REQUEST_DELAY := 1500;
     MAX_WORLD_LOOKUPS := 40; OFFLINE_SCRAPE_CYCLES := 5;
     AUTH_COOKIE := ""; USERNAME := "someone"; PASSWORD := "secret" |}.

(** An upstream that refuses every request with a 401. *)
Definition api_unauthorized (ep : string) : HttpResult := Response 401 JNull.

(** An upstream whose user document asks for a second factor. *)
Definition api_two_factor (ep : string) : HttpResult :=
  if (ep =? "/auth/user")%string then
    ok (JObj [("id", JStr "usr_1"); ("requiresTwoFactorAuth", JBool true)])
  else Response 404 JNull.

(** The value of the error counter under an endpoint label. *)
Definition error_count (label : string) (s : State) : Z :=
  match child_value SCRAPE_ERRORS [label] s with
  | Some v => v
  | None => 0
  end.


(** [data.get(key, default)] on the fields of a JSON object. *)
Definition field (fields : list (string * Json)) (key : string)
  (default : Json) : Json :=
  match assoc key fields with
  | Some v => v
  | None => default
  end.

(** A page that ends a pagination: anything that is not a list, and a list
    shorter than a page. *)
Definition short_page (j : Json) : bool :=
  match j with
  | JList items => Z.of_nat (List.length items) <? page_size
  | _ => true
  end.

(** The items a page contributes. *)
Definition page_items (j : Json) : list Json :=
  match j with
  | JList items => items
  | _ => []
  end.

(** What [_get] returns to a pagination of the endpoint [ep] that sends its
    first request, for the offset [offset], at exchange [x]: the full pages
    [pages], one after the other, and then [last]. *)
Fixpoint serves (env : Environment) (ep : string)
  (mk : Z -> list (string * string)) (x : nat) (offset : Z)
  (pages : list (list Json)) (last : Json) : Prop :=
  match pages with
  | [] =>
      reply_json (upstream env x {| endpoint := ep; params := mk offset |})
      = last
  | p :: rest =>
      reply_json (upstream env x {| endpoint := ep; params := mk offset |})
      = JList p /\
      page_size <= Z.of_nat (List.length p) /\
      serves env ep mk (S x) (offset + page_size) rest last
  end.

(** The requests of a pagination of [n] pages from the offset [offset]. *)
Fixpoint page_requests (ep : string) (mk : Z -> list (string * string))
  (offset : Z) (n : nat) : list Request :=
  match n with
  | O => []
  | S n' =>
      {| endpoint := ep; params := mk offset |}
        :: page_requests ep mk (offset + page_size) n'
  end.

(** Between [s] and [s'] the log has grown by events whose requests are
    [l], in that order. *)
Definition asked (s s' : State) (l : list Request) : Prop :=
  exists new, log s' = (new ++ log s)%list /\ sent (List.rev new) = l.

(** Between [s] and [s'] the log has grown by events that are no
    request. *)
Definition silent (s s' : State) : Prop :=
  exists new, log s' = (new ++ log s)%list /\ sent new = [].

(** Between [s] and [s'] the requests sent are an initial segment of
    [full], and all of [full] when the computation returned. *)
Definition asked_of (s s' : State) (returned : Prop) (full : list Request)
  : Prop :=
  (exists j, asked s s' (firstn j full)) /\ (returned -> asked s s' full).

(** The record a turn of the refresh loop leaves for a world whose record
    was [old], when the lookup returned [j]. *)
Definition refreshed_record (wid : string) (old : WorldRec) (j : Json)
  : WorldRec :=
  match refresh_action wid j with
  | Some (Some r) => r
  | _ => old
  end.

(** The world cache the refresh loop leaves when its first lookup is the
    exchange [x]. *)
Fixpoint refresh_trace (cfg : Config) (env : Environment)
  (wids : list string) (refreshed : Z) (x : nat) (c : Dict (nat * WorldRec))
  : Dict (nat * WorldRec) :=
  match wids with
  | [] => c
  | wid :: rest =>
      if refreshed >=? MAX_WORLD_LOOKUPS cfg then c
      else match refresh_action wid
                   (reply_json (upstream env x (world_request wid))) with
           | None => c
           | Some None => refresh_trace cfg env rest (refreshed + 1) (S x) c
           | Some (Some r) =>
               if dict_mem wid c then
                 refresh_trace cfg env rest (refreshed + 1) (S x)
                   (dict_update wid (fun e => (fst e, r)) c)
               else c
           end
  end.

(** Every record of the instance cache is stored under the key made of
    its own world id and instance id. *)
Definition instances_keyed (s : State) : Prop :=
  forall k id r,
    In (k, (id, r)) (_instance_cache s) ->
    k = i_world_id r ++ ":" ++ i_instance_id r.

Definition keeps_keyed (s s' : State) : Prop :=
  instances_keyed s -> instances_keyed s'.

(** How many of the requests of a list of events are instance lookups. *)
Definition instance_lookups (l : list Event) : nat :=
  List.length
    (filter (fun r => prefix "/instances/" (endpoint r)) (sent l)).

(** Between [s] and [s'] at most [n] instance lookups were sent and the
    instance cache has grown by at most [n] entries. *)
Definition adds_instances (n : nat) (s s' : State) : Prop :=
  exists new,
    log s' = (new ++ log s)%list /\
    (instance_lookups new <= n)%nat /\
    (List.length (_instance_cache s')
     <= List.length (_instance_cache s) + n)%nat.

(** Between [s] and [s'] the instance cache has grown by at most [n]
    entries. *)
Definition instances_grow (n : nat) (s s' : State) : Prop :=
  (List.length (_instance_cache s')
   <= List.length (_instance_cache s) + n)%nat.

(** The label and the value of every child a dict of counts is published
    under. *)
Definition labelled (env : Environment) (counts : list (Json * Z))
  : list (string * Z) :=
  map (fun e => (py_str env (fst e), snd e)) counts.

(** How many times [t] occurs in [l], as the value of a gauge. *)
Definition occurrences (t : string) (l : list string) : Z :=
  Z.of_nat (count_occ string_dec l t).

(** The value of the child of a count gauge that has just been cleared:
    none when there is nothing to count. *)
Definition counted (t : string) (l : list string) : option Z :=
  if occurrences t l =? 0 then None else Some (occurrences t l).

(** Every page of favourites holds one favourite tagged [group_0] and one
    without tags, of type [world]. *)
Definition api_favorites (ep : string) : HttpResult :=
  if (ep =? "/favorites")%string then
    ok (JList [JObj [("id", JStr "fvrt_1"); ("type", JStr "world");
                     ("tags", JList [JStr "group_0"])];
               JObj [("id", JStr "fvrt_2"); ("type", JStr "world")]])
  else Response 404 JNull.

(** The keys of a dict of counts are strings. *)
Definition string_keys (c : list (Json * Z)) : Prop :=
  Forall (fun e => exists u, fst e = JStr u) c.


(* ================================================================== *)
(** * Location strings and trust ranks *)
(* ================================================================== *)

Section Strings.

Lemma append_nil_r (a : string) : a ++ "" = a.
Proof. induction a as [|x a IH]; simpl; congruence. Qed.

Lemma append_assoc (a b c : string) : a ++ b ++ c = (a ++ b) ++ c.
Proof. induction a as [|x a IH]; simpl; congruence. Qed.

Lemma prefix_other_head (c a : ascii) (k r : string) :
  Ascii.eqb a c = false -> prefix (String c k) (String a r) = false.
Proof.
  intros H. simpl. destruct (ascii_dec c a) as [->|]; [|reflexivity].
  rewrite Ascii.eqb_refl in H. discriminate.
Qed.

Lemma str_contains_skip (c : ascii) (k a b : string) :
  char_free c a = true ->
  str_contains (String c k) (a ++ b) = str_contains (String c k) b.
Proof.
  induction a as [|x a IH]; intros H; [reflexivity|].
  simpl in H. apply andb_true_iff in H as [Hx Ha].
  apply negb_true_iff in Hx.
  change (String x a ++ b) with (String x (a ++ b)).
  cbn [str_contains]. rewrite prefix_other_head by assumption.
  simpl. auto.
Qed.

Lemma str_contains_free (c : ascii) (k a : string) :
  char_free c a = true -> str_contains (String c k) a = false.
Proof.
  intros H. rewrite <- (append_nil_r a) at 1.
  rewrite str_contains_skip by assumption. reflexivity.
Qed.

Lemma str_contains_found (c : ascii) (a b : string) :
  str_contains (String c EmptyString) (a ++ String c b) = true.
Proof.
  induction a as [|x a IH].
  - simpl. destruct (ascii_dec c c); [|congruence].
    destruct b; reflexivity.
  - change (String x a ++ String c b) with (String x (a ++ String c b)).
    cbn [str_contains]. rewrite IH. apply orb_true_r.
Qed.

Lemma char_free_app (c : ascii) (a b : string) :
  char_free c (a ++ b) = char_free c a && char_free c b.
Proof.
  induction a as [|x a IH]; [reflexivity|].
  simpl. rewrite IH. apply andb_assoc.
Qed.

(** A group location: nothing before [~group(] holds a tilde, and the
    access types listed before [group] in the table do not occur. *)
Lemma group_location_keys (X Y V rest key : string) :
  char_free tilde X = true -> char_free tilde Y = true ->
  char_free tilde V = true ->
  In key ["public"; "hidden"; "friends"; "private"] ->
  str_contains ("~" ++ key) rest = false ->
  str_contains ("~" ++ key)
    ("wrld_" ++ X ++ ":" ++ Y ++ "~group(" ++ V ++ ")" ++ rest) = false.
Proof.
  intros HX HY HV Hk Hrest.
  assert (Hpre : char_free tilde ("wrld_" ++ X ++ ":" ++ Y) = true).
  { rewrite !char_free_app, HX, HY. reflexivity. }
  assert (Hmid : char_free tilde ("group(" ++ V ++ ")") = true).
  { rewrite !char_free_app, HV. reflexivity. }
  replace ("wrld_" ++ X ++ ":" ++ Y ++ "~group(" ++ V ++ ")" ++ rest)
    with (("wrld_" ++ X ++ ":" ++ Y)
            ++ String tilde (("group(" ++ V ++ ")") ++ rest)).
  2:{ repeat rewrite <- append_assoc. simpl.
      repeat rewrite <- append_assoc. reflexivity. }
  change ("~" ++ key) with (String tilde key) in *.
  rewrite str_contains_skip by assumption.
  cbn [str_contains].
  rewrite str_contains_skip by assumption. rewrite Hrest.
  simpl in Hk.
  destruct Hk as [<-|[<-|[<-|[<-|[]]]]]; reflexivity.
Qed.

Lemma group_location_group (X Y V rest : string) :
  char_free tilde X = true -> char_free tilde Y = true ->
  str_contains "~group"
    ("wrld_" ++ X ++ ":" ++ Y ++ "~group(" ++ V ++ ")" ++ rest) = true.
Proof.
  intros HX HY.
  assert (Hpre : char_free tilde ("wrld_" ++ X ++ ":" ++ Y) = true).
  { rewrite !char_free_app, HX, HY. reflexivity. }
  replace ("wrld_" ++ X ++ ":" ++ Y ++ "~group(" ++ V ++ ")" ++ rest)
    with (("wrld_" ++ X ++ ":" ++ Y) ++ "~group(" ++ V ++ ")" ++ rest).
  2:{ repeat rewrite <- append_assoc. simpl.
      repeat rewrite <- append_assoc. reflexivity. }
  change "~group" with (String tilde "group").
  rewrite str_contains_skip by assumption. reflexivity.
Qed.

Lemma group_location_tilde (X Y V rest : string) :
  str_contains "~"
    ("wrld_" ++ X ++ ":" ++ Y ++ "~group(" ++ V ++ ")" ++ rest) = true.
Proof.
  replace ("wrld_" ++ X ++ ":" ++ Y ++ "~group(" ++ V ++ ")" ++ rest)
    with (("wrld_" ++ X ++ ":" ++ Y)
            ++ String tilde ("group(" ++ V ++ ")" ++ rest)).
  2:{ repeat rewrite <- append_assoc. simpl.
      repeat rewrite <- append_assoc. reflexivity. }
  apply str_contains_found.
Qed.

Lemma prefix_app (p b : string) : prefix p (p ++ b) = true.
Proof.
  induction p as [|c p IH]; [destruct b; reflexivity|].
  simpl. destruct (ascii_dec c c); [assumption|congruence].
Qed.

(** A string that occurs in another is found there. *)
Lemma str_contains_infix (p a b : string) :
  str_contains p (a ++ p ++ b) = true.
Proof.
  induction a as [|x a IH].
  - change ("" ++ p ++ b) with (p ++ b).
    destruct (p ++ b) eqn:E; cbn [str_contains]; rewrite <- E, prefix_app;
      reflexivity.
  - change (String x a ++ p ++ b) with (String x (a ++ p ++ b)).
    cbn [str_contains]. rewrite IH. apply orb_true_r.
Qed.

Lemma group_location_marked (X Y V rest : string) :
  str_contains "~group"
    ("wrld_" ++ X ++ ":" ++ Y ++ "~group(" ++ V ++ ")" ++ rest) = true.
Proof.
  replace ("wrld_" ++ X ++ ":" ++ Y ++ "~group(" ++ V ++ ")" ++ rest)
    with (("wrld_" ++ X ++ ":" ++ Y) ++ "~group" ++ "(" ++ V ++ ")" ++ rest).
  2:{ repeat rewrite <- append_assoc. simpl.
      repeat rewrite <- append_assoc. reflexivity. }
  apply str_contains_infix.
Qed.

End Strings.

(** C4, as the code has it.  The instance-type parser returns each of the
    sentinels [private], [offline], [traveling] unchanged and [unknown] for
    the empty location, and for these four locations none of the three
    passes of [collect_friends_online] takes a world id out of the
    location.  For a location [wrld_X:Y~group(V)], with or without further
    segments, the parser goes through the table in its order and returns
    the type of the first of the markers [~public], [~hidden], [~friends],
    [~private] that occurs anywhere in the location, and [group] only when
    none of the four occurs; that is the case when [X], [Y] and [V] hold no
    tilde and the segments that follow name none of the four.  A location
    that is not empty, not a sentinel and has no tilde parses to
    [public]. *)
Theorem parse_instance_type_cases :
  (forall loc, In loc SENTINELS ->
     _parse_instance_type loc = loc /\
     world_id_of_location (JStr loc) = inr None /\
     instance_of_location (JStr loc) = inr None /\
     detail_of_location (JStr loc) = inr None)
  /\
  (_parse_instance_type "" = "unknown" /\
   world_id_of_location (JStr "") = inr None /\
   instance_of_location (JStr "") = inr None /\
   detail_of_location (JStr "") = inr None)
  /\
  (forall X Y V rest,
     let loc := "wrld_" ++ X ++ ":" ++ Y ++ "~group(" ++ V ++ ")" ++ rest in
     _parse_instance_type loc =
     if str_contains "~public" loc then "public"
     else if str_contains "~hidden" loc then "friends+"
     else if str_contains "~friends" loc then "friends"
     else if str_contains "~private" loc then "private"
     else "group")
  /\
  (forall X Y V rest,
     char_free tilde X = true -> char_free tilde Y = true ->
     char_free tilde V = true ->
     (forall key, In key ["public"; "hidden"; "friends"; "private"] ->
        str_contains ("~" ++ key) rest = false) ->
     _parse_instance_type
       ("wrld_" ++ X ++ ":" ++ Y ++ "~group(" ++ V ++ ")" ++ rest) = "group")
  /\
  (forall loc, loc <> "" -> ~ In loc SENTINELS ->
     str_contains "~" loc = false ->
     _parse_instance_type loc = "public").
Proof.
  repeat split.
  1-4: simpl in H; destruct H as [<-|[<-|[<-|[]]]]; reflexivity.
  - intros X Y V rest. cbv zeta.
    unfold _parse_instance_type.
    change (("wrld_" ++ X ++ ":" ++ Y ++ "~group(" ++ V ++ ")" ++ rest
             =? "")%string) with false.
    change (str_in_tuple
              ("wrld_" ++ X ++ ":" ++ Y ++ "~group(" ++ V ++ ")" ++ rest)
              SENTINELS) with false.
    rewrite group_location_tilde.
    cbn [orb negb INSTANCE_TYPE_MAP find fst].
    change ("~" ++ "public") with "~public".
    change ("~" ++ "hidden") with "~hidden".
    change ("~" ++ "friends") with "~friends".
    change ("~" ++ "private") with "~private".
    change ("~" ++ "group") with "~group".
    rewrite group_location_marked.
    repeat match goal with
           | |- context [if ?b then _ else _] => destruct b
           end; reflexivity.
  - intros X Y V rest HX HY HV Hrest.
    unfold _parse_instance_type.
    change (("wrld_" ++ X ++ ":" ++ Y ++ "~group(" ++ V ++ ")" ++ rest
             =? "")%string) with false.
    change (str_in_tuple
              ("wrld_" ++ X ++ ":" ++ Y ++ "~group(" ++ V ++ ")" ++ rest)
              SENTINELS) with false.
    rewrite group_location_tilde.
    cbn [orb negb INSTANCE_TYPE_MAP find fst].
    rewrite !group_location_keys
      by first [assumption | apply Hrest; simpl; auto 6 | simpl; auto 6].
    rewrite group_location_group by assumption.
    reflexivity.
  - intros loc Hne Hs Ht.
    unfold _parse_instance_type.
    destruct (String.eqb_spec loc ""); [contradiction|].
    destruct (str_in_tuple loc SENTINELS) eqn:E.
    + exfalso. apply Hs. unfold str_in_tuple in E.
      apply existsb_exists in E as (x & Hx & Hxe).
      apply String.eqb_eq in Hxe. subst. assumption.
    + rewrite Ht. reflexivity.
Qed.

(** The theorem at the group instance [wrld_1:12345~group(grp_7)] followed
    by a region segment, and at a bare public instance. *)
Lemma parse_instance_type_cases_witness :
  _parse_instance_type "wrld_1:12345~group(grp_7)~region(eu)" = "group" /\
  _parse_instance_type "wrld_1:12345" = "public" /\
  _parse_instance_type "traveling" = "traveling".
Proof.
  destruct parse_instance_type_cases as (Hs & _ & _ & Hg & Hp).
  split; [|split].
  - apply (Hg "1" "12345" "grp_7" "~region(eu)"); try reflexivity.
    intros key Hk. simpl in Hk.
    destruct Hk as [<-|[<-|[<-|[<-|[]]]]]; reflexivity.
  - apply Hp; [discriminate| |reflexivity].
    simpl. intros [H|[H|[H|[]]]]; discriminate.
  - apply Hs. simpl. auto.
Defined.

(** C4, as stated, fails: a location of the form [wrld_X:Y~group(...)]
    that also holds the marker of an access type listed before [group]
    does not parse to [group].  A group instance followed by a [~private]
    segment, and one whose group id holds [~private], parse to [private];
    one followed by a [~friends] segment parses to [friends]. *)
Lemma group_location_parsed_as_other_type :
  "wrld_1:1~group(grp_1)~private(usr_2)"
  = "wrld_" ++ "1" ++ ":" ++ "1" ++ "~group(" ++ "grp_1" ++ ")"
    ++ "~private(usr_2)" /\
  _parse_instance_type "wrld_1:1~group(grp_1)~private(usr_2)" = "private" /\
  "wrld_1:1~group(~private)"
  = "wrld_" ++ "1" ++ ":" ++ "1" ++ "~group(" ++ "~private" ++ ")" ++ "" /\
  _parse_instance_type "wrld_1:1~group(~private)" = "private" /\
  _parse_instance_type "wrld_1:1~group(grp_1)~friends(usr_2)" = "friends".
Proof. repeat split. Qed.

Section TrustRank.

Lemma trust_rank_scan_skip (l1 : list string) (l2 : list Json) :
  (forall u, In u l1 -> assoc u TRUST_RANK_MAP = None) ->
  trust_rank_scan (map JStr l1 ++ l2) = trust_rank_scan l2.
Proof.
  induction l1 as [|u l1 IH]; intros H; [reflexivity|].
  cbn [map app trust_rank_scan hashable].
  rewrite (H u) by (left; reflexivity).
  apply IH. intros v Hv. apply H. right. assumption.
Qed.

Lemma trust_rank_scan_find (l : list string) :
  trust_rank_scan (map JStr l) =
  inr match find (fun t => match assoc t TRUST_RANK_MAP with
                           | Some _ => true
                           | None => false
                           end) l with
      | Some t => match assoc t TRUST_RANK_MAP with
                  | Some rank => rank
                  | None => 0
                  end
      | None => 0
      end.
Proof.
  induction l as [|t l IH]; [reflexivity|].
  cbn [map trust_rank_scan hashable find].
  destruct (assoc t TRUST_RANK_MAP) eqn:E; [|assumption].
  rewrite E. reflexivity.
Qed.

End TrustRank.

(** C8.  [_trust_rank_value] visits the tags from the last to the first and
    returns the rank of the first tag it finds in [TRUST_RANK_MAP], 0 when
    it finds none: on a list of strings its result is the rank of the last
    tag of the list that is in the table.  For [system_trust_basic,
    system_trust_known] it is 2, and it is 0 for every list none of whose
    tags is in the table. *)
Theorem trust_rank_value_reverse_scan :
  (forall tags : list string,
     _trust_rank_value (JList (map JStr tags)) =
     inr match find (fun t => match assoc t TRUST_RANK_MAP with
                              | Some _ => true
                              | None => false
                              end) (List.rev tags) with
         | Some t => match assoc t TRUST_RANK_MAP with
                     | Some rank => rank
                     | None => 0
                     end
         | None => 0
         end)
  /\
  (forall (before after : list string) (t : string) (rank : Z),
     assoc t TRUST_RANK_MAP = Some rank ->
     (forall u, In u after -> assoc u TRUST_RANK_MAP = None) ->
     _trust_rank_value (JList (map JStr (before ++ t :: after))) = inr rank)
  /\
  _trust_rank_value
    (JList [JStr "system_trust_basic"; JStr "system_trust_known"]) = inr 2
  /\
  (forall tags : list string,
     (forall u, In u tags -> assoc u TRUST_RANK_MAP = None) ->
     _trust_rank_value (JList (map JStr tags)) = inr 0).
Proof.
  split; [|split; [|split]].
  - intros tags. cbn [_trust_rank_value].
    rewrite <- map_rev. apply trust_rank_scan_find.
  - intros before after t rank Ht Hafter. cbn [_trust_rank_value].
    rewrite <- map_rev, rev_app_distr. cbn [List.rev].
    rewrite <- app_assoc, map_app, trust_rank_scan_skip.
    + cbn [map app trust_rank_scan hashable]. rewrite Ht. reflexivity.
    + intros u Hu. apply Hafter. apply in_rev. assumption.
  - reflexivity.
  - intros tags H. cbn [_trust_rank_value].
    rewrite <- map_rev, <- (app_nil_r (map JStr (List.rev tags))).
    rewrite trust_rank_scan_skip; [reflexivity|].
    intros u Hu. apply H. apply in_rev. assumption.
Qed.

(** The theorem at a list where a later [known] tag follows a [veteran]
    tag and is itself followed by an unknown tag, and at a list without any
    trust tag. *)
Lemma trust_rank_value_reverse_scan_witness :
  _trust_rank_value
    (JList (map JStr (["system_trust_veteran"]
                        ++ "system_trust_known" :: ["language_eng"])%list))
  = inr 2 /\
  _trust_rank_value (JList (map JStr ["language_eng"; "show_social_rank"]))
  = inr 0.
Proof.
  destruct trust_rank_value_reverse_scan as (_ & Hlast & _ & Hnone).
  split.
  - apply Hlast; [reflexivity|].
    intros u [<-|[]]. reflexivity.
  - apply Hnone. intros u [<-|[<-|[]]]; reflexivity.
Defined.

(* ================================================================== *)
(** * Relations that every step of a computation respects *)
(* ================================================================== *)

#[export] Instance same_on_preorder {B} (f : State -> B)
  : Preorder (same_on f).
Proof. split; unfold same_on; congruence. Qed.

Section Respects.

Context (R : State -> State -> Prop) `{HR : Preorder R}.

Lemma respects_ret {A} (a : A) : respects R (ret a).
Proof. intros s. apply pre_refl. Qed.

Lemma respects_raise {A} (e : Exn) : respects R (@raise A e).
Proof. intros s. apply pre_refl. Qed.

Lemma respects_sys_exit {A} : respects R (@sys_exit A).
Proof. intros s. apply pre_refl. Qed.

Lemma respects_diverge {A} : respects R (@diverge A).
Proof. intros s. apply pre_refl. Qed.

Lemma respects_gets {A} (f : State -> A) : respects R (gets f).
Proof. intros s. apply pre_refl. Qed.

Lemma respects_lift {A} (x : Py A) : respects R (lift x).
Proof. destruct x; intros s; apply pre_refl. Qed.

Lemma respects_modify (f : State -> State) :
  (forall s, R s (f s)) -> respects R (modify f).
Proof. intros H s. apply H. Qed.

Lemma respects_bind {A B} (m : M A) (f : A -> M B) :
  respects R m -> (forall a, respects R (f a)) -> respects R (bind m f).
Proof.
  intros Hm Hf s. unfold final, bind.
  specialize (Hm s). unfold final in Hm.
  destruct (m s) as [s1 [a|e| |]]; cbn [fst] in *; try assumption.
  eapply pre_trans; [eassumption|]. apply (Hf a s1).
Qed.

Lemma respects_try_except {A} (body : M A) (handler : Exn -> M A) :
  respects R body -> (forall e, respects R (handler e)) ->
  respects R (try_except body handler).
Proof.
  intros Hm Hf s. unfold final, try_except.
  specialize (Hm s). unfold final in Hm.
  destruct (body s) as [s1 [a|e| |]]; cbn [fst] in *; try assumption.
  eapply pre_trans; [eassumption|]. apply (Hf e s1).
Qed.

Lemma respects_when (b : bool) (m : M unit) :
  respects R m -> respects R (when b m).
Proof. destruct b; [auto|]. intros _. apply respects_ret. Qed.

Lemma respects_for_each {A} (xs : list A) (body : A -> M unit) :
  (forall x, respects R (body x)) -> respects R (for_each xs body).
Proof.
  intros H. induction xs as [|x xs IH]; cbn [for_each].
  - apply respects_ret.
  - apply respects_bind; auto.
Qed.

Context (cfg : Config) (env : Environment).

Lemma respects_fetch_pages fuel ep mk offset acc :
  (forall ps, respects R (_get cfg env ep ps)) ->
  respects R (fetch_pages cfg env fuel ep mk offset acc).
Proof.
  intros H. revert offset acc.
  induction fuel as [|fuel IH]; intros offset acc; cbn [fetch_pages].
  - apply respects_diverge.
  - apply respects_bind; [apply H|].
    intros page. destruct page; try apply respects_ret.
    destruct (truthy _); [|apply respects_ret].
    destruct (_ <? _); [apply respects_ret|apply IH].
Qed.

Lemma respects_resolve_worlds wids resolved :
  (forall wid, respects R (resolve_world cfg env wid)) ->
  respects R (resolve_worlds cfg env wids resolved).
Proof.
  intros H. revert resolved.
  induction wids as [|wid wids IH]; intros resolved; cbn [resolve_worlds].
  - apply respects_ret.
  - destruct (_ >=? _); [apply respects_ret|].
    apply respects_bind; auto.
Qed.

Lemma respects_refresh_worlds wids refreshed :
  (forall wid, respects R (refresh_world cfg env wid)) ->
  respects R (refresh_worlds cfg env wids refreshed).
Proof.
  intros H. revert refreshed.
  induction wids as [|wid wids IH]; intros refreshed; cbn [refresh_worlds].
  - apply respects_ret.
  - destruct (_ >=? _); [apply respects_ret|].
    apply respects_bind; auto.
Qed.

Lemma respects_friends_metrics friends counts :
  (forall f c, respects R (friend_metrics env f c)) ->
  respects R (friends_metrics env friends counts).
Proof.
  intros H. revert counts.
  induction friends as [|f friends IH]; intros counts;
    cbn [friends_metrics].
  - apply respects_ret.
  - apply respects_bind; auto.
Qed.

Lemma respects_fetch_favorites ftypes all_favs :
  (forall ps, respects R (_get cfg env "/favorites" ps)) ->
  respects R (fetch_favorites cfg env ftypes all_favs).
Proof.
  intros H. revert all_favs.
  induction ftypes as [|t ftypes IH]; intros all_favs;
    cbn [fetch_favorites].
  - apply respects_ret.
  - apply respects_bind; [|auto].
    apply respects_fetch_pages. assumption.
Qed.

Lemma respects_main_loop turns :
  respects R (main_iteration cfg env) ->
  respects R (main_loop cfg env turns).
Proof.
  intros H. induction turns as [|n IH]; cbn [main_loop].
  - apply respects_ret.
  - apply respects_bind; auto.
Qed.

End Respects.

Create HintDb respects.

(** One step of the proof that a computation respects a relation: the
    computation is taken apart along its binds and branches; [leaf] closes
    what is left at a state update. *)
Ltac use_respects lem :=
  apply lem; [typeclasses eauto|..]; intros.

Ltac respects_step leaf :=
  lazymatch goal with
  | |- respects _ (bind _ _) => use_respects @respects_bind
  | |- respects _ (ret _) => use_respects @respects_ret
  | |- respects _ (raise _) => use_respects @respects_raise
  | |- respects _ sys_exit => use_respects @respects_sys_exit
  | |- respects _ diverge => use_respects @respects_diverge
  | |- respects _ (gets _) => use_respects @respects_gets
  | |- respects _ (lift _) => use_respects @respects_lift
  | |- respects _ (when _ _) => use_respects @respects_when
  | |- respects _ (try_except _ _) => use_respects @respects_try_except
  | |- respects _ (for_each _ _) => use_respects @respects_for_each
  | |- respects _ (modify _) => apply respects_modify; intros; leaf
  | |- respects _ (fetch_pages _ _ _ _ _ _ _) =>
      use_respects @respects_fetch_pages
  | |- respects _ (resolve_worlds _ _ _ _) =>
      use_respects @respects_resolve_worlds
  | |- respects _ (refresh_worlds _ _ _ _) =>
      use_respects @respects_refresh_worlds
  | |- respects _ (friends_metrics _ _ _) =>
      use_respects @respects_friends_metrics
  | |- respects _ (fetch_favorites _ _ _ _) =>
      use_respects @respects_fetch_favorites
  | |- respects _ (main_loop _ _ _) => use_respects @respects_main_loop
  | |- respects _ (if ?b then _ else _) => destruct b
  | |- respects _ (match ?x with _ => _ end) => destruct x
  | |- respects _ ?m =>
      let h := lazymatch m with
               | ?f _ _ _ _ _ _ => f
               | ?f _ _ _ _ _ => f
               | ?f _ _ _ _ => f
               | ?f _ _ _ => f
               | ?f _ _ => f
               | ?f _ => f
               | ?f => f
               end in
      unfold h
  end.

Ltac respects_with leaf :=
  repeat first [ assumption
               | solve [auto with respects nocore]
               | respects_step leaf ].

(* ================================================================== *)
(** * Running a computation *)
(* ================================================================== *)

Section Running.

Lemma bind_run {A B} (m : M A) (f : A -> M B) s s' a :
  m s = (s', Ret a) -> bind m f s = f a s'.
Proof. intros H. unfold bind. rewrite H. reflexivity. Qed.

Lemma bind_stop {A B} (m : M A) (f : A -> M B) s :
  (forall a, snd (m s) <> Ret a) ->
  final (bind m f) s = final m s.
Proof.
  unfold final, bind. destruct (m s) as [s1 [a|e| |]]; cbn; intros H;
    try reflexivity.
  exfalso. apply (H a). reflexivity.
Qed.

Lemma final_bind {A B} (m : M A) (f : A -> M B) s :
  final (bind m f) s =
  match snd (m s) with
  | Ret a => final (f a) (final m s)
  | _ => final m s
  end.
Proof.
  unfold final, bind. destruct (m s) as [s1 [a|e| |]]; reflexivity.
Qed.

Lemma outcome_bind {A B} (m : M A) (f : A -> M B) s :
  snd (bind m f s) =
  match snd (m s) with
  | Ret a => snd (f a (final m s))
  | Exc e => Exc e
  | SystemExit => SystemExit
  | Diverge => Diverge
  end.
Proof.
  unfold final, bind. destruct (m s) as [s1 [a|e| |]]; reflexivity.
Qed.

Lemma bind_ret_inv {A B} (m : M A) (f : A -> M B) s s' b :
  bind m f s = (s', Ret b) ->
  exists a s1, m s = (s1, Ret a) /\ f a s1 = (s', Ret b).
Proof.
  unfold bind. destruct (m s) as [s1 [a|e| |]]; intros H;
    try discriminate.
  exists a, s1. auto.
Qed.

Lemma final_bind_gets {A B} (f : State -> A) (k : A -> M B) s :
  final (bind (gets f) k) s = final (k (f s)) s.
Proof. reflexivity. Qed.

Lemma bind_lift_run {A B} (x : Py A) (k : A -> M B) s :
  bind (lift x) k s = match x with inl e => (s, Exc e) | inr a => k a s end.
Proof. destruct x; reflexivity. Qed.

Lemma bind_gets_run {A B} (f : State -> A) (k : A -> M B) s :
  bind (gets f) k s = k (f s) s.
Proof. reflexivity. Qed.

Lemma bind_modify_run {B} (g : State -> State) (k : unit -> M B) s :
  bind (modify g) k s = k tt (g s).
Proof. reflexivity. Qed.

Lemma run_eq {A} (m : M A) s : m s = (final m s, snd (m s)).
Proof. unfold final. destruct (m s); reflexivity. Qed.

Lemma lift_run {A} (x : Py A) (a : A) s : x = inr a -> lift x s = (s, Ret a).
Proof. intros ->. reflexivity. Qed.

Lemma bind_ret_run {A B} (a : A) (k : A -> M B) s : bind (ret a) k s = k a s.
Proof. reflexivity. Qed.

Lemma bind_bind_run {A B C} (m : M A) (f : A -> M B) (g : B -> M C) s :
  bind (bind m f) g s = bind m (fun a => bind (f a) g) s.
Proof. unfold bind. destruct (m s) as [s1 [a|e| |]]; reflexivity. Qed.



Lemma rev_since_nil s s' :
  log s = [] -> since s s' = List.rev (log s').
Proof.
  intros H. unfold since. rewrite H. cbn [List.length].
  rewrite Nat.sub_0_r, firstn_all. reflexivity.
Qed.

End Running.

(* ================================================================== *)
(** * The transport *)
(* ================================================================== *)

#[export] Instance keeps_throttle_preorder cfg : Preorder (keeps_throttle cfg).
Proof. split; unfold keeps_throttle; auto. Qed.

Section Transport.

Context (cfg : Config) (env : Environment).

Lemma _throttle_run (s : State) :
  _throttle cfg s = (throttled cfg s, Ret tt).
Proof.
  unfold _throttle, throttled, bind, time, gets, when, sleep, modify.
  cbn zeta.
  destruct (now s - _last_request_time s <? REQUEST_DELAY cfg) eqn:E.
  - apply Z.ltb_lt in E.
    destruct (REQUEST_DELAY cfg - (now s - _last_request_time s) <? 0) eqn:F.
    + apply Z.ltb_lt in F. lia.
    + reflexivity.
  - reflexivity.
Qed.

Lemma throttled_exchanges s : exchanges (throttled cfg s) = exchanges s.
Proof. unfold throttled. cbn zeta. destruct (_ <? _); reflexivity. Qed.

Lemma throttled_now s :
  now (throttled cfg s) =
  Z.max (now s) (_last_request_time s + REQUEST_DELAY cfg).
Proof.
  unfold throttled. cbn zeta.
  destruct (Z.ltb_spec (now s - _last_request_time s) (REQUEST_DELAY cfg));
    cbn; lia.
Qed.

Lemma throttled_last s :
  _last_request_time (throttled cfg s) = now (throttled cfg s).
Proof. unfold throttled. cbn zeta. destruct (_ <? _); reflexivity. Qed.

Lemma throttled_requests s :
  requests_of (log (throttled cfg s)) = requests_of (log s).
Proof. unfold throttled. cbn zeta. destruct (_ <? _); reflexivity. Qed.

(** [_get] never raises: it returns the body of a 200 response and [None]
    otherwise. *)
Lemma _get_returns (ep : string) (ps : list (string * string)) (s : State) :
  snd (_get cfg env ep ps s) =
  Ret (reply_json (upstream env (exchanges s)
                     {| endpoint := ep; params := ps |})).
Proof.
  unfold _get. rewrite (bind_run _ _ _ _ _ (_throttle_run s)).
  cbv [bind time gets session_get modify ret observe_duration counter_add
       sleep reply_json].
  rewrite throttled_exchanges.
  destruct (upstream env (exchanges s) _) as [status body|]; [|reflexivity].
  destruct (status =? 200); [reflexivity|].
  destruct (status =? 401); [reflexivity|].
  destruct (status =? 429); reflexivity.
Qed.

Lemma _get_run (ep : string) (ps : list (string * string)) (s : State) :
  _get cfg env ep ps s =
  (final (_get cfg env ep ps) s,
   Ret (reply_json (upstream env (exchanges s)
                      {| endpoint := ep; params := ps |}))).
Proof. rewrite <- _get_returns. apply run_eq. Qed.

(** The request of a [_get] is issued when the throttle lets go, and that
    time is what [_last_request_time] holds afterwards. *)
Lemma _get_effect (ep : string) (ps : list (string * string)) (s : State) :
  let req := {| endpoint := ep; params := ps |} in
  let issued := Z.max (now s) (_last_request_time s + REQUEST_DELAY cfg) in
  let s' := final (_get cfg env ep ps) s in
  requests_of (log s') =
    (issued, issued + Z.of_nat (latency env (exchanges s) req))
      :: requests_of (log s)
  /\ _last_request_time s' = issued
  /\ exchanges s' = S (exchanges s).
Proof.
  cbn zeta. unfold final, _get.
  rewrite (bind_run _ _ _ _ _ (_throttle_run s)).
  cbv [bind time gets session_get modify ret observe_duration counter_add
       sleep].
  rewrite throttled_exchanges.
  pose proof (throttled_now s) as Hn.
  pose proof (throttled_last s) as Hl.
  pose proof (throttled_requests s) as Hr.
  destruct (upstream env (exchanges s) _) as [status body|].
  - destruct (status =? 200); [|destruct (status =? 401);
                                 [|destruct (status =? 429)]];
      cbn; rewrite ?Hr, ?Hl, ?Hn, ?throttled_exchanges; auto.
  - cbn. rewrite ?Hr, ?Hl, ?Hn, ?throttled_exchanges; auto.
Qed.

Lemma _get_keeps_throttle ep ps :
  respects (keeps_throttle cfg) (_get cfg env ep ps).
Proof.
  intros s [Hsp Hlast].
  destruct (_get_effect ep ps s) as (Hr & Hl & _).
  unfold throttle_invariant. rewrite Hr, Hl. cbn [fst]. split.
  - destruct (requests_of (log s)) as [|r rest] eqn:E.
    + exact I.
    + cbn [spaced_desc]. split; [|assumption]. cbn [fst]. lia.
  - lia.
Qed.

End Transport.

#[export] Hint Resolve _get_keeps_throttle : respects.

Ltac throttle_leaf :=
  let H := fresh in
  intros H; exact H.

Section Spacing.

Context (cfg : Config) (env : Environment).

Lemma main_keeps_throttle turns :
  respects (keeps_throttle cfg) (main cfg env turns).
Proof. respects_with throttle_leaf. Qed.

Lemma issue_spaced_snoc d l r :
  issue_spaced d l ->
  match List.rev l with
  | r1 :: _ => fst r1 + d <= fst r
  | [] => True
  end ->
  issue_spaced d (l ++ [r])%list.
Proof.
  induction l as [|a l IH]; intros Hl Hlast; [exact I|].
  destruct l as [|b l].
  - cbn in *. auto.
  - change (issue_spaced d (a :: ((b :: l) ++ [r])%list)).
    cbn [app]. cbn [issue_spaced] in Hl |- *. destruct Hl as [Hab Hl].
    split; [assumption|]. apply IH; [assumption|].
    cbn [List.rev] in Hlast |- *.
    destruct (List.rev l ++ [b])%list eqn:E.
    + destruct (List.rev l); discriminate.
    + cbn in Hlast. assumption.
Qed.

Lemma spaced_desc_issue_spaced d rs :
  spaced_desc d rs -> issue_spaced d (List.rev rs).
Proof.
  induction rs as [|r2 rs IH]; intros H; [exact I|].
  cbn [List.rev]. apply issue_spaced_snoc.
  - apply IH. destruct rs; [exact I|]. apply H.
  - rewrite rev_involutive. destruct rs; [exact I|]. apply H.
Qed.

Lemma requests_of_rev l : requests_of (List.rev l) = List.rev (requests_of l).
Proof.
  assert (Happ : forall a b,
             requests_of (a ++ b) = (requests_of a ++ requests_of b)%list).
  { induction a as [|[] a IH]; intros b; cbn; rewrite ?IH; reflexivity. }
  induction l as [|e l IH]; [reflexivity|].
  cbn [List.rev]. rewrite Happ, IH. destruct e; cbn; auto using app_nil_r.
Qed.

End Spacing.

(** C5, as the code has it.  Before a request [_throttle] takes the time
    elapsed since [_last_request_time] and, when it is below
    [REQUEST_DELAY], sleeps for exactly the remainder; but the time it then
    stores in [_last_request_time] is the time at which the request is
    issued, not the time at which the request completes.  So the interval is
    kept between the issue of one request and the issue of the next: in
    every run of [main], each request is issued at least [REQUEST_DELAY]
    after the previous one was issued. *)
Theorem throttle_spaces_issue_times (cfg : Config) (env : Environment) :
  (forall s,
     let elapsed := now s - _last_request_time s in
     let s' := final (_throttle cfg) s in
     snd (_throttle cfg s) = Ret tt /\
     log s' = ((if elapsed <? REQUEST_DELAY cfg
                then [EvSleep (REQUEST_DELAY cfg - elapsed)]
                else []) ++ log s)%list /\
     now s' = Z.max (now s) (_last_request_time s + REQUEST_DELAY cfg) /\
     _last_request_time s' = now s')
  /\
  (forall ep ps s,
     let issued := Z.max (now s) (_last_request_time s + REQUEST_DELAY cfg) in
     let req := {| endpoint := ep; params := ps |} in
     let s' := final (_get cfg env ep ps) s in
     requests_of (log s') =
       (issued, issued + Z.of_nat (latency env (exchanges s) req))
         :: requests_of (log s) /\
     _last_request_time s' = issued)
  /\
  (forall turns t0,
     issue_spaced (REQUEST_DELAY cfg)
       (requests_of
          (List.rev (log (final (main cfg env turns) (initial_state t0)))))).
Proof.
  split; [|split].
  - intros s. cbn zeta. unfold final. rewrite _throttle_run. cbn [fst snd].
    split; [reflexivity|]. split.
    + unfold throttled. cbn zeta. destruct (_ <? _); reflexivity.
    + split; [apply throttled_now|apply throttled_last].
  - intros ep ps s. cbn zeta.
    destruct (_get_effect cfg env ep ps s) as (Hr & Hl & _). auto.
  - intros turns t0. rewrite requests_of_rev.
    apply spaced_desc_issue_spaced.
    apply (main_keeps_throttle cfg env turns (initial_state t0)).
    split; exact I.
Qed.

(** C5, as stated, fails: with the default delay of 1.5 s and an upstream
    that answers after 100 ms, the second request of the process is issued
    1.4 s after the first one completed. *)
Lemma requests_closer_than_delay_after_completion :
  ~ completion_spaced (REQUEST_DELAY default_config)
      (requests_of
         (List.rev
            (log (final (main default_config
                              (static_env api_two_friends 100) 1)
                        (initial_state 1000000))))).
Proof.
  vm_compute. intros [H _]. apply H. reflexivity.
Qed.

(* ================================================================== *)
(** * Dicts *)
(* ================================================================== *)

Section Dicts.

Context {V : Type}.

Lemma dict_get_set (k k' : string) (v : V) (d : Dict V) :
  dict_get k (dict_set k' v d) =
  if (k' =? k)%string then Some v else dict_get k d.
Proof.
  unfold dict_get. induction d as [|[k0 v0] d IH]; cbn [dict_set assoc].
  - reflexivity.
  - destruct (String.eqb_spec k0 k') as [->|Hne]; cbn [assoc].
    + destruct (k' =? k)%string; reflexivity.
    + rewrite IH. destruct (String.eqb_spec k0 k) as [->|]; [|reflexivity].
      destruct (String.eqb_spec k' k); congruence.
Qed.

Lemma dict_get_update (k k' : string) (f : V -> V) (d : Dict V) :
  dict_get k (dict_update k' f d) =
  if (k' =? k)%string then option_map f (dict_get k d) else dict_get k d.
Proof.
  unfold dict_get. induction d as [|[k0 v0] d IH]; cbn [dict_update assoc].
  - destruct (k' =? k)%string; reflexivity.
  - destruct (String.eqb_spec k0 k') as [->|Hne]; cbn [assoc].
    + destruct (k' =? k)%string; reflexivity.
    + rewrite IH. destruct (String.eqb_spec k0 k) as [->|]; [|reflexivity].
      destruct (String.eqb_spec k' k); congruence.
Qed.

Lemma dict_mem_get (k : string) (d : Dict V) :
  dict_mem k d = match dict_get k d with Some _ => true | None => false end.
Proof. reflexivity. Qed.

Lemma dict_mem_set (k k' : string) (v : V) (d : Dict V) :
  dict_mem k (dict_set k' v d) = (k' =? k)%string || dict_mem k d.
Proof.
  rewrite !dict_mem_get, dict_get_set. destruct (k' =? k)%string; reflexivity.
Qed.

Lemma dict_mem_update (k k' : string) (f : V -> V) (d : Dict V) :
  dict_mem k (dict_update k' f d) = dict_mem k d.
Proof.
  rewrite !dict_mem_get, dict_get_update.
  destruct (k' =? k)%string; [|reflexivity].
  destruct (dict_get k d); reflexivity.
Qed.

Lemma dict_mem_keys (k : string) (d : Dict V) :
  dict_mem k d = true <-> In k (dict_keys d).
Proof.
  unfold dict_mem, dict_keys.
  induction d as [|[k0 v0] d IH]; cbn [assoc map fst In].
  - split; [discriminate|tauto].
  - destruct (String.eqb_spec k0 k) as [->|Hne].
    + split; auto.
    + rewrite IH. split; [auto|]. intros [H|H]; [contradiction|assumption].
Qed.

Lemma dict_mem_false_keys (k : string) (d : Dict V) :
  dict_mem k d = false <-> ~ In k (dict_keys d).
Proof.
  rewrite <- dict_mem_keys. destruct (dict_mem k d); split; intros H;
    congruence || (exfalso; apply H; reflexivity).
Qed.


Lemma dict_keys_set (k : string) (v : V) (d : Dict V) :
  dict_keys (dict_set k v d) =
  if dict_mem k d then dict_keys d else (dict_keys d ++ [k])%list.
Proof.
  unfold dict_keys, dict_mem.
  induction d as [|[k0 v0] d IH]; cbn [assoc dict_set map fst app].
  - reflexivity.
  - destruct (String.eqb_spec k0 k) as [->|Hne]; cbn [map fst].
    + reflexivity.
    + rewrite IH. destruct (assoc k d); reflexivity.
Qed.

Lemma dict_keys_update (k : string) (f : V -> V) (d : Dict V) :
  dict_keys (dict_update k f d) = dict_keys d.
Proof.
  unfold dict_keys. induction d as [|[k0 v0] d IH]; cbn [dict_update map fst].
  - reflexivity.
  - destruct (k0 =? k)%string; cbn [map fst]; congruence.
Qed.

End Dicts.

Lemma str_in_tuple_In (x : string) (l : list string) :
  str_in_tuple x l = true <-> In x l.
Proof.
  unfold str_in_tuple. rewrite existsb_exists. split.
  - intros (y & Hy & E). apply String.eqb_eq in E. subst. assumption.
  - intros H. exists x. split; [assumption|apply String.eqb_refl].
Qed.

Lemma set_add_NoDup (x : string) (l : list string) :
  NoDup l -> NoDup (set_add x l).
Proof.
  intros H. unfold set_add. destruct (str_in_tuple x l) eqn:E; [assumption|].
  apply NoDup_app; [assumption|constructor; [tauto|constructor]|].
  intros y Hy [<-|[]]. apply str_in_tuple_In in Hy. congruence.
Qed.

Lemma set_add_In (x y : string) (l : list string) :
  In y (set_add x l) <-> y = x \/ In y l.
Proof.
  unfold set_add. destruct (str_in_tuple x l) eqn:E.
  - apply str_in_tuple_In in E. split; [auto|]. intros [->|]; assumption.
  - rewrite in_app_iff. cbn. split; intros H; intuition auto.
Qed.

(* ================================================================== *)
(** * Cache entries are never removed or rebound *)
(* ================================================================== *)

#[export] Instance keeps_objects_preorder : Preorder keeps_objects.
Proof.
  split.
  - intros s. split; intros k id r H; exists r; assumption.
  - intros a b c [Hw1 Hi1] [Hw2 Hi2]. split; intros k id r H.
    + destruct (Hw1 _ _ _ H) as [r1 H1]. apply (Hw2 _ _ _ H1).
    + destruct (Hi1 _ _ _ H) as [r1 H1]. apply (Hi2 _ _ _ H1).
Qed.

Section KeepsObjects.

Lemma keeps_same_caches s s' :
  _world_cache s' = _world_cache s ->
  _instance_cache s' = _instance_cache s ->
  keeps_objects s s'.
Proof.
  intros Hw Hi. split; intros k id r H; exists r; congruence.
Qed.

Lemma keeps_world_update wid g s :
  (forall e, fst (g e) = fst e) ->
  keeps_objects s
    (set_world_cache (dict_update wid g (_world_cache s)) s).
Proof.
  intros Hg. split; intros k id r0 H; cbn.
  - rewrite dict_get_update, H.
    destruct (wid =? k)%string; cbn; [|eauto].
    specialize (Hg (id, r0)). destruct (g (id, r0)) as [id' r'].
    cbn in Hg. subst. eauto.
  - eauto.
Qed.

Lemma keeps_instance_update key g s :
  (forall e, fst (g e) = fst e) ->
  keeps_objects s
    (set_instance_cache (dict_update key g (_instance_cache s)) s).
Proof.
  intros Hg. split; intros k id r0 H; cbn.
  - eauto.
  - rewrite dict_get_update, H.
    destruct (key =? k)%string; cbn; [|eauto].
    specialize (Hg (id, r0)). destruct (g (id, r0)) as [id' r'].
    cbn in Hg. subst. eauto.
Qed.

Lemma keeps_bind_world wid r s :
  dict_mem wid (_world_cache s) = false ->
  keeps_objects s (bind_world wid r s).
Proof.
  intros Habs. split; intros k id r0 H; cbn.
  - rewrite dict_get_set.
    destruct (String.eqb_spec wid k) as [->|]; [|eauto].
    rewrite dict_mem_get, H in Habs. discriminate.
  - eauto.
Qed.

Lemma keeps_bind_instance key r s :
  dict_mem key (_instance_cache s) = false ->
  keeps_objects s (bind_instance key r s).
Proof.
  intros Habs. split; intros k id r0 H; cbn.
  - eauto.
  - rewrite dict_get_set.
    destruct (String.eqb_spec key k) as [->|]; [|eauto].
    rewrite dict_mem_get, H in Habs. discriminate.
Qed.

End KeepsObjects.

Ltac same_leaf := unfold same_on; reflexivity.

Ltac keeps_leaf :=
  first [ apply keeps_same_caches; reflexivity
        | apply keeps_world_update; intros; reflexivity
        | apply keeps_instance_update; intros; reflexivity ].

Section Caches.

Context (cfg : Config) (env : Environment).

Lemma _get_same_world_cache ep ps :
  respects (same_on _world_cache) (_get cfg env ep ps).
Proof. respects_with same_leaf. Qed.

Lemma _get_same_instance_cache ep ps :
  respects (same_on _instance_cache) (_get cfg env ep ps).
Proof. respects_with same_leaf. Qed.


Lemma _get_keeps_objects ep ps :
  respects keeps_objects (_get cfg env ep ps).
Proof. respects_with keeps_leaf. Qed.

Lemma world_cache_assign_run wid r s :
  world_cache_assign wid r s = (bind_world wid r s, Ret tt).
Proof. reflexivity. Qed.

Lemma instance_cache_assign_run key r s :
  instance_cache_assign key r s = (bind_instance key r s, Ret tt).
Proof. reflexivity. Qed.

(** A turn of the world resolution loop stops after the lookup or binds
    [wid] to a new record. *)
Lemma resolve_world_cases wid s :
  let s1 := final (_get cfg env ("/worlds/" ++ wid) []) s in
  (final (resolve_world cfg env wid) s = s1 /\
   forall u, snd (resolve_world cfg env wid s) <> Ret u)
  \/
  (exists r, resolve_world cfg env wid s = (bind_world wid r s1, Ret tt)).
Proof.
  cbn zeta. set (s1 := final (_get cfg env ("/worlds/" ++ wid) []) s).
  unfold resolve_world, final.
  rewrite (bind_run _ _ _ _ _ (_get_run cfg env _ _ s)). fold s1.
  set (j := reply_json _).
  destruct (has_name j) as [e|[|]] eqn:Hn.
  - left. split; [reflexivity|]. intros u. discriminate.
  - cbn [lift]. rewrite (bind_run _ _ s1 s1 true) by reflexivity.
    destruct (world_of_json wid j) as [e|r] eqn:Hw.
    + left. split; [reflexivity|]. intros u. discriminate.
    + right. exists r. reflexivity.
  - right. exists (world_placeholder wid). reflexivity.
Qed.

Lemma resolve_world_step wid s :
  dict_mem wid (_world_cache s) = false ->
  let s' := final (resolve_world cfg env wid) s in
  keeps_objects s s' /\
  (forall w, w <> wid ->
     dict_mem w (_world_cache s') = dict_mem w (_world_cache s)).
Proof.
  intros Habs. cbn zeta.
  pose proof (_get_same_world_cache ("/worlds/" ++ wid) [] s) as Hc.
  pose proof (_get_keeps_objects ("/worlds/" ++ wid) [] s) as Hk.
  unfold same_on in Hc.
  destruct (resolve_world_cases wid s) as [[-> _]|[r Hr]].
  - split; [assumption|]. intros. congruence.
  - assert (Hf : final (resolve_world cfg env wid) s =
                 bind_world wid r
                   (final (_get cfg env ("/worlds/" ++ wid) []) s))
      by (unfold final at 1; rewrite Hr; reflexivity).
    rewrite Hf. split.
    + eapply pre_trans; [exact Hk|]. apply keeps_bind_world. congruence.
    + intros w Hw. unfold bind_world, set_world_cache, bump_next_id.
      cbn [_world_cache]. rewrite dict_mem_set, <- Hc.
      destruct (String.eqb_spec wid w); [congruence|reflexivity].
Qed.

Lemma resolve_worlds_keeps_objects wids :
  NoDup wids ->
  forall resolved s,
    (forall w, In w wids -> dict_mem w (_world_cache s) = false) ->
    keeps_objects s (final (resolve_worlds cfg env wids resolved) s).
Proof.
  induction 1 as [|wid wids Hnotin Hnd IH]; intros resolved s Habs;
    cbn [resolve_worlds].
  - apply pre_refl.
  - destruct (_ >=? _); [apply pre_refl|].
    destruct (resolve_world_step wid s) as [Hk Hother];
      [apply Habs; left; reflexivity|].
    rewrite final_bind.
    destruct (snd (resolve_world cfg env wid s)); try assumption.
    eapply pre_trans; [exact Hk|]. apply IH.
    intros w Hw. rewrite Hother; [apply Habs; right; assumption|].
    intros ->. contradiction.
Qed.

Lemma scan_unknown_worlds_fresh cache friends :
  forall acc ids,
    scan_unknown_worlds cache friends acc = inr ids ->
    NoDup acc ->
    (forall w, In w acc -> dict_mem w cache = false) ->
    NoDup ids /\ (forall w, In w ids -> dict_mem w cache = false).
Proof.
  induction friends as [|f friends IH]; intros acc ids H Hnd Habs.
  - cbn in H. injection H as <-. auto.
  - cbn [scan_unknown_worlds] in H.
    destruct (py_get f "location" (JStr "")) as [e|loc]; [discriminate|].
    cbn [py_bind] in H.
    destruct (world_id_of_location loc) as [e|[wid|]]; [discriminate| |];
      cbn [py_bind] in H.
    + destruct (dict_mem wid cache) eqn:E.
      * eapply IH; eassumption.
      * eapply IH; [eassumption|apply set_add_NoDup; assumption|].
        intros w Hw. apply set_add_In in Hw as [->|Hw]; auto.
    + eapply IH; eassumption.
Qed.

Lemma resolve_unknown_worlds_keeps_objects friends :
  respects keeps_objects (resolve_unknown_worlds cfg env friends).
Proof.
  intros s. unfold resolve_unknown_worlds, final.
  cbv [bind gets]. 
  destruct (scan_unknown_worlds (_world_cache s) friends []) as [e|ids] eqn:E.
  - cbn. apply pre_refl.
  - cbn [lift ret].
    destruct (scan_unknown_worlds_fresh _ _ _ _ E) as [Hnd Habs];
      [constructor|intros w []|].
    pose proof (set_order_perm env ids) as Hp.
    apply (resolve_worlds_keeps_objects (set_order env ids)).
    + eapply Permutation_NoDup; [apply Permutation_sym; exact Hp|assumption].
    + intros w Hw. apply Habs. eapply Permutation_in; eassumption.
Qed.

(** A turn of the instance resolution loop leaves the caches alone or
    binds [key] to a new record. *)
Lemma resolve_instance_cases key wid iid s :
  let s1 := final (_get cfg env ("/instances/" ++ wid ++ ":" ++ iid) []) s in
  final (resolve_instance cfg env (key, (wid, iid))) s = s1
  \/
  (exists r,
     resolve_instance cfg env (key, (wid, iid)) s
     = (bind_instance key r s1, Ret tt)).
Proof.
  cbn zeta.
  set (s1 := final (_get cfg env ("/instances/" ++ wid ++ ":" ++ iid) []) s).
  unfold resolve_instance, final.
  rewrite (bind_run _ _ _ _ _ (_get_run cfg env _ _ s)). fold s1.
  set (j := reply_json _).
  destruct (truthy j); [|left; reflexivity].
  cbv [bind gets].
  destruct (instance_of_json wid iid (cached_world_name wid (_world_cache s1))
                             j) as [e|r].
  - left. reflexivity.
  - right. exists r. reflexivity.
Qed.

Lemma resolve_instance_other key wid iid s k :
  k <> key ->
  dict_mem k
    (_instance_cache (final (resolve_instance cfg env (key, (wid, iid))) s))
  = dict_mem k (_instance_cache s).
Proof.
  intros Hne.
  pose proof (_get_same_instance_cache
                ("/instances/" ++ wid ++ ":" ++ iid) [] s) as Hc.
  unfold same_on in Hc.
  destruct (resolve_instance_cases key wid iid s) as [->|[r Hr]].
  - congruence.
  - unfold final at 1. rewrite Hr. cbn [fst].
    unfold bind_instance, set_instance_cache, bump_next_id.
    cbn [_instance_cache]. rewrite dict_mem_set, <- Hc.
    destruct (String.eqb_spec key k); [congruence|reflexivity].
Qed.

Lemma resolve_instance_step key wid iid s :
  dict_mem key (_instance_cache s) = false ->
  let s' := final (resolve_instance cfg env (key, (wid, iid))) s in
  keeps_objects s s' /\
  (forall k, k <> key ->
     dict_mem k (_instance_cache s') = dict_mem k (_instance_cache s)).
Proof.
  intros Habs. cbn zeta. split; [|intros; apply resolve_instance_other;
                                  assumption].
  pose proof (_get_same_instance_cache
                ("/instances/" ++ wid ++ ":" ++ iid) [] s) as Hc.
  pose proof (_get_keeps_objects
                ("/instances/" ++ wid ++ ":" ++ iid) [] s) as Hk.
  unfold same_on in Hc.
  destruct (resolve_instance_cases key wid iid s) as [->|[r Hr]].
  - assumption.
  - unfold final at 1. rewrite Hr. cbn [fst].
    eapply pre_trans; [exact Hk|]. apply keeps_bind_instance. congruence.
Qed.



Lemma resolve_instances_keeps_objects (items : Dict (string * string)) :
  NoDup (dict_keys items) ->
  forall s,
    (forall k, In k (dict_keys items) ->
       dict_mem k (_instance_cache s) = false) ->
    keeps_objects s (final (for_each items (resolve_instance cfg env)) s).
Proof.
  induction items as [|[key [wid iid]] items IH]; intros Hnd s Habs;
    cbn [for_each].
  - apply pre_refl.
  - cbn [dict_keys map fst] in Hnd, Habs. inversion Hnd as [|? ? Hnotin Hnd'].
    subst.
    destruct (resolve_instance_step key wid iid s) as [Hk Hother];
      [apply Habs; left; reflexivity|].
    rewrite final_bind.
    destruct (snd (resolve_instance cfg env (key, (wid, iid)) s));
      try assumption.
    eapply pre_trans; [exact Hk|]. apply IH; [assumption|].
    intros k Hin. rewrite Hother; [apply Habs; right; assumption|].
    intros ->. contradiction.
Qed.

Lemma scan_unknown_instances_fresh cache friends :
  forall acc items,
    scan_unknown_instances cache friends acc = inr items ->
    NoDup (dict_keys acc) ->
    (forall k, In k (dict_keys acc) -> dict_mem k cache = false) ->
    (forall k w i, In (k, (w, i)) acc -> k = w ++ ":" ++ i) ->
    NoDup (dict_keys items) /\
    (forall k, In k (dict_keys items) -> dict_mem k cache = false) /\
    (forall k w i, In (k, (w, i)) items -> k = w ++ ":" ++ i).
Proof.
  induction friends as [|f friends IH]; intros acc items H Hnd Habs Hkey.
  - cbn in H. injection H as <-. auto.
  - cbn [scan_unknown_instances] in H.
    destruct (py_get f "location" (JStr "")) as [e|loc]; [discriminate|].
    cbn [py_bind] in H.
    destruct (instance_of_location loc) as [e|[[wid iid]|]];
      [discriminate| |]; cbn [py_bind] in H.
    + destruct (dict_mem (wid ++ ":" ++ iid) cache) eqn:E.
      * eapply IH; eassumption.
      * eapply IH; [eassumption| | |].
        -- rewrite dict_keys_set.
           destruct (dict_mem (wid ++ ":" ++ iid) acc) eqn:F;
             [assumption|].
           apply NoDup_app; [assumption|constructor; [tauto|constructor]|].
           intros y Hy [<-|[]]. apply dict_mem_keys in Hy. congruence.
        -- intros k Hk. rewrite dict_keys_set in Hk.
           destruct (dict_mem (wid ++ ":" ++ iid) acc); [auto|].
           apply in_app_iff in Hk as [Hk|[<-|[]]]; auto.
        -- intros k w i Hin.
           assert (Hcases : In (k, (w, i)) acc \/
                            (k, (w, i)) = (wid ++ ":" ++ iid, (wid, iid))).
           { clear - Hin. induction acc as [|[k0 v0] acc IHacc];
               cbn [dict_set] in Hin.
             - destruct Hin as [Hin|[]]. right. congruence.
             - destruct (k0 =? wid ++ ":" ++ iid)%string.
               + destruct Hin as [Hin|Hin]; [right; congruence|].
                 left. right. assumption.
               + destruct Hin as [Hin|Hin]; [left; left; assumption|].
                 destruct (IHacc Hin); [left; right; assumption|right;
                                                         assumption]. }
           destruct Hcases as [Hin'|Heq]; [eauto|].
           injection Heq as -> -> ->. reflexivity.
    + eapply IH; eassumption.
Qed.

Lemma NoDup_firstn {A} (n : nat) (l : list A) : NoDup l -> NoDup (firstn n l).
Proof.
  intros H. rewrite <- (firstn_skipn n l) in H.
  apply NoDup_app_remove_r in H. assumption.
Qed.

Lemma dict_keys_firstn {V} (n : nat) (d : Dict V) :
  dict_keys (firstn n d) = firstn n (dict_keys d).
Proof. unfold dict_keys. symmetry. apply firstn_map. Qed.

Lemma In_firstn {A} (n : nat) (l : list A) (x : A) :
  In x (firstn n l) -> In x l.
Proof.
  intros H. rewrite <- (firstn_skipn n l). apply in_app_iff. auto.
Qed.

Lemma resolve_unknown_instances_keeps_objects friends :
  respects keeps_objects (resolve_unknown_instances cfg env friends).
Proof.
  intros s. unfold resolve_unknown_instances, final.
  cbv [bind gets].
  destruct (scan_unknown_instances (_instance_cache s) friends [])
    as [e|items] eqn:E.
  - cbn. apply pre_refl.
  - cbn [lift ret].
    destruct (scan_unknown_instances_fresh _ _ _ _ E) as (Hnd & Habs & _);
      [constructor|intros k []|intros k w i []|].
    apply (resolve_instances_keeps_objects (firstn 20 items)).
    + rewrite dict_keys_firstn. apply NoDup_firstn. assumption.
    + intros k Hk. rewrite dict_keys_firstn in Hk.
      apply Habs. eapply In_firstn. eassumption.
Qed.

End Caches.

#[export] Hint Resolve resolve_unknown_worlds_keeps_objects
  resolve_unknown_instances_keeps_objects : respects.

Section CachesKept.

Context (cfg : Config) (env : Environment).

Lemma main_keeps_objects turns :
  respects keeps_objects (main cfg env turns).
Proof. respects_with keeps_leaf. Qed.

Lemma scrape_all_keeps_objects n :
  respects keeps_objects (scrape_all cfg env n).
Proof. respects_with keeps_leaf. Qed.

End CachesKept.

(** C9.  A key of the world cache or of the instance cache stays in that
    cache, bound to the same dict object, whatever runs afterwards: every
    collector, a whole scrape cycle and any number of turns of the main
    loop only add keys or change the fields of the objects already there.
    This holds from every state and for every outcome, an exception or a
    pagination that does not end included. *)
Theorem cache_entries_never_removed (cfg : Config) (env : Environment) :
  (forall turns s, keeps_objects s (final (main cfg env turns) s)) /\
  (forall turns s, keeps_objects s (final (main_loop cfg env turns) s)) /\
  (forall n s, keeps_objects s (final (scrape_all cfg env n) s)) /\
  (forall s, keeps_objects s (final (collect_platform cfg env) s)) /\
  (forall s, keeps_objects s (final (collect_current_user cfg env) s)) /\
  (forall s, keeps_objects s (final (collect_friends_online cfg env) s)) /\
  (forall s, keeps_objects s (final (collect_world_metrics cfg env) s)) /\
  (forall s, keeps_objects s (final (collect_instance_metrics cfg env) s)) /\
  (forall s, keeps_objects s (final (collect_friends_offline cfg env) s)) /\
  (forall s, keeps_objects s (final (collect_favorites cfg env) s)).
Proof.
  repeat match goal with |- _ /\ _ => split end; intros;
    match goal with
    | |- keeps_objects ?s (final ?m ?s) =>
        revert s; change (respects keeps_objects m)
    end;
    respects_with keeps_leaf.
Qed.

(* ================================================================== *)
(** * The world resolution loop *)
(* ================================================================== *)

Section FinalBind.

Lemma final_bind_same {A B C} (f : State -> C) (m : M A) (k : A -> M B) s :
  (forall a, respects (same_on f) (k a)) ->
  f (final (bind m k) s) = f (final m s).
Proof.
  intros H. rewrite final_bind. destruct (snd (m s)); try reflexivity.
  symmetry. apply (H a).
Qed.

Lemma final_bind_before {A B C} (f : State -> C) (m : M A) (k : A -> M B)
  s s1 a :
  m s = (s1, Ret a) -> final (bind m k) s = final (k a) s1.
Proof. intros H. unfold final. rewrite (bind_run _ _ _ _ _ H). reflexivity. Qed.

End FinalBind.

Section WorldResolution.

Context (cfg : Config) (env : Environment).
Hypothesis Hwf : worlds_well_formed env.






Lemma fetch_online_friends_same_next_id :
  respects (same_on next_id) (fetch_online_friends cfg env).
Proof. respects_with same_leaf. Qed.



End WorldResolution.

Section LaterCycles.



End LaterCycles.





(* ================================================================== *)
(** * Failed lookups *)
(* ================================================================== *)

#[export] Instance stays_absent_preorder key : Preorder (stays_absent key).
Proof. split; unfold stays_absent; auto. Qed.


Section FailedLookups.

Context (cfg : Config) (env : Environment).






End FailedLookups.




(* ================================================================== *)
(** * The world refresh *)
(* ================================================================== *)

Section RefreshPlan.

Context (cfg : Config) (resp : string -> Json).

Lemma upd_idem k (r : WorldRec) (c : Dict (nat * WorldRec)) :
  dict_update k (fun e => (fst e, r)) (dict_update k (fun e => (fst e, r)) c)
  = dict_update k (fun e => (fst e, r)) c.
Proof.
  induction c as [|[k0 v0] c IH]; cbn [dict_update]; [reflexivity|].
  destruct (k0 =? k)%string eqn:E; cbn [dict_update]; rewrite E.
  - reflexivity.
  - rewrite IH. reflexivity.
Qed.

Lemma upd_comm k k' (r r' : WorldRec) (c : Dict (nat * WorldRec)) :
  k <> k' ->
  dict_update k (fun e => (fst e, r))
    (dict_update k' (fun e => (fst e, r')) c)
  = dict_update k' (fun e => (fst e, r'))
      (dict_update k (fun e => (fst e, r)) c).
Proof.
  intros Hne. induction c as [|[k0 v0] c IH]; cbn [dict_update];
    [reflexivity|].
  destruct (k0 =? k')%string eqn:E'; destruct (k0 =? k)%string eqn:E;
    cbn [dict_update]; rewrite ?E, ?E'; try reflexivity.
  - apply String.eqb_eq in E, E'. congruence.
  - rewrite IH. reflexivity.
Qed.

Lemma refresh_plan_keys wids :
  forall refreshed c,
    dict_keys (refresh_plan cfg resp wids refreshed c) = dict_keys c.
Proof.
  induction wids as [|w wids IH]; intros refreshed c; cbn [refresh_plan];
    [reflexivity|].
  destruct (_ >=? _); [reflexivity|].
  destruct (refresh_action w (resp w)) as [[r|]|]; [|apply IH|reflexivity].
  destruct (dict_mem w c); [|reflexivity].
  rewrite IH. apply dict_keys_update.
Qed.

Lemma dict_mem_same_keys {V} (k : string) (a b : Dict V) :
  dict_keys a = dict_keys b -> dict_mem k a = dict_mem k b.
Proof.
  intros H. destruct (dict_mem k b) eqn:E.
  - apply dict_mem_keys. rewrite H. apply dict_mem_keys. assumption.
  - apply dict_mem_false_keys. rewrite H. apply dict_mem_false_keys.
    assumption.
Qed.

Lemma refresh_plan_comm k r wids :
  refresh_action k (resp k) = Some (Some r) ->
  forall refreshed c,
    dict_update k (fun e => (fst e, r))
      (refresh_plan cfg resp wids refreshed c) =
    refresh_plan cfg resp wids refreshed
      (dict_update k (fun e => (fst e, r)) c).
Proof.
  intros Hk. induction wids as [|w wids IH]; intros refreshed c;
    cbn [refresh_plan]; [reflexivity|].
  destruct (_ >=? _); [reflexivity|].
  destruct (refresh_action w (resp w)) as [[r'|]|] eqn:Hw;
    [|apply IH|reflexivity].
  rewrite (dict_mem_update w k). destruct (dict_mem w c); [|reflexivity].
  rewrite IH. f_equal.
  destruct (String.eqb_spec k w) as [->|Hne].
  - assert (r' = r) by congruence. subst. reflexivity.
  - apply upd_comm. assumption.
Qed.

Lemma refresh_plan_idem wids :
  forall refreshed c,
    refresh_plan cfg resp wids refreshed
      (refresh_plan cfg resp wids refreshed c)
    = refresh_plan cfg resp wids refreshed c.
Proof.
  induction wids as [|w wids IH]; intros refreshed c; [reflexivity|].
  cbn [refresh_plan].
  destruct (_ >=? _) eqn:Hcap; [reflexivity|].
  destruct (refresh_action w (resp w)) as [[r|]|] eqn:Hw;
    [|apply IH|reflexivity].
  destruct (dict_mem w c) eqn:Hmem; [|rewrite Hmem; reflexivity].
  rewrite (dict_mem_same_keys w _ c)
    by (rewrite refresh_plan_keys; apply dict_keys_update).
  rewrite Hmem.
  rewrite (refresh_plan_comm w r wids Hw), upd_idem. apply IH.
Qed.

End RefreshPlan.

Section WorldRefresh.

Context (cfg : Config) (env : Environment).
Hypothesis Hsame : upstream_unchanged env.

(** The world cache after one turn of the refresh loop. *)
Lemma refresh_world_effect wid s :
  let c := _world_cache s in
  match refresh_action wid (world_answer env wid) with
  | None =>
      _world_cache (final (refresh_world cfg env wid) s) = c /\
      forall u, snd (refresh_world cfg env wid s) <> Ret u
  | Some None =>
      _world_cache (final (refresh_world cfg env wid) s) = c /\
      snd (refresh_world cfg env wid s) = Ret tt
  | Some (Some r) =>
      if dict_mem wid c then
        _world_cache (final (refresh_world cfg env wid) s) =
          dict_update wid (fun e => (fst e, r)) c /\
        snd (refresh_world cfg env wid s) = Ret tt
      else
        _world_cache (final (refresh_world cfg env wid) s) = c /\
        forall u, snd (refresh_world cfg env wid s) <> Ret u
  end.
Proof.
  cbn zeta.
  pose proof (_get_same_world_cache cfg env ("/worlds/" ++ wid) [] s) as Hc.
  unfold same_on in Hc.
  set (s1 := final (_get cfg env ("/worlds/" ++ wid) []) s) in *.
  unfold refresh_action, world_answer, final, refresh_world.
  rewrite (bind_run _ _ _ _ _ (_get_run cfg env _ _ s)). fold s1.
  change {| endpoint := "/worlds/" ++ wid; params := [] |}
    with (world_request wid).
  rewrite (Hsame (exchanges s) O).
  set (j := reply_json _).
  destruct (has_name j) as [e|[|]].
  - cbn. split; [auto|]. intros u. discriminate.
  - cbn [lift]. rewrite (bind_run _ _ s1 s1 true) by reflexivity.
    destruct (world_of_json wid j) as [e|r].
    + cbn. split; [auto|]. intros u. discriminate.
    + cbn [lift]. rewrite (bind_run _ _ s1 s1 r) by reflexivity.
      unfold world_cache_update. cbv [bind gets].
      rewrite <- Hc. destruct (dict_mem wid (_world_cache s)).
      * cbn. rewrite <- Hc. auto.
      * cbn. split; [auto|]. intros u. discriminate.
  - cbn. auto.
Qed.

Lemma refresh_worlds_plan wids :
  forall refreshed s,
    _world_cache (final (refresh_worlds cfg env wids refreshed) s) =
    refresh_plan cfg (world_answer env) wids refreshed (_world_cache s).
Proof.
  induction wids as [|w wids IH]; intros refreshed s;
    cbn [refresh_worlds refresh_plan]; [reflexivity|].
  destruct (_ >=? _); [reflexivity|].
  pose proof (refresh_world_effect w s) as He. cbn zeta in He.
  rewrite final_bind.
  destruct (refresh_action w (world_answer env w)) as [[r|]|].
  - destruct (dict_mem w (_world_cache s)).
    + destruct He as [Hc Ho]. rewrite Ho, IH, Hc. reflexivity.
    + destruct He as [Hc Ho].
      destruct (snd (refresh_world cfg env w s)); try assumption.
      exfalso. apply (Ho a). reflexivity.
  - destruct He as [Hc Ho]. rewrite Ho, IH, Hc. reflexivity.
  - destruct He as [Hc Ho].
    destruct (snd (refresh_world cfg env w s)); try assumption.
    exfalso. apply (Ho a). reflexivity.
Qed.

Lemma push_world_same_world_cache entry :
  respects (same_on _world_cache) (push_world env entry).
Proof. respects_with same_leaf. Qed.

Lemma collect_world_metrics_plan s :
  _world_cache (final (collect_world_metrics cfg env) s) =
  refresh_plan cfg (world_answer env) (dict_keys (_world_cache s)) 0
               (_world_cache s).
Proof.
  unfold collect_world_metrics.
  rewrite final_bind. cbn [gets snd final fst].
  destruct (_world_cache s) as [|e c] eqn:E.
  { unfold final. cbn. rewrite E. reflexivity. }
  rewrite <- E.
  change (fst (?m s)) with (final m s).
  rewrite final_bind_same.
  - apply refresh_worlds_plan.
  - intros []. respects_with same_leaf.
Qed.

End WorldRefresh.

(** C7.  While the upstream gives the same answers, a second run of
    [collect_world_metrics] right after a first one leaves the world cache
    exactly as the first run left it: the same keys in the same order, bound
    to the same objects, with the same field values.  And no run of it adds
    or removes a key. *)
Theorem world_refresh_idempotent (cfg : Config) (env : Environment)
  (s : State) :
  upstream_unchanged env ->
  let s1 := final (collect_world_metrics cfg env) s in
  let s2 := final (collect_world_metrics cfg env) s1 in
  _world_cache s2 = _world_cache s1 /\
  List.length (_world_cache s2) = List.length (_world_cache s1) /\
  dict_keys (_world_cache s1) = dict_keys (_world_cache s) /\
  List.length (_world_cache s1) = List.length (_world_cache s).
Proof.
  intros Hsame. cbn zeta.
  assert (Hkeys : dict_keys (_world_cache
                               (final (collect_world_metrics cfg env) s))
                  = dict_keys (_world_cache s)).
  { rewrite (collect_world_metrics_plan cfg env Hsame).
    apply refresh_plan_keys. }
  assert (Hidem : _world_cache
                    (final (collect_world_metrics cfg env)
                           (final (collect_world_metrics cfg env) s))
                  = _world_cache (final (collect_world_metrics cfg env) s)).
  { rewrite (collect_world_metrics_plan cfg env Hsame
               (final (collect_world_metrics cfg env) s)).
    rewrite Hkeys.
    rewrite (collect_world_metrics_plan cfg env Hsame s).
    apply refresh_plan_idem. }
  split; [assumption|]. split; [rewrite Hidem; reflexivity|].
  split; [assumption|].
  rewrite <- (length_map fst (_world_cache _)),
          <- (length_map fst (_world_cache s)).
  fold (dict_keys (_world_cache (final (collect_world_metrics cfg env) s))).
  rewrite Hkeys. reflexivity.
Qed.

Lemma static_env_unchanged api lat : upstream_unchanged (static_env api lat).
Proof. intros n m req. reflexivity. Qed.

(** The theorem at the state reached after a first full cycle against an
    upstream with two online friends, one of them in a cached world. *)
Lemma world_refresh_idempotent_witness :
  let env := static_env api_two_friends 100 in
  let s := final (main default_config env 1) (initial_state 0) in
  let s1 := final (collect_world_metrics default_config env) s in
  let s2 := final (collect_world_metrics default_config env) s1 in
  _world_cache s2 = _world_cache s1 /\ List.length (_world_cache s1) = 1%nat.
Proof.
  cbn zeta.
  destruct (world_refresh_idempotent default_config
              (static_env api_two_friends 100)
              (final (main default_config (static_env api_two_friends 100) 1)
                     (initial_state 0))
              (static_env_unchanged api_two_friends 100))
    as (Hsame & _ & _ & Hlen).
  split; [exact Hsame|]. rewrite Hlen. vm_compute. reflexivity.
Defined.

(* ================================================================== *)
(** * The metrics registry *)
(* ================================================================== *)

Section Registry.

Lemma metric_eqb_eq (a b : Metric) : metric_eqb a b = true <-> a = b.
Proof.
  unfold metric_eqb. rewrite Nat.eqb_eq. split; [|congruence].
  destruct a; destruct b; cbn; intros H; solve [reflexivity|discriminate].
Qed.

Lemma metric_eqb_refl (a : Metric) : metric_eqb a a = true.
Proof. apply metric_eqb_eq. reflexivity. Qed.

Lemma labels_eqb_eq (a b : list string) : labels_eqb a b = true <-> a = b.
Proof.
  revert b. induction a as [|x a IH]; destruct b as [|y b]; cbn;
    try (split; [discriminate|discriminate]); [tauto|].
  rewrite andb_true_iff, String.eqb_eq, IH. split.
  - intros [-> ->]. reflexivity.
  - intros H. injection H. auto.
Qed.

Lemma key_match_eq (m m' : Metric) (ls ls' : list string) :
  metric_eqb m' m && labels_eqb ls' ls = true <-> m' = m /\ ls' = ls.
Proof. rewrite andb_true_iff, metric_eqb_eq, labels_eqb_eq. tauto. Qed.

Lemma sample_registry_set m ls m' ls' v r :
  sample m ls (registry_set m' ls' v r) =
  if metric_eqb m' m && labels_eqb ls' ls then Some v else sample m ls r.
Proof.
  induction r as [|[[m0 ls0] v0] r IH]; cbn [registry_set sample].
  - reflexivity.
  - destruct (metric_eqb m0 m' && labels_eqb ls0 ls') eqn:E0; cbn [sample].
    + apply key_match_eq in E0 as [-> ->].
      destruct (metric_eqb m' m && labels_eqb ls' ls); reflexivity.
    + rewrite IH.
      destruct (metric_eqb m0 m && labels_eqb ls0 ls) eqn:E1; [|reflexivity].
      apply key_match_eq in E1 as [-> ->].
      destruct (metric_eqb m' m && labels_eqb ls' ls) eqn:E2; [|reflexivity].
      apply key_match_eq in E2 as [-> ->].
      rewrite (proj2 (key_match_eq m m ls ls)) in E0 by auto. discriminate.
Qed.

Lemma sample_registry_set_other m ls m' ls' v r :
  metric_eqb m' m && labels_eqb ls' ls = false ->
  sample m ls (registry_set m' ls' v r) = sample m ls r.
Proof. intros H. rewrite sample_registry_set, H. reflexivity. Qed.

Lemma sample_registry_clear m ls m' r :
  sample m ls (registry_clear m' r) =
  if metric_eqb m m' then None else sample m ls r.
Proof.
  unfold registry_clear.
  induction r as [|[[m0 ls0] v0] r IH]; cbn [filter sample fst].
  - destruct (metric_eqb m m'); reflexivity.
  - destruct (metric_eqb m0 m') eqn:E0; cbn [negb sample].
    + rewrite IH. apply metric_eqb_eq in E0. subst.
      destruct (metric_eqb m m') eqn:E; [reflexivity|].
      destruct (metric_eqb m' m && labels_eqb ls0 ls) eqn:E1; [|reflexivity].
      apply key_match_eq in E1 as [-> _]. rewrite metric_eqb_refl in E.
      discriminate.
    + rewrite IH.
      destruct (metric_eqb m0 m && labels_eqb ls0 ls) eqn:E1; [|reflexivity].
      apply key_match_eq in E1 as [-> _].
      rewrite E0. reflexivity.
Qed.

Lemma sample_registry_clear_other m ls m' r :
  metric_eqb m m' = false ->
  sample m ls (registry_clear m' r) = sample m ls r.
Proof. intros H. rewrite sample_registry_clear, H. reflexivity. Qed.

(** What [m'.labels(ls')] does to the registry: nothing when the child is
    there, and otherwise a new child at 0. *)
Lemma sample_registry_child m ls m' ls' r :
  sample m ls (registry_child m' ls' r) =
  match sample m ls r with
  | Some v => Some v
  | None => if metric_eqb m' m && labels_eqb ls' ls then Some 0 else None
  end.
Proof.
  unfold registry_child. destruct (sample m' ls' r) eqn:E.
  - destruct (sample m ls r) eqn:E1; [reflexivity|].
    destruct (metric_eqb m' m && labels_eqb ls' ls) eqn:Ek; [|reflexivity].
    apply key_match_eq in Ek as [-> ->]. congruence.
  - rewrite sample_registry_set.
    destruct (metric_eqb m' m && labels_eqb ls' ls) eqn:Ek.
    + apply key_match_eq in Ek as [-> ->]. rewrite E. reflexivity.
    + destruct (sample m ls r); reflexivity.
Qed.

Lemma sample_registry_child_other m ls m' ls' r :
  metric_eqb m' m && labels_eqb ls' ls = false ->
  sample m ls (registry_child m' ls' r) = sample m ls r.
Proof.
  intros H. rewrite sample_registry_child, H.
  destruct (sample m ls r); reflexivity.
Qed.

(** Setting the child that [labels] has just made sure of gives the
    registry that setting it directly gives. *)
Lemma registry_set_child m ls v r :
  registry_set m ls v (registry_child m ls r) = registry_set m ls v r.
Proof.
  unfold registry_child. destruct (sample m ls r) eqn:E; [reflexivity|].
  induction r as [|[[m0 ls0] v0] r IH]; cbn [registry_set sample] in *.
  - rewrite (proj2 (key_match_eq m m ls ls) (conj eq_refl eq_refl)).
    reflexivity.
  - destruct (metric_eqb m0 m && labels_eqb ls0 ls) eqn:E0; [discriminate|].
    cbn [registry_set]. rewrite E0, (IH E). reflexivity.
Qed.

Lemma children_registry_clear m r : children m (registry_clear m r) = [].
Proof.
  unfold children, registry_clear.
  induction r as [|[[m0 ls0] v0] r IH]; cbn [filter fst]; [reflexivity|].
  destruct (metric_eqb m0 m) eqn:E; cbn [negb filter fst map].
  - assumption.
  - rewrite E. assumption.
Qed.

Lemma children_registry_clear_other m m' r :
  metric_eqb m m' = false ->
  children m (registry_clear m' r) = children m r.
Proof.
  intros H. unfold children, registry_clear.
  induction r as [|[[m0 ls0] v0] r IH]; cbn [filter fst]; [reflexivity|].
  destruct (metric_eqb m0 m') eqn:E; cbn [negb filter fst map].
  - apply metric_eqb_eq in E. subst.
    destruct (metric_eqb m' m) eqn:E'.
    + apply metric_eqb_eq in E'. subst. rewrite metric_eqb_refl in H.
      discriminate.
    + assumption.
  - destruct (metric_eqb m0 m); cbn [map]; rewrite IH; reflexivity.
Qed.

Lemma children_registry_child_other m m' ls r :
  metric_eqb m' m = false ->
  children m (registry_child m' ls r) = children m r.
Proof.
  intros H. unfold registry_child.
  destruct (sample m' ls r); [reflexivity|].
  unfold children.
  induction r as [|[[m0 ls0] v0] r IH]; cbn [registry_set filter fst map].
  - rewrite H. reflexivity.
  - destruct (metric_eqb m0 m' && labels_eqb ls0 ls) eqn:E;
      cbn [filter fst map snd].
    + destruct (metric_eqb m0 m); reflexivity.
    + destruct (metric_eqb m0 m); cbn [map]; rewrite IH; reflexivity.
Qed.

Lemma children_registry_set_other m m' ls v r :
  metric_eqb m' m = false ->
  children m (registry_set m' ls v r) = children m r.
Proof.
  intros H. unfold children.
  induction r as [|[[m0 ls0] v0] r IH]; cbn [registry_set filter fst map].
  - rewrite H. reflexivity.
  - destruct (metric_eqb m0 m' && labels_eqb ls0 ls) eqn:E;
      cbn [filter fst map snd].
    + destruct (metric_eqb m0 m); reflexivity.
    + destruct (metric_eqb m0 m); cbn [map]; rewrite IH; reflexivity.
Qed.

End Registry.

#[export] Instance keeps_child_preorder m ls : Preorder (keeps_child m ls).
Proof. split; unfold keeps_child; auto. Qed.

(** Closes the goal left at a state update when the relation is about one
    child of one metric. *)
Ltac child_leaf :=
  unfold same_on, child_value, keeps_child; cbv zeta;
  cbn [registry set_registry set_authenticated set_last_request_time
       pass_time count_exchange set_world_cache set_instance_cache
       bump_next_id set_cycle push_event];
  first [ reflexivity
        | rewrite sample_registry_set_other by reflexivity; reflexivity
        | rewrite sample_registry_child_other by reflexivity; reflexivity
        | rewrite sample_registry_clear_other by reflexivity; reflexivity
        | rewrite children_registry_set_other by reflexivity; reflexivity
        | rewrite children_registry_child_other by reflexivity; reflexivity
        | rewrite children_registry_clear_other by reflexivity; reflexivity
        | let H := fresh in intros H; exact H
        | rewrite sample_registry_child;
          match goal with |- context [match ?x with _ => _ end] =>
            destruct x end;
          [discriminate|auto]
        | rewrite sample_registry_set;
          match goal with |- context [if ?b then _ else _] => destruct b end;
          [discriminate|auto]
        | rewrite sample_registry_clear_other by reflexivity; auto ].

(* ================================================================== *)
(** * The friend breakdown gauges *)
(* ================================================================== *)

(** Takes the hypothesis [H], a run that returned, past a [lift]. *)
Ltac run_lift H :=
  rewrite bind_lift_run in H;
  match type of H with
  | match ?x with _ => _ end = _ =>
      let E := fresh "E" in
      destruct x eqn:E; [discriminate H|]
  end.

Section FriendGauges.

Context (cfg : Config) (env : Environment).

Lemma count_bump_keys key k (l : list (Json * Z)) :
  In k (map fst (count_bump key l)) -> In k (map fst l) \/ k = key.
Proof.
  induction l as [|[k0 n0] l IH]; cbn [count_bump map fst In].
  - intros [<-|[]]. auto.
  - destruct (key_eqb k0 key); cbn [map fst In]; [tauto|].
    intros [<-|H]; [auto|]. destruct (IH H); auto.
Qed.

Lemma friend_metrics_counts f sc pc wc s s' sc' pc' wc' :
  friend_metrics env f (sc, pc, wc) s = (s', Ret (sc', pc', wc')) ->
  exists status platform,
    py_get f "status" (JStr "offline") = inr status /\
    py_get f "last_platform" (JStr "unknown") = inr platform /\
    sc' = count_bump status sc /\ pc' = count_bump platform pc.
Proof.
  intros H. unfold friend_metrics in H. cbv beta iota in H.
  do 9 run_lift H.
  rewrite bind_gets_run in H.
  match type of H with
  | context [match ?d with Some _ => _ | None => _ end] =>
      destruct d as [[wid itype]|]
  end;
    unfold gauge_set in H; rewrite bind_modify_run in H; unfold ret in H;
    injection H as _ <- <- _;
    unfold count_incr in *;
    repeat match goal with
           | E : (if ?b then _ else _) = inr _ |- _ =>
               destruct b; [injection E as <-|discriminate E]
           end;
    eauto 10.
Qed.

(** The keys of the two count dicts are statuses and platforms of the
    friends counted. *)
Lemma friends_metrics_keys friends :
  forall sc pc wc s s' sc' pc' wc',
    friends_metrics env friends (sc, pc, wc) s = (s', Ret (sc', pc', wc')) ->
    (forall k, In k (map fst sc') ->
       In k (map fst sc) \/
       exists f, In f friends /\ py_get f "status" (JStr "offline") = inr k)
    /\
    (forall k, In k (map fst pc') ->
       In k (map fst pc) \/
       exists f, In f friends /\
                 py_get f "last_platform" (JStr "unknown") = inr k).
Proof.
  induction friends as [|f friends IH]; intros sc pc wc s s' sc' pc' wc' H.
  - cbn in H. injection H as _ <- <- _.
    split; intros k Hk; left; assumption.
  - cbn [friends_metrics] in H.
    apply bind_ret_inv in H as ([[sc1 pc1] wc1] & s1 & H1 & H).
    apply friend_metrics_counts in H1
      as (status & platform & Hs & Hp & -> & ->).
    destruct (IH _ _ _ _ _ _ _ _ H) as [IHs IHp]. split.
    + intros k Hk. destruct (IHs k Hk) as [Hin|(g & Hg & Hgs)].
      * apply count_bump_keys in Hin as [Hin| ->]; [auto|].
        right. exists f. split; [left; reflexivity|assumption].
      * right. exists g. split; [right; assumption|assumption].
    + intros k Hk. destruct (IHp k Hk) as [Hin|(g & Hg & Hgs)].
      * apply count_bump_keys in Hin as [Hin| ->]; [auto|].
        right. exists f. split; [left; reflexivity|assumption].
      * right. exists g. split; [right; assumption|assumption].
Qed.

(** Setting children of [m] under other labels leaves the child [ls]. *)
Lemma for_each_gauge_set_other m ls (label : Json * Z -> list string)
  (items : list (Json * Z)) :
  (forall it, In it items -> label it <> ls) ->
  respects (same_on (child_value m ls))
    (for_each items (fun it => gauge_set m (label it) (snd it))).
Proof.
  induction items as [|it items IH]; intros H; cbn [for_each].
  - use_respects @respects_ret.
  - apply respects_bind; [typeclasses eauto| |intros; apply IH].
    + apply respects_modify. intros s. unfold same_on, child_value.
      cbn [registry set_registry]. rewrite sample_registry_set.
      destruct (metric_eqb m m && labels_eqb (label it) ls) eqn:E;
        [|reflexivity].
      apply key_match_eq in E as [_ E]. exfalso.
      apply (H it); [left; reflexivity|assumption].
    + intros it' Hin. apply H. right. assumption.
Qed.

Lemma friends_metrics_same_child m ls friends counts :
  metric_eqb FRIEND_DETAIL m = false ->
  respects (same_on (child_value m ls)) (friends_metrics env friends counts).
Proof.
  intros Hm. apply respects_friends_metrics; [typeclasses eauto|].
  intros f c. unfold friend_metrics.
  respects_with ltac:(unfold same_on, child_value;
                      cbn [registry set_registry];
                      rewrite sample_registry_set_other
                        by (rewrite Hm; reflexivity);
                      reflexivity).
Qed.

Lemma publish_friends_status ls friends :
  (forall f st, In f friends ->
     py_get f "status" (JStr "offline") = inr st -> [py_str env st] <> ls) ->
  respects (same_on (child_value FRIEND_STATUS_GAUGE ls))
    (publish_friends env friends).
Proof.
  intros Hnone s. unfold publish_friends. rewrite final_bind.
  pose proof (friends_metrics_same_child FRIEND_STATUS_GAUGE ls friends
                ([], [], []) eq_refl s) as Hsame.
  destruct (snd (friends_metrics env friends ([], [], []) s))
    as [[[sc pc] wc]| | |] eqn:Ho; try assumption.
  eapply pre_trans; [exact Hsame|].
  assert (Hrun : friends_metrics env friends ([], [], []) s
                 = (final (friends_metrics env friends ([], [], [])) s,
                    Ret (sc, pc, wc)))
    by (rewrite <- Ho; apply run_eq).
  destruct (friends_metrics_keys _ _ _ _ _ _ _ _ _ Hrun) as [Hkeys _].
  apply respects_bind; [typeclasses eauto| |intros []].
  - apply (for_each_gauge_set_other FRIEND_STATUS_GAUGE ls
             (fun it => [py_str env (fst it)])).
    intros [k n] Hin. cbn [fst].
    destruct (Hkeys k) as [[]|(f & Hf & Hst)].
    + apply in_map_iff. exists (k, n). auto.
    + eapply Hnone; eassumption.
  - respects_with child_leaf.
Qed.

Lemma publish_friends_platform ls friends :
  (forall f p, In f friends ->
     py_get f "last_platform" (JStr "unknown") = inr p ->
     [py_str env p] <> ls) ->
  respects (same_on (child_value FRIEND_PLATFORM_GAUGE ls))
    (publish_friends env friends).
Proof.
  intros Hnone s. unfold publish_friends. rewrite final_bind.
  pose proof (friends_metrics_same_child FRIEND_PLATFORM_GAUGE ls friends
                ([], [], []) eq_refl s) as Hsame.
  destruct (snd (friends_metrics env friends ([], [], []) s))
    as [[[sc pc] wc]| | |] eqn:Ho; try assumption.
  eapply pre_trans; [exact Hsame|].
  assert (Hrun : friends_metrics env friends ([], [], []) s
                 = (final (friends_metrics env friends ([], [], [])) s,
                    Ret (sc, pc, wc)))
    by (rewrite <- Ho; apply run_eq).
  destruct (friends_metrics_keys _ _ _ _ _ _ _ _ _ Hrun) as [_ Hkeys].
  apply respects_bind; [typeclasses eauto| |intros []].
  - respects_with child_leaf.
  - apply respects_bind; [typeclasses eauto| |intros []].
    + apply (for_each_gauge_set_other FRIEND_PLATFORM_GAUGE ls
               (fun it => [py_str env (fst it)])).
      intros [k n] Hin. cbn [fst].
      destruct (Hkeys k) as [[]|(f & Hf & Hst)].
      * apply in_map_iff. exists (k, n). auto.
      * eapply Hnone; eassumption.
    + respects_with child_leaf.
Qed.

Lemma process_friends_online_status ls friends :
  (forall f st, In f friends ->
     py_get f "status" (JStr "offline") = inr st -> [py_str env st] <> ls) ->
  respects (same_on (child_value FRIEND_STATUS_GAUGE ls))
    (process_friends_online cfg env friends).
Proof.
  intros Hnone. pose proof (publish_friends_status ls friends Hnone).
  unfold process_friends_online. respects_with child_leaf.
Qed.

Lemma process_friends_online_platform ls friends :
  (forall f p, In f friends ->
     py_get f "last_platform" (JStr "unknown") = inr p ->
     [py_str env p] <> ls) ->
  respects (same_on (child_value FRIEND_PLATFORM_GAUGE ls))
    (process_friends_online cfg env friends).
Proof.
  intros Hnone. pose proof (publish_friends_platform ls friends Hnone).
  unfold process_friends_online. respects_with child_leaf.
Qed.

Lemma fetch_online_friends_same_child m ls :
  metric_eqb API_REQUEST_DURATION_sum m = false ->
  metric_eqb API_REQUEST_DURATION_count m = false ->
  respects (same_on (child_value m ls)) (fetch_online_friends cfg env).
Proof.
  intros H1 H2.
  respects_with ltac:(unfold same_on, child_value; cbv zeta;
                      cbn [registry set_registry set_authenticated
                           set_last_request_time pass_time count_exchange];
                      first [ reflexivity
                            | rewrite sample_registry_set_other
                                by (rewrite ?H1, ?H2; reflexivity);
                              reflexivity ]).
Qed.

Lemma collect_friends_online_keeps_child m ls :
  m = FRIEND_STATUS_GAUGE \/ m = FRIEND_PLATFORM_GAUGE ->
  respects (keeps_child m ls) (collect_friends_online cfg env).
Proof. intros [-> | ->]; respects_with child_leaf. Qed.

Lemma set_order_nil : set_order env [] = [].
Proof.
  apply Permutation_nil. apply Permutation_sym. apply set_order_perm.
Qed.

(** With no friend online the detail gauge and the per-world gauge end up
    without children. *)
Lemma process_no_friends_clears s :
  let s' := final (process_friends_online cfg env []) s in
  children FRIEND_DETAIL (registry s') = [] /\
  children FRIEND_WORLD_GAUGE (registry s') = [].
Proof.
  cbn zeta. unfold final, process_friends_online, resolve_unknown_worlds,
    resolve_unknown_instances, publish_friends.
  cbv [bind metric_clear modify gets]. cbn [scan_unknown_worlds lift ret].
  rewrite set_order_nil.
  cbn [resolve_worlds ret scan_unknown_instances lift firstn for_each
       friends_metrics fst snd registry set_registry].
  split.
  - rewrite children_registry_clear_other by reflexivity.
    apply children_registry_clear.
  - apply children_registry_clear.
Qed.

End FriendGauges.

(** C10.  [collect_friends_online] never clears the per-status and the
    per-platform gauge: a child that exists before a call exists after it,
    and when no friend of the call has the status (the platform) of the
    child's label, the child keeps the value it had, stale as it is.  The
    detail gauge and the per-world gauge are cleared by every call: with no
    friend online they end up without any child. *)
Theorem breakdown_gauges_never_cleared (cfg : Config) (env : Environment)
  (s : State) :
  let s' := final (collect_friends_online cfg env) s in
  (forall ls, child_value FRIEND_STATUS_GAUGE ls s <> None ->
              child_value FRIEND_STATUS_GAUGE ls s' <> None)
  /\
  (forall ls, child_value FRIEND_PLATFORM_GAUGE ls s <> None ->
              child_value FRIEND_PLATFORM_GAUGE ls s' <> None)
  /\
  (forall s1 friends ls,
     fetch_online_friends cfg env s = (s1, Ret friends) ->
     (forall f st, In f friends ->
        py_get f "status" (JStr "offline") = inr st ->
        [py_str env st] <> ls) ->
     child_value FRIEND_STATUS_GAUGE ls s'
     = child_value FRIEND_STATUS_GAUGE ls s)
  /\
  (forall s1 friends ls,
     fetch_online_friends cfg env s = (s1, Ret friends) ->
     (forall f p, In f friends ->
        py_get f "last_platform" (JStr "unknown") = inr p ->
        [py_str env p] <> ls) ->
     child_value FRIEND_PLATFORM_GAUGE ls s'
     = child_value FRIEND_PLATFORM_GAUGE ls s)
  /\
  (forall s1,
     fetch_online_friends cfg env s = (s1, Ret []) ->
     children FRIEND_DETAIL (registry s') = [] /\
     children FRIEND_WORLD_GAUGE (registry s') = []).
Proof.
  cbn zeta. split; [|split; [|split; [|split]]].
  - intros ls.
    apply (collect_friends_online_keeps_child cfg env FRIEND_STATUS_GAUGE ls);
      auto.
  - intros ls.
    apply (collect_friends_online_keeps_child cfg env FRIEND_PLATFORM_GAUGE
             ls); auto.
  - intros s1 friends ls Hfetch Hnone.
    unfold collect_friends_online.
    rewrite (final_bind_before _world_cache _ _ _ _ _ Hfetch).
    rewrite <- (process_friends_online_status cfg env ls friends Hnone s1).
    pose proof (fetch_online_friends_same_child cfg env FRIEND_STATUS_GAUGE
                  ls eq_refl eq_refl s) as H.
    unfold same_on, final in H. rewrite Hfetch in H. symmetry. exact H.
  - intros s1 friends ls Hfetch Hnone.
    unfold collect_friends_online.
    rewrite (final_bind_before _world_cache _ _ _ _ _ Hfetch).
    rewrite <- (process_friends_online_platform cfg env ls friends Hnone s1).
    pose proof (fetch_online_friends_same_child cfg env FRIEND_PLATFORM_GAUGE
                  ls eq_refl eq_refl s) as H.
    unfold same_on, final in H. rewrite Hfetch in H. symmetry. exact H.
  - intros s1 Hfetch. unfold collect_friends_online.
    rewrite (final_bind_before _world_cache _ _ _ _ _ Hfetch).
    apply process_no_friends_clears.
Qed.

(** The theorem at the second call against an upstream whose busy friend
    of the first call has gone and whose only friend is now active: the
    count of busy friends still reads 1. *)
Lemma breakdown_gauges_never_cleared_witness :
  let s1 := final (collect_friends_online default_config env_friend_leaves)
                  (initial_state 0) in
  let s2 := final (collect_friends_online default_config env_friend_leaves)
                  s1 in
  child_value FRIEND_STATUS_GAUGE ["busy"] s1 = Some 1 /\
  child_value FRIEND_STATUS_GAUGE ["busy"] s2 = Some 1 /\
  child_value FRIEND_STATUS_GAUGE ["active"] s2 = Some 1.
Proof.
  cbn zeta.
  destruct (breakdown_gauges_never_cleared default_config env_friend_leaves
              (final (collect_friends_online default_config env_friend_leaves)
                     (initial_state 0)))
    as (_ & _ & Hstale & _).
  split; [vm_compute; reflexivity|]. split; [|vm_compute; reflexivity].
  rewrite (Hstale
             (final (fetch_online_friends default_config env_friend_leaves)
                    (final (collect_friends_online default_config
                                                   env_friend_leaves)
                           (initial_state 0)))
             [friend "bob" "active" "standalonewindows" "private"]
             ["busy"]).
  - vm_compute. reflexivity.
  - vm_compute. reflexivity.
  - intros f st [<-|[]] H. vm_compute in H. injection H as <-.
    discriminate.
Defined.

(* ================================================================== *)
(** * The scheduler *)
(* ================================================================== *)

Section Logs.

Lemma collectors_of_app a b :
  collectors_of (a ++ b) = (collectors_of a ++ collectors_of b)%list.
Proof. induction a as [|[] a IH]; cbn; rewrite ?IH; reflexivity. Qed.

Lemma cycles_of_app a b :
  cycles_of (a ++ b) = (cycles_of a ++ cycles_of b)%list.
Proof. induction a as [|[] a IH]; cbn; rewrite ?IH; reflexivity. Qed.

Lemma collectors_of_rev l :
  collectors_of (List.rev l) = List.rev (collectors_of l).
Proof.
  induction l as [|e l IH]; [reflexivity|].
  cbn [List.rev]. rewrite collectors_of_app, IH.
  destruct e; cbn; auto using app_nil_r.
Qed.

Lemma cycles_of_rev l : cycles_of (List.rev l) = List.rev (cycles_of l).
Proof.
  induction l as [|e l IH]; [reflexivity|].
  cbn [List.rev]. rewrite cycles_of_app, IH.
  destruct e; cbn; auto using app_nil_r.
Qed.

Lemma since_extends s s' new :
  log s' = (new ++ log s)%list -> since s s' = List.rev new.
Proof.
  intros H. unfold since. rewrite H, length_app.
  replace (List.length new + List.length (log s) - List.length (log s))%nat
    with (List.length new + 0)%nat by lia.
  rewrite firstn_app_2. cbn. rewrite app_nil_r. reflexivity.
Qed.

Lemma logged_since s s' l :
  logged s s' l -> collectors_of (since s s') = l.
Proof.
  intros (new & Hlog & Hl). rewrite (since_extends _ _ _ Hlog). assumption.
Qed.

Lemma logged_refl s : logged s s [].
Proof. exists []. split; reflexivity. Qed.

Lemma logged_trans a b c l1 l2 :
  logged a b l1 -> logged b c l2 -> logged a c (l1 ++ l2).
Proof.
  intros (n1 & H1 & E1) (n2 & H2 & E2). exists (n2 ++ n1)%list. split.
  - rewrite H2, H1, app_assoc. reflexivity.
  - rewrite rev_app_distr, collectors_of_app, E1, E2. reflexivity.
Qed.

Lemma quiet_logged s s' : quiet s s' -> logged s s' [].
Proof.
  intros [(new & Hlog & Hc & _) _]. exists new. split; [assumption|].
  rewrite collectors_of_rev, Hc. reflexivity.
Qed.

Lemma quiet_same_cycle s s' : quiet s s' -> same_cycle s s'.
Proof.
  intros [(new & Hlog & _ & Hc) Hcycle]. split; [|assumption].
  exists new. auto.
Qed.

Lemma same_cycle_keeps_counted s s' : same_cycle s s' -> keeps_counted s s'.
Proof.
  intros [(new & Hlog & Hc) Hcycle] (k & Hk & Hn). exists k. split.
  - rewrite Hlog, rev_app_distr, cycles_of_app, (cycles_of_rev new), Hc.
    cbn. rewrite app_nil_r. assumption.
  - congruence.
Qed.

End Logs.

#[export] Instance quiet_preorder : Preorder quiet.
Proof.
  split.
  - intros s. split; [|reflexivity]. exists []. repeat split.
  - intros a b c [(n1 & H1 & C1 & Y1) E1] [(n2 & H2 & C2 & Y2) E2].
    split; [|congruence]. exists (n2 ++ n1)%list. split; [|split].
    + rewrite H2, H1, app_assoc. reflexivity.
    + rewrite collectors_of_app, C1, C2. reflexivity.
    + rewrite cycles_of_app, Y1, Y2. reflexivity.
Qed.

#[export] Instance same_cycle_preorder : Preorder same_cycle.
Proof.
  split.
  - intros s. split; [|reflexivity]. exists []. repeat split.
  - intros a b c [(n1 & H1 & Y1) E1] [(n2 & H2 & Y2) E2].
    split; [|congruence]. exists (n2 ++ n1)%list. split.
    + rewrite H2, H1, app_assoc. reflexivity.
    + rewrite cycles_of_app, Y1, Y2. reflexivity.
Qed.

#[export] Instance keeps_counted_preorder : Preorder keeps_counted.
Proof. split; unfold keeps_counted; auto. Qed.

Ltac quiet_leaf :=
  split;
  [ first [ exists []; repeat split; reflexivity
          | eexists [_]; repeat split; reflexivity ]
  | reflexivity ].

Ltac same_cycle_leaf :=
  split;
  [ first [ exists []; repeat split; reflexivity
          | eexists [_]; repeat split; reflexivity ]
  | reflexivity ].

Ltac counted_leaf := apply same_cycle_keeps_counted; same_cycle_leaf.

Section Collectors.

Context (cfg : Config) (env : Environment).

Lemma _get_quiet ep ps : respects quiet (_get cfg env ep ps).
Proof. respects_with quiet_leaf. Qed.

Lemma authenticate_quiet : respects quiet (authenticate cfg env).
Proof. respects_with quiet_leaf. Qed.

Lemma collect_platform_quiet : respects quiet (collect_platform cfg env).
Proof. respects_with quiet_leaf. Qed.

Lemma collect_current_user_quiet :
  respects quiet (collect_current_user cfg env).
Proof. respects_with quiet_leaf. Qed.

Lemma collect_friends_online_quiet :
  respects quiet (collect_friends_online cfg env).
Proof. respects_with quiet_leaf. Qed.

Lemma collect_world_metrics_quiet :
  respects quiet (collect_world_metrics cfg env).
Proof. respects_with quiet_leaf. Qed.

Lemma collect_instance_metrics_quiet :
  respects quiet (collect_instance_metrics cfg env).
Proof. respects_with quiet_leaf. Qed.

Lemma collect_friends_offline_quiet :
  respects quiet (collect_friends_offline cfg env).
Proof. respects_with quiet_leaf. Qed.

Lemma collect_favorites_quiet : respects quiet (collect_favorites cfg env).
Proof. respects_with quiet_leaf. Qed.

Lemma run_collectors_same_cycle n :
  respects same_cycle (run_collectors cfg env n).
Proof. respects_with same_cycle_leaf. Qed.


End Collectors.

Section Chain.

Lemma ran_stop s s' (P : Prop) l1 L2 :
  logged s s' l1 -> ~ P -> ran s s' P (l1 ++ L2).
Proof.
  intros Hl Hn. split; [|tauto].
  exists (List.length l1 + 0)%nat. rewrite firstn_app_2. cbn.
  rewrite app_nil_r. assumption.
Qed.

Lemma ran_continue s s1 s' (P : Prop) l1 L2 :
  logged s s1 l1 -> ran s1 s' P L2 -> ran s s' P (l1 ++ L2).
Proof.
  intros Hl [(j & Hj) Hfull]. split.
  - exists (List.length l1 + j)%nat. rewrite firstn_app_2.
    eapply logged_trans; eassumption.
  - intros HP. eapply logged_trans; [eassumption|auto].
Qed.

Lemma ran_bind {A B} (m : M A) (k : A -> M B) l1
  (L2 : State -> list Collector) s :
  logged s (final m s) l1 ->
  (forall a, snd (m s) = Ret a ->
     ran (final m s) (final (k a) (final m s))
         (returns (k a) (final m s)) (L2 (final (k a) (final m s)))) ->
  ran s (final (bind m k) s) (returns (bind m k) s)
      (l1 ++ L2 (final (bind m k) s)).
Proof.
  intros Hl Hk. unfold returns. rewrite final_bind, outcome_bind.
  destruct (snd (m s)) as [a|e| |] eqn:Ho.
  - eapply ran_continue; [eassumption|]. apply Hk. reflexivity.
  - apply ran_stop; [assumption|]. intros [b Hb]. discriminate.
  - apply ran_stop; [assumption|]. intros [b Hb]. discriminate.
  - apply ran_stop; [assumption|]. intros [b Hb]. discriminate.
Qed.

Lemma enter_logged c s : logged s (final (enter c) s) [c].
Proof. exists [EvCollect c]. split; reflexivity. Qed.

Lemma when_stage_logged b c (m : M unit) s :
  respects quiet m ->
  logged s (final (when b (enter c ;; m)) s) (if b then [c] else []).
Proof.
  intros Hm. destruct b; [|apply logged_refl].
  cbn [when]. rewrite final_bind. cbn [enter modify snd].
  change [c] with ([c] ++ [])%list.
  eapply logged_trans; [apply enter_logged|].
  apply quiet_logged. apply Hm.
Qed.

Lemma ran_all s s' (P : Prop) l : logged s s' l -> ran s s' P l.
Proof.
  intros H. split; [|auto]. exists (List.length l).
  rewrite firstn_all. assumption.
Qed.

End Chain.

Section Schedule.

Context (cfg : Config) (env : Environment).

Lemma lift_final {A} (x : Py A) s : final (lift x) s = s.
Proof. destruct x; reflexivity. Qed.

Lemma favorites_ran n s :
  ran s (final (when (n mod 3 =? 0)
                     (enter CFavorites ;; collect_favorites cfg env)) s)
      (returns (when (n mod 3 =? 0)
                     (enter CFavorites ;; collect_favorites cfg env)) s)
      (schedule_favorites n).
Proof.
  apply ran_all. unfold schedule_favorites.
  apply when_stage_logged. apply collect_favorites_quiet.
Qed.

Lemma offline_ran n s :
  ran s
    (final (r5 <- lift (py_mod n (OFFLINE_SCRAPE_CYCLES cfg)) ;;
            when (r5 =? 0)
                 (enter CFriendsOffline ;; collect_friends_offline cfg env) ;;
            when (n mod 3 =? 0)
                 (enter CFavorites ;; collect_favorites cfg env)) s)
    (returns (r5 <- lift (py_mod n (OFFLINE_SCRAPE_CYCLES cfg)) ;;
              when (r5 =? 0)
                   (enter CFriendsOffline ;; collect_friends_offline cfg env) ;;
              when (n mod 3 =? 0)
                   (enter CFavorites ;; collect_favorites cfg env)) s)
    (schedule_offline cfg n).
Proof.
  refine (ran_bind _ _ [] (fun _ => schedule_offline cfg n) s _ _).
  - rewrite lift_final. apply logged_refl.
  - intros r5 Hr5. rewrite lift_final.
    assert (Er : r5 = n mod OFFLINE_SCRAPE_CYCLES cfg).
    { unfold py_mod in Hr5. destruct (_ =? 0); cbn in Hr5;
        [discriminate|congruence]. }
    subst r5.
    refine (ran_bind _ _
              (if n mod OFFLINE_SCRAPE_CYCLES cfg =? 0
               then [CFriendsOffline] else [])
              (fun _ => schedule_favorites n) s _ _).
    + apply when_stage_logged. apply collect_friends_offline_quiet.
    + intros [] _. apply favorites_ran.
Qed.

Lemma after_world_same_instances n :
  respects (same_on (fun s => nonempty (_instance_cache s)))
    (ic <- gets _instance_cache ;;
     when (nonempty ic)
          (enter CInstanceMetrics ;; collect_instance_metrics cfg env) ;;
     r5 <- lift (py_mod n (OFFLINE_SCRAPE_CYCLES cfg)) ;;
     when (r5 =? 0)
          (enter CFriendsOffline ;; collect_friends_offline cfg env) ;;
     when (n mod 3 =? 0)
          (enter CFavorites ;; collect_favorites cfg env)).
Proof.
  respects_with ltac:(unfold same_on;
                      cbn [_instance_cache set_instance_cache];
                      first [ reflexivity
                            | match goal with
                              | |- context [dict_update ?k ?g ?d] =>
                                  destruct d as [|[k0 v0] d'];
                                  [reflexivity|];
                                  cbn [dict_update];
                                  destruct (k0 =? k)%string; reflexivity
                              end ]).
Qed.

Lemma instances_ran n s :
  ran s
    (final (ic <- gets _instance_cache ;;
            when (nonempty ic)
                 (enter CInstanceMetrics ;; collect_instance_metrics cfg env) ;;
            r5 <- lift (py_mod n (OFFLINE_SCRAPE_CYCLES cfg)) ;;
            when (r5 =? 0)
                 (enter CFriendsOffline ;; collect_friends_offline cfg env) ;;
            when (n mod 3 =? 0)
                 (enter CFavorites ;; collect_favorites cfg env)) s)
    (returns (ic <- gets _instance_cache ;;
              when (nonempty ic)
                   (enter CInstanceMetrics ;;
                    collect_instance_metrics cfg env) ;;
              r5 <- lift (py_mod n (OFFLINE_SCRAPE_CYCLES cfg)) ;;
              when (r5 =? 0)
                   (enter CFriendsOffline ;; collect_friends_offline cfg env) ;;
              when (n mod 3 =? 0)
                   (enter CFavorites ;; collect_favorites cfg env)) s)
    (schedule_instances cfg
       (nonempty
          (_instance_cache
             (final (ic <- gets _instance_cache ;;
                     when (nonempty ic)
                          (enter CInstanceMetrics ;;
                           collect_instance_metrics cfg env) ;;
                     r5 <- lift (py_mod n (OFFLINE_SCRAPE_CYCLES cfg)) ;;
                     when (r5 =? 0)
                          (enter CFriendsOffline ;;
                           collect_friends_offline cfg env) ;;
                     when (n mod 3 =? 0)
                          (enter CFavorites ;; collect_favorites cfg env)) s)))
       n).
Proof.
  rewrite <- (after_world_same_instances n s).
  refine (ran_bind _ _ []
            (fun _ => schedule_instances cfg (nonempty (_instance_cache s)) n)
            s _ _); [apply logged_refl|].
  intros ic Hic. cbn in Hic. injection Hic as <-.
  change (final (gets _instance_cache) s) with s.
  refine (ran_bind _ _
            (if nonempty (_instance_cache s) then [CInstanceMetrics] else [])
            (fun _ => schedule_offline cfg n) s _ _).
  - apply when_stage_logged. apply collect_instance_metrics_quiet.
  - intros [] _. apply offline_ran.
Qed.

Lemma run_collectors_ran n s :
  ran s (final (run_collectors cfg env n) s)
      (returns (run_collectors cfg env n) s)
      (schedule cfg
         (nonempty (_instance_cache (final (run_collectors cfg env n) s)))
         n).
Proof.
  unfold run_collectors.
  refine (ran_bind _ _ [CPlatform]
            (fun s' => [CCurrentUser; CFriendsOnline; CWorldMetrics]
                       ++ schedule_instances cfg
                            (nonempty (_instance_cache s')) n)%list
            s (enter_logged _ s) _).
  intros [] _.
  refine (ran_bind _ _ []
            (fun s' => [CCurrentUser; CFriendsOnline; CWorldMetrics]
                       ++ schedule_instances cfg
                            (nonempty (_instance_cache s')) n)%list
            _ (quiet_logged _ _ (collect_platform_quiet cfg env _)) _).
  intros [] _.
  refine (ran_bind _ _ [CCurrentUser]
            (fun s' => [CFriendsOnline; CWorldMetrics]
                       ++ schedule_instances cfg
                            (nonempty (_instance_cache s')) n)%list
            _ (enter_logged _ _) _).
  intros [] _.
  refine (ran_bind _ _ []
            (fun s' => [CFriendsOnline; CWorldMetrics]
                       ++ schedule_instances cfg
                            (nonempty (_instance_cache s')) n)%list
            _ (quiet_logged _ _ (collect_current_user_quiet cfg env _)) _).
  intros data _.
  refine (ran_bind _ _ [CFriendsOnline]
            (fun s' => [CWorldMetrics]
                       ++ schedule_instances cfg
                            (nonempty (_instance_cache s')) n)%list
            _ (enter_logged _ _) _).
  intros [] _.
  refine (ran_bind _ _ []
            (fun s' => [CWorldMetrics]
                       ++ schedule_instances cfg
                            (nonempty (_instance_cache s')) n)%list
            _ (quiet_logged _ _ (collect_friends_online_quiet cfg env _)) _).
  intros [] _.
  refine (ran_bind _ _ [CWorldMetrics]
            (fun s' => schedule_instances cfg
                         (nonempty (_instance_cache s')) n)
            _ (enter_logged _ _) _).
  intros [] _.
  refine (ran_bind _ _ []
            (fun s' => schedule_instances cfg
                         (nonempty (_instance_cache s')) n)
            _ (quiet_logged _ _ (collect_world_metrics_quiet cfg env _)) _).
  intros [] _.
  apply instances_ran.
Qed.

(** [scrape_all] once its collectors have returned: the three gauges are
    recorded. *)
Lemma scrape_all_returns n s :
  let s0 := push_event (EvCycle n) s in
  let s1 := final (run_collectors cfg env n) s0 in
  snd (run_collectors cfg env n s0) = Ret tt ->
  scrape_all cfg env n s =
  (set_registry
     (registry_set SCRAPE_CYCLE_NUM [] n
        (registry_set LAST_SCRAPE_TS [] (now s1)
           (registry_set SCRAPE_DURATION [] (now s1 - now s)
              (registry s1)))) s1,
   Ret tt).
Proof.
  cbn zeta. intros Ho. unfold scrape_all, time.
  rewrite bind_gets_run, bind_modify_run.
  rewrite (bind_run _ _ _ _ _
             (eq_trans (run_eq _ _) (f_equal (pair _) Ho))).
  reflexivity.
Qed.

(** [scrape_all] when one of its collectors does not return: it stops
    where the collector stopped, with the collector's outcome. *)
Lemma scrape_all_stops n s :
  let s0 := push_event (EvCycle n) s in
  (forall u, snd (run_collectors cfg env n s0) <> Ret u) ->
  final (scrape_all cfg env n) s = final (run_collectors cfg env n) s0 /\
  (forall u, snd (scrape_all cfg env n s) <> Ret u).
Proof.
  cbn zeta. intros Ho. unfold scrape_all, time, final at 1.
  rewrite bind_gets_run, bind_modify_run.
  change (fst (?m ?x)) with (final m x).
  rewrite final_bind, outcome_bind.
  destruct (snd (run_collectors cfg env n (push_event (EvCycle n) s)))
    as [u|e| |].
  - exfalso. apply (Ho u). reflexivity.
  - split; [reflexivity|]. intros u. discriminate.
  - split; [reflexivity|]. intros u. discriminate.
  - split; [reflexivity|]. intros u. discriminate.
Qed.

Lemma outcome_cases {A} (o : Outcome A) :
  (exists a, o = Ret a) \/ (forall a, o <> Ret a).
Proof. destruct o; [left; eauto|right..]; intros a; discriminate. Qed.

Lemma scrape_all_ran n s :
  ran s (final (scrape_all cfg env n) s) (returns (scrape_all cfg env n) s)
      (schedule cfg
         (nonempty (_instance_cache (final (scrape_all cfg env n) s))) n).
Proof.
  pose proof (run_collectors_ran n (push_event (EvCycle n) s)) as Hran.
  assert (Hpush : logged s (push_event (EvCycle n) s) [])
    by (exists [EvCycle n]; split; reflexivity).
  destruct (outcome_cases (snd (run_collectors cfg env n
                                  (push_event (EvCycle n) s))))
    as [[[] Ho]|Ho].
  - pose proof (scrape_all_returns n s Ho) as Hrun. cbn zeta in Hrun.
    unfold final at 1 2, returns. rewrite Hrun. cbn [fst snd].
    cbn [_instance_cache set_registry].
    apply ran_all. destruct Hran as [_ Hfull].
    assert (Hl : logged (push_event (EvCycle n) s)
                   (final (run_collectors cfg env n)
                          (push_event (EvCycle n) s))
                   (schedule cfg
                      (nonempty
                         (_instance_cache
                            (final (run_collectors cfg env n)
                                   (push_event (EvCycle n) s)))) n))
      by (apply Hfull; exists tt; assumption).
    destruct (logged_trans _ _ _ _ _ Hpush Hl) as (new & Hlog & Hc).
    exists new. split; assumption.
  - destruct (scrape_all_stops n s Ho) as [Hf Hn]. rewrite Hf.
    destruct Hran as [(j & Hj) _]. split.
    + exists j. apply (logged_trans _ _ _ _ _ Hpush Hj).
    + intros [u Hu]. exfalso. apply (Hn u). assumption.
Qed.

Lemma In_schedule_offline has_instances n :
  In CFriendsOffline (schedule cfg has_instances n) <->
  n mod OFFLINE_SCRAPE_CYCLES cfg = 0.
Proof.
  unfold schedule. rewrite !in_app_iff. rewrite <- Z.eqb_eq.
  destruct has_instances; destruct (n mod OFFLINE_SCRAPE_CYCLES cfg =? 0);
    destruct (n mod 3 =? 0); cbn; intuition congruence.
Qed.

Lemma In_schedule_favorites has_instances n :
  In CFavorites (schedule cfg has_instances n) <-> n mod 3 = 0.
Proof.
  unfold schedule. rewrite !in_app_iff. rewrite <- Z.eqb_eq.
  destruct has_instances; destruct (n mod OFFLINE_SCRAPE_CYCLES cfg =? 0);
    destruct (n mod 3 =? 0); cbn; intuition congruence.
Qed.

End Schedule.

Section MainLoop.

Context (cfg : Config) (env : Environment).

(** A turn of the main loop of an authenticated client, by the outcome of
    its scrape cycle. *)
Lemma main_iteration_authenticated s :
  authenticated s = true ->
  0 <= SCRAPE_INTERVAL cfg ->
  let n := cycle s + 1 in
  let s1 := set_cycle n s in
  let s2 := final (scrape_all cfg env n) s1 in
  let pause := 1000 * SCRAPE_INTERVAL cfg in
  main_iteration cfg env s =
  match snd (scrape_all cfg env n s1) with
  | Ret _ => (pass_time pause (EvSleep pause) s2, Ret tt)
  | Exc _ =>
      (pass_time pause (EvSleep pause)
         (set_registry
            (registry_set SCRAPE_ERRORS ["main_loop"]
               (main_loop_errors s2 + 1) (registry s2)) s2),
       Ret tt)
  | SystemExit => (s2, SystemExit)
  | Diverge => (s2, Diverge)
  end.
Proof.
  intros Hauth Hpos. cbn zeta.
  unfold main_iteration, try_except, next_cycle.
  unfold bind at 1. rewrite bind_gets_run, Hauth.
  unfold bind at 1. cbn [ret negb].
  unfold bind at 1. rewrite bind_modify_run, bind_gets_run.
  cbn [cycle set_cycle].
  unfold final.
  destruct (scrape_all cfg env (cycle s + 1) (set_cycle (cycle s + 1) s))
    as [s2 [[]|e| |]]; cbn [fst snd]; try reflexivity.
  - unfold sleep. destruct (Z.ltb_spec (1000 * SCRAPE_INTERVAL cfg) 0);
      [lia|reflexivity].
  - unfold counter_inc, counter_add. rewrite bind_modify_run. cbn [ret].
    unfold sleep. destruct (Z.ltb_spec (1000 * SCRAPE_INTERVAL cfg) 0);
      [lia|reflexivity].
Qed.




(** The first cycle mark of a cycle makes the log count one more cycle. *)
Lemma next_cycle_keeps_counted : respects keeps_counted (next_cycle cfg env).
Proof.
  intros s (k & Hk & Hc). unfold next_cycle, final.
  rewrite bind_modify_run, bind_gets_run. cbn [cycle set_cycle].
  unfold scrape_all, time. rewrite bind_gets_run, bind_modify_run.
  change (fst (?m ?x)) with (final m x).
  assert (Hrest : forall start,
            respects same_cycle
              (run_collectors cfg env (cycle s + 1) ;;
               finish <- gets now ;;
               gauge_set SCRAPE_DURATION [] (finish - start) ;;
               t <- gets now ;;
               gauge_set LAST_SCRAPE_TS [] t ;;
               gauge_set SCRAPE_CYCLE_NUM [] (cycle s + 1)))
    by (intros start; respects_with same_cycle_leaf).
  apply (same_cycle_keeps_counted _ _ (Hrest _ _)).
  exists (S k). cbn [log push_event set_cycle cycle List.rev]. split.
  - rewrite cycles_of_app, Hk, seq_S, map_app. cbn.
    rewrite Hc. do 3 f_equal. lia.
  - rewrite Hc. lia.
Qed.

End MainLoop.

#[export] Hint Resolve next_cycle_keeps_counted : respects.

Section Counting.

Context (cfg : Config) (env : Environment).

Lemma main_loop_keeps_counted turns :
  respects keeps_counted (main_loop cfg env turns).
Proof. respects_with counted_leaf. Qed.

Lemma main_counted turns t0 :
  cycles_counted (final (main cfg env turns) (initial_state t0)).
Proof.
  unfold main. rewrite final_bind.
  pose proof (authenticate_quiet cfg env (initial_state t0)) as Hq.
  assert (H0 : cycles_counted
                 (final (authenticate cfg env) (initial_state t0))).
  { apply (same_cycle_keeps_counted _ _ (quiet_same_cycle _ _ Hq)).
    exists O. split; reflexivity. }
  destruct (snd (authenticate cfg env (initial_state t0))) as [ok|e| |];
    try assumption.
  destruct ok; cbn [negb]; [|assumption].
  rewrite final_bind. cbn [modify snd final fst].
  change (fst (main_loop cfg env turns ?x)) with
    (final (main_loop cfg env turns) x).
  apply main_loop_keeps_counted.
  destruct Hq as [_ Hcycle]. destruct H0 as (k & Hk & Hc).
  exists k. cbn [log set_cycle cycle]. split; [assumption|].
  rewrite <- Hc, Hcycle. reflexivity.
Qed.

End Counting.

Section Marks.

Context (cfg : Config) (env : Environment).

Lemma scrape_all_after_mark n s :
  same_cycle (push_event (EvCycle n) s) (final (scrape_all cfg env n) s).
Proof.
  unfold scrape_all, time, final.
  rewrite bind_gets_run, bind_modify_run.
  change (fst (?m ?x)) with (final m x).
  assert (Hrest : respects same_cycle
                    (run_collectors cfg env n ;;
                     finish <- gets now ;;
                     gauge_set SCRAPE_DURATION [] (finish - now s) ;;
                     t <- gets now ;;
                     gauge_set LAST_SCRAPE_TS [] t ;;
                     gauge_set SCRAPE_CYCLE_NUM [] n))
    by respects_with same_cycle_leaf.
  apply Hrest.
Qed.

Lemma marked_cycles s0 s' n s :
  log s0 = EvCycle n :: log s ->
  same_cycle s0 s' ->
  cycles_of (since s s') = [n].
Proof.
  intros H0 [(new & Hlog & Hc) _].
  rewrite (since_extends s s' (new ++ [EvCycle n])).
  - rewrite cycles_of_rev, cycles_of_app, Hc. reflexivity.
  - rewrite Hlog, H0, <- app_assoc. reflexivity.
Qed.

End Marks.

(** C6, as the code has it.  With [OFFLINE_SCRAPE_CYCLES] = 5, a scrape
    cycle enters the offline-friends collector only when its cycle number
    is a multiple of 5 and the favorites collector only when it is a
    multiple of 3, and a cycle that runs to its end, no collector having
    raised, enters them whenever it is.  The cycle numbers [main] passes to
    [scrape_all] are 1, 2, 3, ... without a gap, the cycle counter being
    the last of them; a turn of the loop of an authenticated client starts
    exactly one cycle, numbered one more than the counter, whether or not
    that cycle runs to its end. *)
Theorem collector_cadence (cfg : Config) (env : Environment) :
  OFFLINE_SCRAPE_CYCLES cfg = 5 ->
  (forall n s,
     let s' := final (scrape_all cfg env n) s in
     (In CFriendsOffline (collectors_of (since s s')) -> n mod 5 = 0) /\
     (In CFavorites (collectors_of (since s s')) -> n mod 3 = 0) /\
     (snd (scrape_all cfg env n s) = Ret tt ->
      (n mod 5 = 0 -> In CFriendsOffline (collectors_of (since s s'))) /\
      (n mod 3 = 0 -> In CFavorites (collectors_of (since s s')))))
  /\
  (forall turns t0,
     let s' := final (main cfg env turns) (initial_state t0) in
     exists k : nat,
       cycles_of (List.rev (log s')) = map Z.of_nat (seq 1 k) /\
       cycle s' = Z.of_nat k)
  /\
  (forall s,
     authenticated s = true ->
     0 <= SCRAPE_INTERVAL cfg ->
     let s' := final (main_iteration cfg env) s in
     cycles_of (since s s') = [cycle s + 1] /\ cycle s' = cycle s + 1).
Proof.
  intros H5. split; [|split].
  - intros n s. cbn zeta.
    destruct (scrape_all_ran cfg env n s) as [(j & Hj) Hfull].
    apply logged_since in Hj. rewrite Hj. split; [|split].
    + intros Hin. apply In_firstn in Hin.
      apply In_schedule_offline in Hin. rewrite H5 in Hin. assumption.
    + intros Hin. apply In_firstn in Hin.
      apply In_schedule_favorites in Hin. assumption.
    + intros Hret. rewrite <- Hj.
      rewrite (logged_since _ _ _ (Hfull (ex_intro _ tt Hret))). split.
      * intros Hn. apply In_schedule_offline. rewrite H5. assumption.
      * intros Hn. apply In_schedule_favorites. assumption.
  - intros turns t0. apply main_counted.
  - intros s Hauth Hpos. cbn zeta.
    pose proof (main_iteration_authenticated cfg env s Hauth Hpos) as Hit.
    cbn zeta in Hit.
    pose proof (scrape_all_after_mark cfg env (cycle s + 1)
                  (set_cycle (cycle s + 1) s)) as Hsc.
    set (s2 := final (scrape_all cfg env (cycle s + 1))
                     (set_cycle (cycle s + 1) s)) in *.
    assert (Hpause : forall r,
              same_cycle s2
                (pass_time (1000 * SCRAPE_INTERVAL cfg)
                           (EvSleep (1000 * SCRAPE_INTERVAL cfg))
                           (set_registry r s2)))
      by (intros r; same_cycle_leaf).
    assert (Hfinal : same_cycle s2 (final (main_iteration cfg env) s)).
    { unfold final at 1. rewrite Hit.
      destruct (snd (scrape_all cfg env (cycle s + 1)
                       (set_cycle (cycle s + 1) s))); cbn [fst].
      - apply (Hpause (registry s2)).
      - apply Hpause.
      - apply pre_refl.
      - apply pre_refl. }
    pose proof (pre_trans _ _ _ Hsc Hfinal) as Hall. split.
    + eapply marked_cycles; [|exact Hall]. reflexivity.
    + destruct Hall as [_ ->]. reflexivity.
Qed.

(** The theorem at the fifth cycle against an upstream with two online
    friends: the offline collector is entered, the favorites collector is
    not. *)
Lemma collector_cadence_witness :
  let s := initial_state 0 in
  let s' := final (scrape_all default_config
                              (static_env api_two_friends 100) 5) s in
  In CFriendsOffline (collectors_of (since s s')) /\
  ~ In CFavorites (collectors_of (since s s')).
Proof.
  cbn zeta.
  destruct (collector_cadence default_config (static_env api_two_friends 100)
              eq_refl) as (Hcad & _ & _).
  destruct (Hcad 5 (initial_state 0)) as (_ & Hfav & Hret).
  assert (Hreturned : snd (scrape_all default_config
                             (static_env api_two_friends 100) 5
                             (initial_state 0)) = Ret tt)
    by (vm_compute; reflexivity).
  destruct (Hret Hreturned) as [Hoffline _].
  split.
  - exact (Hoffline eq_refl).
  - intros Hin. apply Hfav in Hin. discriminate Hin.
Defined.

(** C6, as stated, fails: a cycle whose number is a multiple of 5 does not
    enter the offline-friends collector when an earlier collector of the
    cycle raises.  With a user document whose [tags] is null the
    current-user collector raises a [TypeError] in every cycle: the fifth
    cycle enters the platform and the current-user collector and nothing
    else, and in five turns of the main loop, which starts the cycles 1 to
    5, neither the offline-friends collector (due in cycle 5) nor the
    favorites collector (due in cycle 3) is ever entered. *)
Lemma failed_cycle_skips_due_collectors :
  let env := static_env api_null_tags 100 in
  let s := final (authenticate default_config env) (initial_state 0) in
  let s' := final (scrape_all default_config env 5) (set_cycle 5 s) in
  let s5 := final (main default_config env 5) (initial_state 0) in
  OFFLINE_SCRAPE_CYCLES default_config = 5 /\
  5 mod 5 = 0 /\
  snd (scrape_all default_config env 5 (set_cycle 5 s)) = Exc TypeError /\
  collectors_of (since (set_cycle 5 s) s') = [CPlatform; CCurrentUser] /\
  cycles_of (List.rev (log s5)) = [1; 2; 3; 4; 5] /\
  collectors_of (List.rev (log s5))
  = [CPlatform; CCurrentUser; CPlatform; CCurrentUser; CPlatform;
     CCurrentUser; CPlatform; CCurrentUser; CPlatform; CCurrentUser].
Proof. vm_compute. repeat split. Qed.

(* ================================================================== *)
(** * The turns of the collectors *)
(* ================================================================== *)

Section Stages.

Context (cfg : Config) (env : Environment).




End Stages.





(* ================================================================== *)
(** * Splitting and searching location strings *)
(* ================================================================== *)

Section Splitting.

Lemma split_on_nonempty (c : ascii) (s : string) : split_on c s <> [].
Proof.
  induction s as [|x s IH]; cbn [split_on]; [discriminate|].
  destruct (Ascii.eqb x c); [discriminate|].
  destruct (split_on c s); discriminate.
Qed.

Lemma split_on_free (c : ascii) (a : string) :
  char_free c a = true -> split_on c a = [a].
Proof.
  induction a as [|x a IH]; intros H; [reflexivity|].
  cbn [char_free] in H. apply andb_true_iff in H as [Hx Ha].
  apply negb_true_iff in Hx. cbn [split_on]. rewrite Hx, IH by assumption.
  reflexivity.
Qed.

Lemma split_on_app (c : ascii) (a b : string) :
  char_free c a = true ->
  split_on c (a ++ String c b) = a :: split_on c b.
Proof.
  induction a as [|x a IH]; intros H.
  - cbn [append split_on]. rewrite Ascii.eqb_refl. reflexivity.
  - cbn [char_free] in H. apply andb_true_iff in H as [Hx Ha].
    apply negb_true_iff in Hx.
    change (String x a ++ String c b) with (String x (a ++ String c b)).
    cbn [split_on]. rewrite Hx, IH by assumption. reflexivity.
Qed.

Lemma hd_split_on_app (c : ascii) (a b : string) :
  char_free c a = true ->
  hd "" (split_on c (a ++ b)) = a ++ hd "" (split_on c b).
Proof.
  induction a as [|x a IH]; intros H; [reflexivity|].
  cbn [char_free] in H. apply andb_true_iff in H as [Hx Ha].
  apply negb_true_iff in Hx.
  change (String x a ++ b) with (String x (a ++ b)).
  cbn [split_on]. rewrite Hx. specialize (IH Ha).
  pose proof (split_on_nonempty c (a ++ b)) as Hne.
  destruct (split_on c (a ++ b)) as [|p ps]; [contradiction|].
  cbn [hd] in IH |- *. rewrite IH. reflexivity.
Qed.

Lemma hd_split_on_sep (c : ascii) (a b : string) :
  char_free c a = true -> hd "" (split_on c (a ++ String c b)) = a.
Proof. intros H. rewrite split_on_app by assumption. reflexivity. Qed.

Lemma prefix_app_sep (c : ascii) (k a z : string) :
  char_free c k = true -> prefix k (a ++ String c z) = prefix k a.
Proof.
  revert a. induction k as [|y k IH]; intros a H;
    [destruct a; reflexivity|].
  cbn [char_free] in H. apply andb_true_iff in H as [Hy Hk].
  apply negb_true_iff in Hy.
  destruct a as [|x a].
  - cbn [append prefix]. destruct (ascii_dec y c) as [->|]; [|reflexivity].
    rewrite Ascii.eqb_refl in Hy. discriminate.
  - change (String x a ++ String c z) with (String x (a ++ String c z)).
    cbn [prefix]. destruct (ascii_dec y x); [apply IH; assumption|reflexivity].
Qed.

(** A needle that starts with the separator and holds no other one does
    not straddle a separator of the haystack. *)
Lemma str_contains_app_sep (c : ascii) (k a z : string) :
  char_free c k = true ->
  str_contains (String c k) (a ++ String c z) =
  str_contains (String c k) a || str_contains (String c k) (String c z).
Proof.
  intros Hk. induction a as [|x a IH].
  - reflexivity.
  - change (String x a ++ String c z) with (String x (a ++ String c z)).
    cbn [str_contains]. rewrite IH, orb_assoc. f_equal. f_equal.
    cbn [prefix]. destruct (ascii_dec c x); [|reflexivity].
    apply prefix_app_sep. assumption.
Qed.

Lemma str_contains_colon_found (a b : string) :
  str_contains ":" (a ++ ":" ++ b) = true.
Proof. apply (str_contains_found colon). Qed.

(** A location that holds a colon is neither empty nor a sentinel. *)
Lemma colon_not_reserved (loc : string) :
  str_contains ":" loc = true ->
  (loc =? "")%string = false /\
  json_in_strs (JStr loc) ("" :: SENTINELS) = false /\
  json_in_strs (JStr loc) SENTINELS = false.
Proof.
  intros H.
  assert (Hne : forall t, str_contains ":" t = false -> (loc =? t)%string = false).
  { intros t Ht. destruct (String.eqb_spec loc t) as [->|]; congruence. }
  cbn [json_in_strs SENTINELS existsb is_str].
  rewrite !Hne by reflexivity. auto.
Qed.

End Splitting.

(** X1.  [_parse_region] always returns one of the five regions of its
    tuple; it returns the default [us] when the location holds no region
    segment; and it reads the region back from a location with one region
    segment: for [head ++ "~region(r)" ++ tail], where neither [head] nor
    [tail] holds a region segment, it returns [r]. *)
Theorem parse_region_reads_segment :
  (forall location, In (_parse_region location) REGIONS)
  /\
  (forall location,
     (forall x, In x REGIONS ->
        str_contains ("~region(" ++ x ++ ")") location = false) ->
     _parse_region location = "us")
  /\
  (forall head r tail,
     In r REGIONS ->
     (forall x, In x REGIONS ->
        str_contains ("~region(" ++ x ++ ")") head = false) ->
     (forall x, In x REGIONS ->
        str_contains ("~region(" ++ x ++ ")") tail = false) ->
     _parse_region (head ++ "~region(" ++ r ++ ")" ++ tail) = r).
Proof.
  split; [|split].
  - intros location. unfold _parse_region, REGIONS. cbn [find].
    repeat match goal with
           | |- context [if ?b then _ else _] => destruct b
           end; cbn; auto 10.
  - intros location H. unfold _parse_region. cbn [find].
    rewrite !H by (unfold REGIONS; cbn; auto 10). reflexivity.
  - intros head r tail Hr Hhead Htail.
    assert (Hin : forall x, In x REGIONS ->
              str_contains ("~region(" ++ x ++ ")")
                           (head ++ "~region(" ++ r ++ ")" ++ tail)
              = (x =? r)%string).
    { intros x Hx.
      pose proof (Hhead x Hx) as Hh. pose proof (Htail x Hx) as Ht.
      change ("~region(" ++ x ++ ")") with (String tilde ("region(" ++ x ++ ")"))
        in *.
      change (head ++ "~region(" ++ r ++ ")" ++ tail)
        with (head ++ String tilde ("region(" ++ r ++ ")" ++ tail)).
      assert (Hfree : forall y, In y REGIONS ->
                char_free tilde ("region(" ++ y ++ ")") = true).
      { intros y Hy. unfold REGIONS in Hy. cbn in Hy.
        destruct Hy as [<-|[<-|[<-|[<-|[<-|[]]]]]]; reflexivity. }
      rewrite str_contains_app_sep by (apply Hfree; assumption).
      rewrite Hh. cbn [orb str_contains].
      replace (str_contains (String tilde ("region(" ++ x ++ ")"))
                 ("region(" ++ r ++ ")" ++ tail)) with false.
      2:{ symmetry.
          replace ("region(" ++ r ++ ")" ++ tail)
            with (("region(" ++ r ++ ")") ++ tail).
          - rewrite str_contains_skip by (apply Hfree; assumption).
            exact Ht.
          - cbn. rewrite <- append_assoc. reflexivity. }
      rewrite orb_false_r.
      unfold REGIONS in Hx, Hr. cbn in Hx, Hr.
      destruct Hx as [<-|[<-|[<-|[<-|[<-|[]]]]]];
        destruct Hr as [<-|[<-|[<-|[<-|[<-|[]]]]]];
        first [reflexivity | destruct tail; reflexivity]. }
    unfold _parse_region. cbn [find].
    rewrite !Hin by (unfold REGIONS; cbn; auto 10).
    unfold REGIONS in Hr. cbn in Hr.
    destruct Hr as [<-|[<-|[<-|[<-|[<-|[]]]]]]; reflexivity.
Qed.

(** The theorem at a friends+ instance in the European region, and at a
    location without a region segment. *)
Lemma parse_region_reads_segment_witness :
  _parse_region "wrld_1:12345~hidden(usr_2)~region(eu)~nonce(4f)" = "eu" /\
  _parse_region "wrld_1:12345~hidden(usr_2)" = "us".
Proof.
  destruct parse_region_reads_segment as (_ & Hdefault & Hread).
  split.
  - apply (Hread "wrld_1:12345~hidden(usr_2)" "eu" "~nonce(4f)").
    + unfold REGIONS. cbn. auto.
    + intros x Hx. unfold REGIONS in Hx. cbn in Hx.
      destruct Hx as [<-|[<-|[<-|[<-|[<-|[]]]]]]; reflexivity.
    + intros x Hx. unfold REGIONS in Hx. cbn in Hx.
      destruct Hx as [<-|[<-|[<-|[<-|[<-|[]]]]]]; reflexivity.
  - apply Hdefault. intros x Hx. unfold REGIONS in Hx. cbn in Hx.
    destruct Hx as [<-|[<-|[<-|[<-|[<-|[]]]]]]; reflexivity.
Defined.

Section EndpointLabel.

Lemma endpoint_label_segment (seg rest : string) :
  char_free slash seg = true ->
  rest = "" \/ (exists r, rest = String slash r) ->
  endpoint_label (String slash (seg ++ rest)) = seg.
Proof.
  intros Hseg Hrest. unfold endpoint_label.
  assert (Hc : str_contains "/" (String slash (seg ++ rest)) = true).
  { cbn [str_contains prefix]. destruct (seg ++ rest); reflexivity. }
  rewrite Hc. cbn [split_on]. rewrite Ascii.eqb_refl. cbn [nth].
  pose proof (split_on_nonempty slash (seg ++ rest)) as Hne.
  pose proof (hd_split_on_app slash seg rest Hseg) as Hhd.
  destruct (split_on slash (seg ++ rest)) as [|p ps]; [contradiction|].
  cbn [hd] in Hhd. rewrite Hhd.
  destruct Hrest as [->|[r ->]].
  - apply append_nil_r.
  - cbn [split_on]. rewrite Ascii.eqb_refl. apply append_nil_r.
Qed.

End EndpointLabel.

(** X2.  The histogram label [_get] takes from an endpoint is the first
    path segment, whatever follows it: the label of [/seg/rest] and of
    [/seg] is [seg], and an endpoint without a slash is its own label.  So
    every world lookup is observed under [worlds] and every instance
    lookup under [instances]: no world or instance id reaches a label. *)
Theorem endpoint_label_first_segment :
  (forall seg rest, char_free slash seg = true ->
     endpoint_label ("/" ++ seg ++ "/" ++ rest) = seg)
  /\
  (forall seg, char_free slash seg = true -> endpoint_label ("/" ++ seg) = seg)
  /\
  (forall ep, char_free slash ep = true -> endpoint_label ep = ep)
  /\
  (forall wid, endpoint_label ("/worlds/" ++ wid) = "worlds")
  /\
  (forall wid iid,
     endpoint_label ("/instances/" ++ wid ++ ":" ++ iid) = "instances").
Proof.
  split; [|split; [|split; [|split]]].
  - intros seg rest H.
    apply (endpoint_label_segment seg (String slash rest) H). eauto.
  - intros seg H.
    rewrite <- (append_nil_r seg) at 1.
    apply (endpoint_label_segment seg "" H). auto.
  - intros ep H. unfold endpoint_label.
    change "/" with (String slash "").
    rewrite str_contains_free by assumption. reflexivity.
  - intros wid.
    apply (endpoint_label_segment "worlds" (String slash wid) eq_refl). eauto.
  - intros wid iid.
    apply (endpoint_label_segment "instances"
             (String slash (wid ++ ":" ++ iid)) eq_refl). eauto.
Qed.

(** The theorem at the friends endpoint and at an endpoint without a
    slash. *)
Lemma endpoint_label_first_segment_witness :
  endpoint_label "/auth/user/friends" = "auth" /\
  endpoint_label "/visits" = "visits" /\
  endpoint_label "visits" = "visits".
Proof.
  destruct endpoint_label_first_segment as (Hseg & Hone & Hnone & _).
  split; [|split].
  - apply (Hseg "auth" "user/friends"). reflexivity.
  - apply (Hone "visits"). reflexivity.
  - apply Hnone. reflexivity.
Defined.

Section Locations.

Lemma instance_location_parts (wid iid tail : string) :
  char_free colon wid = true ->
  char_free colon iid = true ->
  char_free tilde iid = true ->
  tail = "" \/ (exists rest, tail = String tilde rest) ->
  exists more,
    split_on colon (wid ++ ":" ++ iid ++ tail)
    = wid :: (iid ++ hd "" (split_on colon tail)) :: more
    /\ hd "" (split_on tilde (iid ++ hd "" (split_on colon tail))) = iid.
Proof.
  intros Hw Hi Ht Htail.
  change (wid ++ ":" ++ iid ++ tail) with (wid ++ String colon (iid ++ tail)).
  rewrite split_on_app by assumption.
  pose proof (split_on_nonempty colon (iid ++ tail)) as Hne.
  pose proof (hd_split_on_app colon iid tail Hi) as Hhd.
  destruct (split_on colon (iid ++ tail)) as [|p more]; [contradiction|].
  cbn [hd] in Hhd. subst p. exists more. split; [reflexivity|].
  destruct Htail as [->|[rest ->]].
  - cbn [split_on hd]. rewrite append_nil_r.
    rewrite split_on_free by assumption. reflexivity.
  - assert (Hhead : exists q, hd "" (split_on colon (String tilde rest))
                              = String tilde q).
    { cbn [split_on]. change (Ascii.eqb tilde colon) with false. cbv iota.
      pose proof (split_on_nonempty colon rest) as Hr.
      destruct (split_on colon rest) as [|q qs]; [contradiction|].
      exists q. reflexivity. }
    destruct Hhead as [q ->]. apply hd_split_on_sep. assumption.
Qed.

End Locations.

(** X3.  The three passes of [collect_friends_online] read the same world
    out of an instance location.  For a location [wid:iid], alone or
    followed by [~] and further segments ([wid] without a colon, [iid]
    without a colon or a tilde), the first pass takes the world id [wid],
    the second pass takes the pair of [wid] and [iid], from which it builds
    the cache key [wid:iid], and the third pass takes [wid] and the
    instance type of the whole location. *)
Theorem location_passes_agree (wid iid tail : string) :
  char_free colon wid = true ->
  char_free colon iid = true ->
  char_free tilde iid = true ->
  tail = "" \/ (exists rest, tail = String tilde rest) ->
  let loc := wid ++ ":" ++ iid ++ tail in
  world_id_of_location (JStr loc) = inr (Some wid) /\
  instance_of_location (JStr loc) = inr (Some (wid, iid)) /\
  detail_of_location (JStr loc) = inr (Some (wid, _parse_instance_type loc)).
Proof.
  intros Hw Hi Ht Htail. cbn zeta.
  destruct (instance_location_parts wid iid tail Hw Hi Ht Htail)
    as (more & Hsplit & Hiid).
  pose proof (str_contains_colon_found wid (iid ++ tail)) as Hcolon.
  destruct (colon_not_reserved _ Hcolon) as (Hne & Hres & Hsent).
  unfold world_id_of_location, instance_of_location, detail_of_location.
  cbn [truthy lit_in py_bind]. rewrite Hne, Hres, Hsent, Hcolon, Hsplit.
  cbn [negb andb hd]. rewrite Hiid. auto.
Qed.

(** The theorem at a friends+ instance with a region segment and at a bare
    public instance. *)
Lemma location_passes_agree_witness :
  instance_of_location (JStr "wrld_ab:12345~hidden(usr_1)~region(eu)")
  = inr (Some ("wrld_ab", "12345")) /\
  world_id_of_location (JStr "wrld_ab:12345") = inr (Some "wrld_ab").
Proof.
  split.
  - apply (location_passes_agree "wrld_ab" "12345"
             "~hidden(usr_1)~region(eu)"); try reflexivity.
    right. exists "hidden(usr_1)~region(eu)". reflexivity.
  - apply (location_passes_agree "wrld_ab" "12345" ""); try reflexivity.
    left. reflexivity.
Defined.

(** X4.  A location without a colon that is neither empty nor one of the
    three reserved words is treated differently by the passes of
    [collect_friends_online]: the first pass takes the whole location for a
    world id (which the resolution loop then looks up and caches), while
    the second and the third pass see no instance in it.  And a location
    that is true but not a string (a number, a non-empty list or object)
    makes the first pass raise: only strings have [split]. *)
Theorem location_without_colon (loc : string) :
  loc <> "" -> ~ In loc SENTINELS -> char_free colon loc = true ->
  world_id_of_location (JStr loc) = inr (Some loc) /\
  instance_of_location (JStr loc) = inr None /\
  detail_of_location (JStr loc) = inr None /\
  (forall j, truthy j = true -> (forall s, j <> JStr s) ->
     world_id_of_location j = inl AttributeError).
Proof.
  intros Hne Hs Hfree.
  assert (Hcolon : str_contains ":" loc = false)
    by (apply (str_contains_free colon); assumption).
  assert (Hempty : (loc =? "")%string = false)
    by (apply String.eqb_neq; assumption).
  assert (Hsent : json_in_strs (JStr loc) SENTINELS = false).
  { destruct (json_in_strs (JStr loc) SENTINELS) eqn:E; [|reflexivity].
    exfalso. apply Hs. unfold json_in_strs in E.
    apply existsb_exists in E as (x & Hx & Hxe).
    cbn [is_str] in Hxe. apply String.eqb_eq in Hxe. subst. assumption. }
  assert (Hres : json_in_strs (JStr loc) ("" :: SENTINELS) = false).
  { change (json_in_strs (JStr loc) ("" :: SENTINELS))
      with ((loc =? "")%string || json_in_strs (JStr loc) SENTINELS).
    rewrite Hempty, Hsent. reflexivity. }
  unfold world_id_of_location, instance_of_location, detail_of_location.
  cbn [truthy lit_in py_bind]. rewrite Hempty, Hres, Hsent, Hcolon.
  cbn [negb andb orb]. rewrite split_on_free by assumption.
  split; [reflexivity|]. split; [reflexivity|]. split; [reflexivity|].
  intros j Hj Hstr. unfold world_id_of_location. rewrite Hj.
  destruct j; try reflexivity.
  exfalso. apply (Hstr s). reflexivity.
Qed.

(** The theorem at a bare world id. *)
Lemma location_without_colon_witness :
  world_id_of_location (JStr "wrld_ab") = inr (Some "wrld_ab") /\
  detail_of_location (JStr "wrld_ab") = inr None /\
  world_id_of_location (JNum 7) = inl AttributeError.
Proof.
  destruct (location_without_colon "wrld_ab") as (H1 & _ & H3 & H4).
  - discriminate.
  - cbn. intros [H|[H|[H|[]]]]; discriminate.
  - reflexivity.
  - split; [exact H1|]. split; [exact H3|].
    apply H4; [reflexivity|discriminate].
Defined.

(* ================================================================== *)
(** * The answers of the upstream *)
(* ================================================================== *)

Section Sent.

Lemma sent_app a b : sent (a ++ b) = (sent a ++ sent b)%list.
Proof. induction a as [|[] a IH]; cbn; rewrite ?IH; reflexivity. Qed.

Lemma sent_rev l : sent (List.rev l) = List.rev (sent l).
Proof.
  induction l as [|e l IH]; [reflexivity|].
  cbn [List.rev]. rewrite sent_app, IH.
  destruct e; cbn; auto using app_nil_r.
Qed.

Lemma sent_since s s' new :
  log s' = (new ++ log s)%list -> sent (since s s') = List.rev (sent new).
Proof. intros H. rewrite (since_extends _ _ _ H). apply sent_rev. Qed.

End Sent.

Section GetAnswers.

Context (cfg : Config) (env : Environment).

Lemma labels_eqb_refl (ls : list string) : labels_eqb ls ls = true.
Proof. apply labels_eqb_eq. reflexivity. Qed.

Lemma throttled_log s :
  log (throttled cfg s) =
  ((if now s - _last_request_time s <? REQUEST_DELAY cfg
    then [EvSleep (REQUEST_DELAY cfg - (now s - _last_request_time s))]
    else []) ++ log s)%list.
Proof. unfold throttled. cbn zeta. destruct (_ <? _); reflexivity. Qed.

Lemma throttled_rest s :
  authenticated (throttled cfg s) = authenticated s /\
  registry (throttled cfg s) = registry s /\
  _world_cache (throttled cfg s) = _world_cache s /\
  _instance_cache (throttled cfg s) = _instance_cache s /\
  next_id (throttled cfg s) = next_id s /\
  cycle (throttled cfg s) = cycle s.
Proof. unfold throttled. cbn zeta. destruct (_ <? _); repeat split. Qed.

Lemma session_get_run req s :
  let d := Z.of_nat (latency env (exchanges s) req) in
  session_get env req s =
  (count_exchange (pass_time d (EvRequest (now s) (now s + d) req) s),
   Ret (upstream env (exchanges s) req)).
Proof. reflexivity. Qed.

(** An observation changes the two children of the histogram under its
    label and nothing else. *)
Lemma observe_duration_run label d s :
  exists r,
    observe_duration label d s = (set_registry r s, Ret tt) /\
    observations label (set_registry r s) =
      (fst (observations label s) + 1, snd (observations label s) + d) /\
    (forall m ls,
       m <> API_REQUEST_DURATION_sum -> m <> API_REQUEST_DURATION_count ->
       sample m ls r = sample m ls (registry s)).
Proof.
  eexists. split; [reflexivity|]. split.
  - unfold observations, child_value. cbn [registry set_registry].
    rewrite !sample_registry_set, !labels_eqb_refl. reflexivity.
  - intros m ls H1 H2. cbn [registry set_registry].
    rewrite !sample_registry_set.
    destruct (metric_eqb API_REQUEST_DURATION_count m) eqn:E1.
    { apply metric_eqb_eq in E1. congruence. }
    destruct (metric_eqb API_REQUEST_DURATION_sum m) eqn:E2.
    { apply metric_eqb_eq in E2. congruence. }
    reflexivity.
Qed.

(** The state [_get] leaves, field by field. *)
Lemma _get_state ep ps s :
  let req := {| endpoint := ep; params := ps |} in
  let answer := upstream env (exchanges s) req in
  let issued := Z.max (now s) (_last_request_time s + REQUEST_DELAY cfg) in
  let completed := issued + Z.of_nat (latency env (exchanges s) req) in
  let elapsed := now s - _last_request_time s in
  let backoff := match answer with
                 | Response status _ => status =? 429
                 | RequestException => false
                 end in
  let s' := final (_get cfg env ep ps) s in
  log s' = ((if backoff then [EvSleep 10000] else [])
            ++ [EvRequest issued completed req]
            ++ (if elapsed <? REQUEST_DELAY cfg
                then [EvSleep (REQUEST_DELAY cfg - elapsed)] else [])
            ++ log s)%list /\
  now s' = completed + (if backoff then 10000 else 0) /\
  authenticated s' = match answer with
                     | Response status _ =>
                         if status =? 401 then false else authenticated s
                     | RequestException => authenticated s
                     end /\
  observations (endpoint_label ep) s' =
    match answer with
    | Response _ _ =>
        (fst (observations (endpoint_label ep) s) + 1,
         snd (observations (endpoint_label ep) s) + (completed - issued))
    | RequestException => observations (endpoint_label ep) s
    end /\
  (forall m ls,
     m <> API_REQUEST_DURATION_sum -> m <> API_REQUEST_DURATION_count ->
     child_value m ls s' = child_value m ls s) /\
  _world_cache s' = _world_cache s /\
  _instance_cache s' = _instance_cache s /\
  next_id s' = next_id s /\
  cycle s' = cycle s.
Proof.
  cbn zeta. unfold final, _get.
  rewrite (bind_run _ _ _ _ _ (_throttle_run cfg s)).
  unfold time. rewrite bind_gets_run.
  rewrite (bind_run _ _ _ _ _ (session_get_run _ (throttled cfg s))).
  rewrite throttled_exchanges.
  pose proof (throttled_now cfg s) as Hn.
  pose proof (throttled_log s) as Hl.
  destruct (throttled_rest s) as (Ha & Hr & Hw & Hi & Hid & Hc).
  set (req := {| endpoint := ep; params := ps |}).
  set (d := Z.of_nat (latency env (exchanges s) req)).
  set (s2 := count_exchange (pass_time _ _ (throttled cfg s))).
  assert (Hobs0 : observations (endpoint_label ep) s2
                  = observations (endpoint_label ep) s).
  { unfold observations, child_value, s2.
    cbn [registry count_exchange pass_time]. rewrite Hr. reflexivity. }
  destruct (upstream env (exchanges s) req) as [status body|].
  - rewrite bind_gets_run.
    destruct (observe_duration_run (endpoint_label ep)
                (now s2 - now (throttled cfg s)) s2)
      as (r & Hrun & Hobs & Hother).
    rewrite (bind_run _ _ _ _ _ Hrun).
    assert (Hd : now s2 - now (throttled cfg s) =
                 Z.max (now s) (_last_request_time s + REQUEST_DELAY cfg) + d
                 - Z.max (now s) (_last_request_time s + REQUEST_DELAY cfg)).
    { unfold s2. cbn [now count_exchange pass_time]. rewrite Hn.
      reflexivity. }
    rewrite Hd, Hobs0 in Hobs.
    assert (Hoth : forall m ls, m <> API_REQUEST_DURATION_sum ->
                     m <> API_REQUEST_DURATION_count ->
                     sample m ls r = sample m ls (registry s)).
    { intros m ls H1 H2. rewrite Hother by assumption. unfold s2.
      cbn [registry count_exchange pass_time]. rewrite Hr. reflexivity. }
    destruct (Z.eqb_spec status 200) as [->|H200];
      [|destruct (Z.eqb_spec status 401) as [->|H401];
        [|destruct (Z.eqb_spec status 429) as [->|H429]]].
    all: cbn [Z.eqb Pos.eqb app bind modify ret sleep Z.ltb Z.compare fst].
    all: repeat match goal with |- _ /\ _ => split end.
    all: try (intros m ls H1 H2; unfold child_value).
    all: try (unfold observations at 1, child_value).
    all: unfold s2;
      cbn [log now authenticated registry _world_cache _instance_cache
           next_id cycle set_registry count_exchange pass_time
           set_authenticated];
      fold s2.
    all: try assumption.
    all: try reflexivity.
    all: try (apply Hoth; assumption).
    all: try exact Hobs.
    all: try (rewrite Hl, Hn; reflexivity).
    all: try (rewrite Hn; lia).
  - cbn [ret fst app].
    repeat match goal with |- _ /\ _ => split end.
    all: try (intros m ls H1 H2; unfold child_value).
    all: try (unfold observations, child_value).
    all: unfold s2;
      cbn [log now authenticated registry _world_cache _instance_cache
           next_id cycle set_registry count_exchange pass_time
           set_authenticated].
    all: try assumption.
    all: try (rewrite Hr; reflexivity).
    all: try (rewrite Hl, Hn; reflexivity).
    all: try (rewrite Hn; lia).
Qed.

Lemma _get_sent ep ps s :
  sent (since s (final (_get cfg env ep ps) s))
  = [{| endpoint := ep; params := ps |}].
Proof.
  destruct (_get_state ep ps s) as (Hlog & _).
  rewrite !app_assoc in Hlog.
  rewrite (sent_since _ _ _ Hlog), !sent_app.
  repeat match goal with
         | |- context [if ?b then _ else _] => destruct b
         end; reflexivity.
Qed.

End GetAnswers.

(** X5.  What [_get] does with every answer of the upstream.  It sends
    exactly one request and never raises.  It returns the body of a 200
    answer and [None] for every other status and for a transport error.  A
    401 answer, and only that, clears [authenticated]; after a 429 answer,
    and only then, it sleeps for 10 seconds.  Every answer that comes with
    a status is observed once in the request histogram, under the first
    path segment of the endpoint and with the time the exchange took; a
    transport error is not observed.  The two caches are not touched. *)
Theorem get_handles_every_answer (cfg : Config) (env : Environment)
  (ep : string) (ps : list (string * string)) (s : State) :
  let req := {| endpoint := ep; params := ps |} in
  let answer := upstream env (exchanges s) req in
  let issued := Z.max (now s) (_last_request_time s + REQUEST_DELAY cfg) in
  let completed := issued + Z.of_nat (latency env (exchanges s) req) in
  let label := endpoint_label ep in
  let s' := final (_get cfg env ep ps) s in
  sent (since s s') = [req] /\
  exchanges s' = S (exchanges s) /\
  _world_cache s' = _world_cache s /\
  _instance_cache s' = _instance_cache s /\
  match answer with
  | Response status body =>
      snd (_get cfg env ep ps s)
      = Ret (if status =? 200 then body else JNull) /\
      authenticated s' = (if status =? 401 then false else authenticated s) /\
      now s' = completed + (if status =? 429 then 10000 else 0) /\
      observations label s' =
        (fst (observations label s) + 1,
         snd (observations label s) + (completed - issued))
  | RequestException =>
      snd (_get cfg env ep ps s) = Ret JNull /\
      authenticated s' = authenticated s /\
      now s' = completed /\
      observations label s' = observations label s
  end.
Proof.
  cbn zeta.
  destruct (_get_state cfg env ep ps s)
    as (_ & Hnow & Hauth & Hobs & _ & Hw & Hi & _).
  destruct (_get_effect cfg env ep ps s) as (_ & _ & Hx).
  pose proof (_get_returns cfg env ep ps s) as Hret.
  split; [apply _get_sent|]. split; [exact Hx|].
  split; [exact Hw|]. split; [exact Hi|].
  destruct (upstream env (exchanges s) {| endpoint := ep; params := ps |})
    as [status body|]; cbn [reply_json] in Hret.
  - auto.
  - rewrite Z.add_0_r in Hnow. auto.
Qed.

(** X6.  How two consecutive requests are spaced.  The second one is
    issued at the later of two times: [REQUEST_DELAY] after the first one
    was issued, and the time the first [_get] returned, which is the
    completion of its exchange plus, after a 429 answer, the 10 seconds of
    back-off.  So after a 429 answer the next request, whatever it is, is
    issued at least 10 seconds after the rate-limited exchange completed. *)
Theorem rate_limit_delays_next_request (cfg : Config) (env : Environment)
  (ep ep' : string) (ps ps' : list (string * string)) (s : State) :
  let req := {| endpoint := ep; params := ps |} in
  let answer := upstream env (exchanges s) req in
  let issued := Z.max (now s) (_last_request_time s + REQUEST_DELAY cfg) in
  let completed := issued + Z.of_nat (latency env (exchanges s) req) in
  let backoff := match answer with
                 | Response 429 _ => 10000
                 | _ => 0
                 end in
  let s1 := final (_get cfg env ep ps) s in
  let s2 := final (_get cfg env ep' ps') s1 in
  let issued' := Z.max (completed + backoff) (issued + REQUEST_DELAY cfg) in
  (exists completed',
     requests_of (log s2)
     = (issued', completed') :: (issued, completed) :: requests_of (log s))
  /\ completed + backoff <= issued'
  /\ issued + REQUEST_DELAY cfg <= issued'.
Proof.
  cbn zeta.
  destruct (_get_state cfg env ep ps s) as (_ & Hnow & _).
  destruct (_get_effect cfg env ep ps s) as (Hr1 & Hl1 & _).
  destruct (_get_effect cfg env ep' ps' (final (_get cfg env ep ps) s))
    as (Hr2 & _ & _).
  rewrite Hr1, Hl1, Hnow in Hr2.
  assert (Hb : (if match upstream env (exchanges s)
                           {| endpoint := ep; params := ps |} with
                   | Response status _ => status =? 429
                   | RequestException => false
                   end then 10000 else 0)
               = match upstream env (exchanges s)
                         {| endpoint := ep; params := ps |} with
                 | Response 429 _ => 10000
                 | _ => 0
                 end).
  { destruct (upstream env (exchanges s) _) as [status body|];
      [|reflexivity].
    destruct (Z.eqb_spec status 429) as [->|Hne]; [reflexivity|].
    destruct status as [|p|p]; try reflexivity.
    repeat (destruct p as [p|p|]; try reflexivity). congruence. }
  rewrite Hb in Hr2.
  split; [eexists; exact Hr2|]. split; lia.
Qed.

Section Authentication.

Context (cfg : Config) (env : Environment).

Lemma has_id_object fields :
  assoc "id" fields <> None -> has_id (JObj fields) = inr true.
Proof.
  intros H. unfold has_id. cbn [truthy lit_in].
  destruct fields as [|kv fields]; [contradiction H; reflexivity|].
  destruct (assoc "id" (kv :: fields)); [reflexivity|contradiction].
Qed.

(** [authenticate] once its request has been answered with [resp]. *)
Lemma authenticate_asks s :
  let resp := reply_json (upstream env (exchanges s)
                            {| endpoint := "/auth/user"; params := [] |}) in
  let asked := final (_get cfg env "/auth/user" []) s in
  (AUTH_COOKIE cfg <> "" ->
     authenticate cfg env s =
     match has_id resp with
     | inl e => (asked, Exc e)
     | inr false => (asked, Ret false)
     | inr true =>
         match py_get resp "displayName" JNull with
         | inl e => (asked, Exc e)
         | inr _ => (set_authenticated true asked, Ret true)
         end
     end)
  /\
  (AUTH_COOKIE cfg = "" -> USERNAME cfg <> "" -> PASSWORD cfg <> "" ->
     authenticate cfg env s =
     match has_id resp with
     | inl e => (asked, Exc e)
     | inr false => (asked, Ret false)
     | inr true =>
         match py_get resp "requiresTwoFactorAuth" JNull with
         | inl e => (asked, Exc e)
         | inr two_factor =>
             if truthy two_factor then (asked, Ret false)
             else match py_get resp "displayName" JNull with
                  | inl e => (asked, Exc e)
                  | inr _ => (set_authenticated true asked, Ret true)
                  end
         end
     end)
  /\
  (AUTH_COOKIE cfg = "" -> USERNAME cfg = "" \/ PASSWORD cfg = "" ->
     authenticate cfg env s = (s, Ret false)).
Proof.
  cbn zeta. unfold authenticate. split; [|split].
  - intros Hc. apply String.eqb_neq in Hc. rewrite Hc. cbn [negb].
    rewrite (bind_run _ _ _ _ _ (_get_run cfg env _ _ s)).
    rewrite bind_lift_run.
    destruct (has_id _) as [e|[|]]; try reflexivity.
    rewrite bind_lift_run. destruct (py_get _ _ _); reflexivity.
  - intros Hc Hu Hp. apply String.eqb_neq in Hu, Hp.
    rewrite Hc, Hu, Hp. cbn [String.eqb negb andb].
    rewrite (bind_run _ _ _ _ _ (_get_run cfg env _ _ s)).
    rewrite bind_lift_run.
    destruct (has_id _) as [e|[|]]; try reflexivity.
    rewrite bind_lift_run.
    destruct (py_get _ "requiresTwoFactorAuth" _) as [e|tf]; [reflexivity|].
    destruct (truthy tf); [reflexivity|].
    rewrite bind_lift_run. destruct (py_get _ _ _); reflexivity.
  - intros Hc [Hu|Hp]; rewrite Hc, ?Hu, ?Hp; cbn [String.eqb negb andb].
    + reflexivity.
    + destruct (negb (USERNAME cfg =? "")%string); reflexivity.
Qed.

End Authentication.

(** X7.  How [authenticate] decides.  Without credentials (no cookie, and
    no user name or no password) it returns [False] without sending
    anything.  With a cookie it sends one request for [/auth/user] and
    returns [True], marking the client authenticated, when the answer is an
    object with an [id]; two-factor authentication is not looked at.  With
    a user name and a password instead, an answer with an [id] whose
    [requiresTwoFactorAuth] is true is refused.  In both cases an answer
    without an [id], the [None] of a failed request included, gives [False]
    and leaves the client as the request left it. *)
Theorem authenticate_decides (cfg : Config) (env : Environment) (s : State) :
  let resp := reply_json (upstream env (exchanges s)
                            {| endpoint := "/auth/user"; params := [] |}) in
  let asked := final (_get cfg env "/auth/user" []) s in
  (AUTH_COOKIE cfg = "" -> USERNAME cfg = "" \/ PASSWORD cfg = "" ->
     authenticate cfg env s = (s, Ret false))
  /\
  (AUTH_COOKIE cfg <> "" ->
     (forall fields, resp = JObj fields -> assoc "id" fields <> None ->
        authenticate cfg env s = (set_authenticated true asked, Ret true)) /\
     (has_id resp = inr false ->
        authenticate cfg env s = (asked, Ret false)))
  /\
  (AUTH_COOKIE cfg = "" -> USERNAME cfg <> "" -> PASSWORD cfg <> "" ->
     (forall fields, resp = JObj fields -> assoc "id" fields <> None ->
        authenticate cfg env s =
        if truthy (match assoc "requiresTwoFactorAuth" fields with
                   | Some v => v
                   | None => JNull
                   end)
        then (asked, Ret false)
        else (set_authenticated true asked, Ret true)) /\
     (has_id resp = inr false ->
        authenticate cfg env s = (asked, Ret false))).
Proof.
  cbn zeta.
  destruct (authenticate_asks cfg env s) as (Hcookie & Hcred & Hnone).
  split; [exact Hnone|]. split.
  - intros Hc. rewrite (Hcookie Hc). split.
    + intros fields -> Hid. rewrite has_id_object by assumption. reflexivity.
    + intros ->. reflexivity.
  - intros Hc Hu Hp. rewrite (Hcred Hc Hu Hp). split.
    + intros fields -> Hid. rewrite has_id_object by assumption.
      cbn [py_get]. destruct (truthy _); reflexivity.
    + intros ->. reflexivity.
Qed.

Section Reauthentication.

Context (cfg : Config) (env : Environment).

(** Where [authenticate] stops: where it started, or where its request
    left the client, authenticated or not. *)
Lemma authenticate_final s :
  let asked := final (_get cfg env "/auth/user" []) s in
  let s1 := final (authenticate cfg env) s in
  (s1 = s /\ snd (authenticate cfg env s) = Ret false) \/
  (s1 = asked /\ snd (authenticate cfg env s) <> Ret true) \/
  (s1 = set_authenticated true asked /\
   snd (authenticate cfg env s) = Ret true).
Proof.
  cbn zeta.
  destruct (authenticate_asks cfg env s) as (Hcookie & Hcred & Hnone).
  change (final (authenticate cfg env) s) with (fst (authenticate cfg env s)).
  destruct (String.eqb_spec (AUTH_COOKIE cfg) "") as [Hc|Hc].
  - destruct (String.eqb_spec (USERNAME cfg) "") as [Hu|Hu];
      [left; rewrite Hnone by auto; auto|].
    destruct (String.eqb_spec (PASSWORD cfg) "") as [Hp|Hp];
      [left; rewrite Hnone by auto; auto|].
    right. rewrite (Hcred Hc Hu Hp). clear Hcookie Hcred Hnone.
    destruct (has_id _) as [e|[|]]; [left; split; [reflexivity|discriminate]
                                    | |left; split; [reflexivity|discriminate]].
    destruct (py_get _ "requiresTwoFactorAuth" _) as [e|tf];
      [left; split; [reflexivity|discriminate]|].
    destruct (truthy tf); [left; split; [reflexivity|discriminate]|].
    destruct (py_get _ _ _);
      [left; split; [reflexivity|discriminate]|right; auto].
  - right. rewrite (Hcookie Hc). clear Hcookie Hcred Hnone.
    destruct (has_id _) as [e|[|]]; [left; split; [reflexivity|discriminate]
                                    | |left; split; [reflexivity|discriminate]].
    destruct (py_get _ _ _);
      [left; split; [reflexivity|discriminate]|right; auto].
Qed.

Lemma authenticate_outcome s :
  (exists ok, snd (authenticate cfg env s) = Ret ok) \/
  (exists e, snd (authenticate cfg env s) = Exc e).
Proof.
  destruct (authenticate_asks cfg env s) as (Hcookie & Hcred & Hnone).
  destruct (String.eqb_spec (AUTH_COOKIE cfg) "") as [Hc|Hc].
  - destruct (String.eqb_spec (USERNAME cfg) "") as [Hu|Hu];
      [left; rewrite Hnone by auto; exists false; reflexivity|].
    destruct (String.eqb_spec (PASSWORD cfg) "") as [Hp|Hp];
      [left; rewrite Hnone by auto; exists false; reflexivity|].
    rewrite (Hcred Hc Hu Hp).
    destruct (has_id _) as [e|[|]]; cbn [snd]; eauto.
    destruct (py_get _ "requiresTwoFactorAuth" _) as [e|tf]; cbn [snd]; eauto.
    destruct (truthy tf); cbn [snd]; eauto.
    destruct (py_get _ _ _); cbn [snd]; eauto.
  - rewrite (Hcookie Hc).
    destruct (has_id _) as [e|[|]]; cbn [snd]; eauto.
    destruct (py_get _ _ _); cbn [snd]; eauto.
Qed.

(** [authenticate] sends at most its one request. *)
Lemma authenticate_sent s :
  let s1 := final (authenticate cfg env) s in
  sent (since s s1) = [] \/
  sent (since s s1) = [{| endpoint := "/auth/user"; params := [] |}].
Proof.
  cbn zeta.
  destruct (authenticate_final s) as [[-> _]|[[-> _]|[-> _]]].
  - left. rewrite (sent_since s s []); reflexivity.
  - right. apply _get_sent.
  - right. apply (_get_sent cfg env "/auth/user" [] s).
Qed.

Lemma authenticate_true s :
  snd (authenticate cfg env s) = Ret true ->
  authenticated (final (authenticate cfg env) s) = true.
Proof.
  intros H. destruct (authenticate_final s) as [[_ H']|[[_ H']|[-> _]]].
  - congruence.
  - contradiction.
  - reflexivity.
Qed.

Lemma authenticate_false s :
  authenticated s = false ->
  snd (authenticate cfg env s) <> Ret true ->
  authenticated (final (authenticate cfg env) s) = false.
Proof.
  intros Hs H. destruct (authenticate_final s) as [[-> _]|[[-> _]|[_ H']]].
  - assumption.
  - destruct (_get_state cfg env "/auth/user" [] s) as (_ & _ & Ha & _).
    rewrite Ha, Hs. destruct (upstream env _ _); [|reflexivity].
    destruct (_ =? 401); reflexivity.
  - contradiction.
Qed.

(** A turn of the main loop of a client that is not authenticated, by the
    outcome of [authenticate]. *)
Lemma main_iteration_unauthenticated s :
  authenticated s = false ->
  0 <= SCRAPE_INTERVAL cfg ->
  let s1 := final (authenticate cfg env) s in
  let pause := 1000 * SCRAPE_INTERVAL cfg in
  main_iteration cfg env s =
  match snd (authenticate cfg env s) with
  | Ret false => (pass_time 60000 (EvSleep 60000) s1, Ret tt)
  | Ret true => main_iteration cfg env s1
  | Exc _ =>
      (pass_time pause (EvSleep pause)
         (set_registry
            (registry_set SCRAPE_ERRORS ["main_loop"]
               (main_loop_errors s1 + 1) (registry s1)) s1),
       Ret tt)
  | SystemExit => (s1, SystemExit)
  | Diverge => (s1, Diverge)
  end.
Proof.
  intros Hauth Hpos. cbn zeta.
  pose proof (authenticate_true s) as Htrue.
  unfold main_iteration at 1, try_except.
  unfold bind at 1. rewrite bind_gets_run, Hauth.
  unfold bind at 1.
  unfold final in *.
  destruct (authenticate cfg env s) as [s1 [[|]|e| |]]; cbn [fst snd negb] in *.
  - symmetry. unfold main_iteration, try_except.
    unfold bind at 1. rewrite bind_gets_run, (Htrue eq_refl).
    unfold bind at 1. reflexivity.
  - reflexivity.
  - unfold counter_inc, counter_add. rewrite bind_modify_run. cbn [ret].
    unfold sleep. destruct (Z.ltb_spec (1000 * SCRAPE_INTERVAL cfg) 0);
      [lia|reflexivity].
  - reflexivity.
  - reflexivity.
Qed.

End Reauthentication.

(** The theorem for a client with a password whose account asks for a
    second factor, for the same account reached with a cookie, and for a
    client without credentials. *)
Lemma authenticate_decides_witness :
  snd (authenticate config_with_password (static_env api_two_factor 100)
                    (initial_state 0)) = Ret false /\
  snd (authenticate default_config (static_env api_two_factor 100)
                    (initial_state 0)) = Ret true /\
  authenticate config_without_credentials (static_env api_two_factor 100)
               (initial_state 0) = (initial_state 0, Ret false).
Proof.
  split; [|split].
  - destruct (authenticate_decides config_with_password
                (static_env api_two_factor 100) (initial_state 0))
      as (_ & _ & Hpw).
    destruct Hpw as [Hobj _]; [reflexivity|discriminate|discriminate|].
    rewrite (Hobj [("id", JStr "usr_1");
                   ("requiresTwoFactorAuth", JBool true)]);
      [reflexivity|reflexivity|discriminate].
  - destruct (authenticate_decides default_config
                (static_env api_two_factor 100) (initial_state 0))
      as (_ & Hcookie & _).
    destruct Hcookie as [Hobj _]; [discriminate|].
    rewrite (Hobj [("id", JStr "usr_1");
                   ("requiresTwoFactorAuth", JBool true)]);
      [reflexivity|reflexivity|discriminate].
  - destruct (authenticate_decides config_without_credentials
                (static_env api_two_factor 100) (initial_state 0))
      as (Hnone & _).
    apply Hnone; [reflexivity|left; reflexivity].
Defined.

Section MainAuthentication.

Context (cfg : Config) (env : Environment).

Lemma authenticate_same_child m ls s :
  m <> API_REQUEST_DURATION_sum -> m <> API_REQUEST_DURATION_count ->
  child_value m ls (final (authenticate cfg env) s) = child_value m ls s.
Proof.
  intros H1 H2.
  destruct (_get_state cfg env "/auth/user" [] s)
    as (_ & _ & _ & _ & Hother & _).
  destruct (authenticate_final cfg env s) as [[-> _]|[[-> _]|[-> _]]].
  - reflexivity.
  - apply Hother; assumption.
  - apply (Hother m ls H1 H2).
Qed.

(** A turn of the loop of an authenticated client marks one cycle. *)
Lemma main_iteration_marks s :
  authenticated s = true ->
  0 <= SCRAPE_INTERVAL cfg ->
  let s' := final (main_iteration cfg env) s in
  (exists new,
     log s' = (new ++ EvCycle (cycle s + 1) :: log s)%list /\
     cycles_of new = []) /\
  cycle s' = cycle s + 1.
Proof.
  intros Hauth Hpos. cbn zeta.
  pose proof (main_iteration_authenticated cfg env s Hauth Hpos) as Hit.
  cbn zeta in Hit.
  pose proof (scrape_all_after_mark cfg env (cycle s + 1)
                (set_cycle (cycle s + 1) s)) as Hsc.
  set (s2 := final (scrape_all cfg env (cycle s + 1))
                   (set_cycle (cycle s + 1) s)) in *.
  assert (Hpause : forall r,
            same_cycle s2
              (pass_time (1000 * SCRAPE_INTERVAL cfg)
                         (EvSleep (1000 * SCRAPE_INTERVAL cfg))
                         (set_registry r s2)))
    by (intros r; same_cycle_leaf).
  assert (Hfinal : same_cycle s2 (final (main_iteration cfg env) s)).
  { unfold final at 1. rewrite Hit.
    destruct (snd (scrape_all cfg env (cycle s + 1)
                     (set_cycle (cycle s + 1) s))); cbn [fst].
    - apply (Hpause (registry s2)).
    - apply Hpause.
    - apply pre_refl.
    - apply pre_refl. }
  destruct (pre_trans _ _ _ Hsc Hfinal) as [(new & Hlog & Hc) Hcycle].
  split; [|exact Hcycle]. exists new. split; assumption.
Qed.

End MainAuthentication.

(** X8.  [main] starts no scrape cycle unless its first [authenticate]
    returned [True].  When [authenticate] returns [False], [main] exits
    (the [sys.exit(1)] of the source) in the state [authenticate] left;
    when [authenticate] raises, the exception leaves [main], which has no
    handler around this call.  In both cases no cycle was started, no
    collector was entered, and at most the one request of [authenticate]
    was sent; without credentials nothing at all was sent. *)
Theorem main_needs_authentication (cfg : Config) (env : Environment)
  (turns : nat) (s : State) :
  let s1 := final (authenticate cfg env) s in
  let s' := final (main cfg env turns) s in
  (AUTH_COOKIE cfg = "" -> USERNAME cfg = "" \/ PASSWORD cfg = "" ->
     main cfg env turns s = (s, SystemExit))
  /\
  (snd (authenticate cfg env s) = Ret false ->
     main cfg env turns s = (s1, SystemExit))
  /\
  (forall e, snd (authenticate cfg env s) = Exc e ->
     main cfg env turns s = (s1, Exc e))
  /\
  (snd (authenticate cfg env s) <> Ret true ->
     cycles_of (since s s') = [] /\
     collectors_of (since s s') = [] /\
     (sent (since s s') = [] \/ sent (since s s') = [auth_request])).
Proof.
  cbn zeta.
  assert (Hstop : snd (authenticate cfg env s) <> Ret true ->
            final (main cfg env turns) s = final (authenticate cfg env) s).
  { intros H. unfold main. rewrite final_bind.
    destruct (snd (authenticate cfg env s)) as [[|]| | |];
      try reflexivity. contradiction. }
  split; [|split; [|split]].
  - intros Hc Hu. unfold main.
    destruct (authenticate_asks cfg env s) as (_ & _ & Hnone).
    rewrite (bind_run _ _ _ _ _ (Hnone Hc Hu)). reflexivity.
  - intros H. unfold main, final.
    rewrite (bind_run _ _ _ _ _ (eq_trans (run_eq _ _) (f_equal (pair _) H))).
    reflexivity.
  - intros e H. unfold main, bind, final.
    rewrite (run_eq (authenticate cfg env) s), H. reflexivity.
  - intros H. rewrite (Hstop H).
    destruct (authenticate_quiet cfg env s) as [(new & Hlog & Hc & Hy) _].
    rewrite (since_extends _ _ _ Hlog).
    rewrite cycles_of_rev, collectors_of_rev, Hc, Hy.
    split; [reflexivity|]. split; [reflexivity|].
    rewrite <- (since_extends _ _ _ Hlog). apply authenticate_sent.
Qed.

(** The theorem for a client without credentials and for a client whose
    cookie the upstream refuses. *)
Lemma main_needs_authentication_witness :
  main config_without_credentials (static_env api_unauthorized 100) 3
       (initial_state 0) = (initial_state 0, SystemExit) /\
  snd (main default_config (static_env api_unauthorized 100) 3
            (initial_state 0)) = SystemExit.
Proof.
  split.
  - destruct (main_needs_authentication config_without_credentials
                (static_env api_unauthorized 100) 3 (initial_state 0))
      as (Hnone & _).
    apply Hnone; [reflexivity|left; reflexivity].
  - destruct (main_needs_authentication default_config
                (static_env api_unauthorized 100) 3 (initial_state 0))
      as (_ & Hfalse & _).
    rewrite Hfalse; reflexivity.
Defined.

(** X9.  A turn of the main loop that finds the client not authenticated
    calls [authenticate] first.  When that returns [False] the turn sleeps
    60 seconds and ends there: the cycle counter does not move, no cycle
    is started, no error is counted, the sleep of [SCRAPE_INTERVAL] is
    skipped and the client is still not authenticated, so the next turn
    tries again.  When it returns [True] the turn goes on with the next
    cycle, numbered one more than the counter.  When it raises, the
    exception is caught by the loop, counted under [main_loop], and the
    turn sleeps for [SCRAPE_INTERVAL] without having started a cycle. *)
Theorem reauthentication_in_the_loop (cfg : Config) (env : Environment)
  (s : State) :
  authenticated s = false ->
  0 <= SCRAPE_INTERVAL cfg ->
  let s1 := final (authenticate cfg env) s in
  let s' := final (main_iteration cfg env) s in
  (snd (authenticate cfg env s) = Ret false ->
     snd (main_iteration cfg env s) = Ret tt /\
     log s' = EvSleep 60000 :: log s1 /\
     cycle s' = cycle s /\
     cycles_of (since s s') = [] /\
     registry s' = registry s1 /\
     authenticated s' = false)
  /\
  (snd (authenticate cfg env s) = Ret true ->
     cycles_of (since s s') = [cycle s + 1] /\ cycle s' = cycle s + 1)
  /\
  (forall e, snd (authenticate cfg env s) = Exc e ->
     snd (main_iteration cfg env s) = Ret tt /\
     log s' = EvSleep (1000 * SCRAPE_INTERVAL cfg) :: log s1 /\
     cycle s' = cycle s /\
     cycles_of (since s s') = [] /\
     main_loop_errors s' = main_loop_errors s + 1).
Proof.
  intros Hauth Hpos. cbn zeta.
  pose proof (main_iteration_unauthenticated cfg env s Hauth Hpos) as Hit.
  cbn zeta in Hit.
  destruct (authenticate_quiet cfg env s) as [(new & Hlog & Hc & Hy) Hcycle].
  set (s1 := final (authenticate cfg env) s) in *.
  split; [|split].
  - intros H. rewrite H in Hit.
    change (final (main_iteration cfg env) s)
      with (fst (main_iteration cfg env s)).
    rewrite Hit. cbn [fst snd log cycle registry authenticated pass_time].
    split; [reflexivity|]. split; [reflexivity|]. split; [exact Hcycle|].
    split; [|split; [reflexivity|]].
    + rewrite (since_extends s _ (EvSleep 60000 :: new)).
      * rewrite cycles_of_rev. cbn [cycles_of]. rewrite Hy. reflexivity.
      * cbn [log pass_time]. rewrite Hlog. reflexivity.
    + apply authenticate_false; [assumption|]. rewrite H. discriminate.
  - intros H. rewrite H in Hit.
    destruct (main_iteration_marks cfg env s1
                (authenticate_true cfg env s H) Hpos)
      as [(new' & Hlog' & Hy') Hcycle'].
    change (final (main_iteration cfg env) s)
      with (fst (main_iteration cfg env s)).
    rewrite Hit.
    change (fst (main_iteration cfg env s1))
      with (final (main_iteration cfg env) s1).
    rewrite Hcycle', Hcycle. split; [|reflexivity].
    rewrite (since_extends s _ (new' ++ EvCycle (cycle s1 + 1) :: new)).
    + rewrite cycles_of_rev, cycles_of_app. cbn [cycles_of].
      rewrite Hy, Hy', Hcycle. reflexivity.
    + rewrite Hlog', Hlog, <- app_assoc. reflexivity.
  - intros e H. rewrite H in Hit.
    change (final (main_iteration cfg env) s)
      with (fst (main_iteration cfg env s)).
    rewrite Hit. cbn [fst snd log cycle registry pass_time set_registry].
    split; [reflexivity|]. split; [reflexivity|]. split; [exact Hcycle|].
    split.
    + rewrite (since_extends s _
                 (EvSleep (1000 * SCRAPE_INTERVAL cfg) :: new)).
      * rewrite cycles_of_rev. cbn [cycles_of]. rewrite Hy. reflexivity.
      * cbn [log pass_time set_registry]. rewrite Hlog. reflexivity.
    + unfold main_loop_errors at 1, child_value.
      cbn [registry pass_time set_registry].
      rewrite sample_registry_set, metric_eqb_refl, labels_eqb_refl.
      cbn [andb]. f_equal. unfold main_loop_errors, s1.
      rewrite (authenticate_same_child cfg env SCRAPE_ERRORS ["main_loop"] s)
        by discriminate.
      reflexivity.
Qed.

(** The theorem for a client whose session has expired and whose cookie
    the upstream refuses. *)
Lemma reauthentication_in_the_loop_witness :
  let s := initial_state 0 in
  let s' := final (main_iteration default_config
                     (static_env api_unauthorized 100)) s in
  cycle s' = 0 /\ sleeps_of (since s s') = [1500; 60000].
Proof.
  cbn zeta.
  destruct (reauthentication_in_the_loop default_config
              (static_env api_unauthorized 100) (initial_state 0)
              eq_refl) as (Hfalse & _).
  - discriminate.
  - destruct Hfalse as (_ & Hlog & Hcycle & _); [reflexivity|].
    split; [exact Hcycle|].
    unfold since. rewrite Hlog. reflexivity.
Defined.

(* ================================================================== *)
(** * The platform and the current user *)
(* ================================================================== *)

(** Decides the comparisons of metrics and of closed label lists that
    reading a sample leaves. *)
Ltac decide_keys :=
  repeat match goal with
         | |- context [metric_eqb ?a ?b] =>
             let v := eval cbv in (metric_eqb a b) in
             lazymatch v with
             | true => change (metric_eqb a b) with true
             | false => change (metric_eqb a b) with false
             end
         | |- context [labels_eqb ?a ?a] => rewrite (labels_eqb_refl a)
         | |- context [labels_eqb ?a ?b] =>
             let v := eval cbv in (labels_eqb a b) in
             lazymatch v with
             | true => change (labels_eqb a b) with true
             | false => change (labels_eqb a b) with false
             end
         end;
  cbn [andb].

Ltac read_samples :=
  unfold child_value;
  cbn [registry set_registry set_authenticated set_last_request_time
       pass_time count_exchange set_world_cache set_instance_cache
       bump_next_id set_cycle push_event];
  repeat (rewrite sample_registry_set; decide_keys).

Section Platform.

Context (cfg : Config) (env : Environment).

Lemma since_same_log s s1 s2 : log s2 = log s1 -> since s s2 = since s s1.
Proof. intros H. unfold since. rewrite H. reflexivity. Qed.

End Platform.

Section FloatOfInt.



End FloatOfInt.



Section CurrentUser.

Context (cfg : Config) (env : Environment).

Lemma has_id_false_run s :
  has_id (reply_json (upstream env (exchanges s) auth_request)) = inr false ->
  collect_current_user cfg env s =
  (let s1 := final (_get cfg env "/auth/user" []) s in
   set_registry
     (registry_set SCRAPE_ERRORS ["auth_user"]
        (error_count "auth_user" s1 + 1) (registry s1)) s1,
   Ret JNull).
Proof.
  intros H. unfold collect_current_user.
  rewrite (bind_run _ _ _ _ _ (_get_run cfg env _ _ s)).
  change {| endpoint := "/auth/user"; params := [] |} with auth_request.
  rewrite bind_lift_run, H. reflexivity.
Qed.

End CurrentUser.

(** X11.  When the answer to [/auth/user] has no [id] (it is [None]
    after any failure, or an object, list or string that holds no [id]),
    [collect_current_user] counts one error under [auth_user] and returns
    [None]; it touches no other metric, so the user and friend gauges keep
    the values of the last successful call.  When the answer is a number
    other than 0 the membership test itself raises a [TypeError]. *)
Theorem current_user_without_id (cfg : Config) (env : Environment)
  (s : State) :
  let reply := reply_json (upstream env (exchanges s) auth_request) in
  let s' := final (collect_current_user cfg env) s in
  (has_id reply = inr false ->
     snd (collect_current_user cfg env s) = Ret JNull /\
     error_count "auth_user" s' = error_count "auth_user" s + 1 /\
     sent (since s s') = [auth_request] /\
     (forall m ls,
        m <> API_REQUEST_DURATION_sum -> m <> API_REQUEST_DURATION_count ->
        (m, ls) <> (SCRAPE_ERRORS, ["auth_user"]) ->
        child_value m ls s' = child_value m ls s))
  /\
  (forall z, z <> 0 -> reply = JNum z ->
     snd (collect_current_user cfg env s) = Exc TypeError /\
     error_count "auth_user" s' = error_count "auth_user" s).
Proof.
  cbn zeta.
  destruct (_get_state cfg env "/auth/user" [] s)
    as (_ & _ & _ & _ & Hother & _).
  pose proof (_get_sent cfg env "/auth/user" [] s) as Hsent.
  split.
  - intros H. pose proof (has_id_false_run cfg env s H) as Hrun.
    cbn zeta in Hrun.
    change (final (collect_current_user cfg env) s)
      with (fst (collect_current_user cfg env s)).
    rewrite Hrun. cbn [fst snd].
    split; [reflexivity|]. split; [|split].
    + unfold error_count at 1. read_samples. f_equal.
      unfold error_count. rewrite Hother by discriminate. reflexivity.
    + rewrite (since_same_log s (final (_get cfg env "/auth/user" []) s))
        by reflexivity.
      exact Hsent.
    + intros m ls H1 H2 Hne. unfold child_value.
      cbn [registry set_registry]. rewrite sample_registry_set.
      destruct (metric_eqb SCRAPE_ERRORS m && labels_eqb ["auth_user"] ls)
        eqn:E.
      * apply key_match_eq in E as [<- <-]. contradiction.
      * apply Hother; assumption.
  - intros z Hz Hreply.
    change (final (collect_current_user cfg env) s)
      with (fst (collect_current_user cfg env s)).
    unfold collect_current_user.
    rewrite (bind_run _ _ _ _ _ (_get_run cfg env _ _ s)).
    change {| endpoint := "/auth/user"; params := [] |} with auth_request.
    rewrite Hreply, bind_lift_run. unfold has_id. cbn [truthy].
    apply Z.eqb_neq in Hz. rewrite Hz. cbn [negb lit_in fst snd].
    split; [reflexivity|].
    unfold error_count. rewrite Hother by discriminate. reflexivity.
Qed.

(** The theorem against an upstream that refuses the request: the error is
    counted and the gauge of online friends, set by an earlier call, is
    not touched. *)
Lemma current_user_without_id_witness :
  let s := final (collect_current_user default_config
                    (static_env api_two_friends 100)) (initial_state 0) in
  let s' := final (collect_current_user default_config
                     (static_env api_unauthorized 100)) s in
  error_count "auth_user" s' = 1 /\
  child_value FRIENDS_ONLINE [] s' = Some 2.
Proof.
  cbn zeta.
  destruct (current_user_without_id default_config
              (static_env api_unauthorized 100)
              (final (collect_current_user default_config
                        (static_env api_two_friends 100)) (initial_state 0)))
    as (Hfail & _).
  destruct Hfail as (_ & Herr & _ & Hsame); [reflexivity|].
  split.
  - rewrite Herr. reflexivity.
  - rewrite Hsame; [reflexivity|discriminate|discriminate|discriminate].
Defined.

Section CurrentUserGauges.

Context (cfg : Config) (env : Environment).

(** [USER_STATUS.state(current)], when it is reached: the five children of
    the enum are set, the one of the current state to 1. *)
Lemma enum_state_when (b : bool) (current : string) s :
  exists r,
    when b (enum_state USER_STATUS USER_STATES current) s
    = (set_registry r s, Ret tt) /\
    (forall st, In st USER_STATES ->
       sample USER_STATUS [st] r =
       if b then Some (if (st =? current)%string then 1 else 0)
       else sample USER_STATUS [st] (registry s)) /\
    (forall m ls, m <> USER_STATUS ->
       sample m ls r = sample m ls (registry s)).
Proof.
  exists (registry (final (when b (enum_state USER_STATUS USER_STATES current))
                          s)).
  split; [destruct s; destruct b; reflexivity|].
  destruct b; cbn [when enum_state USER_STATES for_each final bind gauge_set
                   modify ret fst registry set_registry].
  - split.
    + intros st Hst. cbn in Hst.
      destruct Hst as [<-|[<-|[<-|[<-|[<-|[]]]]]];
        repeat (rewrite sample_registry_set; decide_keys); reflexivity.
    + intros m ls Hm.
      assert (E : metric_eqb USER_STATUS m = false).
      { destruct (metric_eqb USER_STATUS m) eqn:E; [|reflexivity].
        apply metric_eqb_eq in E. congruence. }
      rewrite !sample_registry_set, E. reflexivity.
  - split; reflexivity.
Qed.

Lemma gauge_set_len_run m x n (k : unit -> M Json) s :
  py_len x = inr n ->
  bind (gauge_set_len m x) k s
  = k tt (set_registry (registry_set m [] n (registry s)) s).
Proof.
  intros H. unfold gauge_set_len.
  rewrite bind_bind_run, bind_lift_run, H. reflexivity.
Qed.

(** [collect_current_user] on a user document with an [id]: where it
    stops. *)
Lemma collect_current_user_run s fields rank n_on n_off n_act n_all :
  reply_json (upstream env (exchanges s) auth_request) = JObj fields ->
  assoc "id" fields <> None ->
  _trust_rank_value (field fields "tags" (JList [])) = inr rank ->
  py_len (field fields "onlineFriends" (JList [])) = inr n_on ->
  py_len (field fields "offlineFriends" (JList [])) = inr n_off ->
  py_len (field fields "activeFriends" (JList [])) = inr n_act ->
  py_len (field fields "friends" (JList [])) = inr n_all ->
  let s1 := final (_get cfg env "/auth/user" []) s in
  let status := field fields "status" (JStr "offline") in
  let labels :=
    map (py_str env)
        [field fields "displayName" (JStr ""); field fields "id" (JStr "");
         field fields "username" (JStr "");
         field fields "statusDescription" (JStr "");
         field fields "last_platform" (JStr "");
         field fields "developerType" (JStr "none");
         field fields "homeLocation" (JStr "")] in
  let r2 := registry_set USER_INFO labels 1
              (registry_clear USER_INFO (registry s1)) in
  exists r3,
    collect_current_user cfg env s =
    (set_registry
       (registry_set FRIENDS_TOTAL [] n_all
          (registry_set FRIENDS_ACTIVE [] n_act
             (registry_set FRIENDS_OFFLINE [] n_off
                (registry_set FRIENDS_ONLINE [] n_on
                   (registry_set USER_TRUST_RANK [] rank r3))))) s1,
     Ret (JObj fields)) /\
    (forall st, In st USER_STATES ->
       sample USER_STATUS [st] r3 =
       if json_in_strs status USER_STATES
       then Some (if (st =? py_str env status)%string then 1 else 0)
       else sample USER_STATUS [st] r2) /\
    (forall m ls, m <> USER_STATUS -> sample m ls r3 = sample m ls r2).
Proof.
  intros Hreply Hid Hrank Hon Hoff Hact Hall. cbn zeta.
  unfold collect_current_user.
  rewrite (bind_run _ _ _ _ _ (_get_run cfg env _ _ s)).
  change {| endpoint := "/auth/user"; params := [] |} with auth_request.
  rewrite Hreply. set (s1 := final _ s).
  rewrite bind_lift_run, has_id_object by assumption. cbn [negb].
  change (py_get (JObj fields))
    with (fun k d => @inr Exn Json (field fields k d)).
  cbv beta.
  repeat rewrite bind_lift_run.
  unfold metric_clear, gauge_set at 1. rewrite !bind_modify_run.
  rewrite bind_lift_run.
  set (s2 := set_registry _ _).
  destruct (enum_state_when
              (json_in_strs (field fields "status" (JStr "offline"))
                            USER_STATES)
              (py_str env (field fields "status" (JStr "offline"))) s2)
    as (r3 & Hrun & Hstatus & Hrest).
  exists r3. split; [|split; [exact Hstatus|exact Hrest]].
  rewrite (bind_run _ _ _ _ _ Hrun).
  rewrite !bind_lift_run, Hrank.
  unfold gauge_set. rewrite bind_modify_run.
  rewrite !bind_lift_run.
  rewrite (gauge_set_len_run _ _ _ _ _ Hon).
  rewrite (gauge_set_len_run _ _ _ _ _ Hoff).
  rewrite (gauge_set_len_run _ _ _ _ _ Hact).
  unfold gauge_set_len. rewrite bind_bind_run, bind_lift_run, Hall.
  reflexivity.
Qed.

End CurrentUserGauges.

(** X12.  [collect_current_user] on a user document with an [id], when
    the trust rank can be computed from its [tags] and its four friend
    lists have a length.  The document is returned and no error is
    counted.  The trust gauge holds the rank of [_trust_rank_value]; the
    four friend gauges hold the lengths of [onlineFriends],
    [offlineFriends], [activeFriends] and [friends], a missing list
    counting 0.  When the [status] of the document is one of the five
    known states, the child of that state is 1 and the four others are 0;
    any other status leaves the enum as it was.  The info metric has one
    child, under the seven labels of this document. *)
Theorem current_user_gauges (cfg : Config) (env : Environment) (s : State)
  (fields : list (string * Json)) (rank n_on n_off n_act n_all : Z) :
  reply_json (upstream env (exchanges s) auth_request) = JObj fields ->
  assoc "id" fields <> None ->
  _trust_rank_value (field fields "tags" (JList [])) = inr rank ->
  py_len (field fields "onlineFriends" (JList [])) = inr n_on ->
  py_len (field fields "offlineFriends" (JList [])) = inr n_off ->
  py_len (field fields "activeFriends" (JList [])) = inr n_act ->
  py_len (field fields "friends" (JList [])) = inr n_all ->
  let status := field fields "status" (JStr "offline") in
  let labels :=
    map (py_str env)
        [field fields "displayName" (JStr ""); field fields "id" (JStr "");
         field fields "username" (JStr "");
         field fields "statusDescription" (JStr "");
         field fields "last_platform" (JStr "");
         field fields "developerType" (JStr "none");
         field fields "homeLocation" (JStr "")] in
  let s' := final (collect_current_user cfg env) s in
  snd (collect_current_user cfg env s) = Ret (JObj fields) /\
  error_count "auth_user" s' = error_count "auth_user" s /\
  child_value USER_TRUST_RANK [] s' = Some rank /\
  child_value FRIENDS_ONLINE [] s' = Some n_on /\
  child_value FRIENDS_OFFLINE [] s' = Some n_off /\
  child_value FRIENDS_ACTIVE [] s' = Some n_act /\
  child_value FRIENDS_TOTAL [] s' = Some n_all /\
  (forall st, In st USER_STATES ->
     child_value USER_STATUS [st] s' =
     if json_in_strs status USER_STATES
     then Some (if (st =? py_str env status)%string then 1 else 0)
     else child_value USER_STATUS [st] s) /\
  (forall ls,
     child_value USER_INFO ls s' =
     if labels_eqb labels ls then Some 1 else None).
Proof.
  intros Hreply Hid Hrank Hon Hoff Hact Hall. cbn zeta.
  destruct (collect_current_user_run cfg env s fields rank n_on n_off n_act
              n_all Hreply Hid Hrank Hon Hoff Hact Hall)
    as (r3 & Hrun & Hstatus & Hrest).
  cbn zeta in Hrun, Hstatus, Hrest.
  destruct (_get_state cfg env "/auth/user" [] s)
    as (_ & _ & _ & _ & Hother & _).
  unfold child_value in Hother.
  change (final (collect_current_user cfg env) s)
    with (fst (collect_current_user cfg env s)).
  rewrite Hrun. cbn [fst snd].
  split; [reflexivity|].
  unfold error_count.
  repeat match goal with |- _ /\ _ => split end.
  - read_samples. rewrite Hrest by discriminate.
    repeat (rewrite sample_registry_set; decide_keys).
    rewrite sample_registry_clear_other by reflexivity.
    rewrite Hother by discriminate. reflexivity.
  - read_samples. reflexivity.
  - read_samples. reflexivity.
  - read_samples. reflexivity.
  - read_samples. reflexivity.
  - read_samples. reflexivity.
  - intros st Hst. read_samples. rewrite (Hstatus st Hst).
    destruct (json_in_strs _ USER_STATES); [reflexivity|].
    repeat (rewrite sample_registry_set; decide_keys).
    rewrite sample_registry_clear_other by reflexivity.
    apply Hother; discriminate.
  - intros ls. read_samples. rewrite Hrest by discriminate.
    rewrite sample_registry_set, sample_registry_clear. decide_keys.
    reflexivity.
Qed.

(** The theorem against an upstream whose user document has two trust
    tags, two online friends out of three and the status [active]. *)
Lemma current_user_gauges_witness :
  let s' := final (collect_current_user default_config
                     (static_env api_two_friends 100)) (initial_state 0) in
  child_value USER_TRUST_RANK [] s' = Some 2 /\
  child_value FRIENDS_ONLINE [] s' = Some 2 /\
  child_value FRIENDS_TOTAL [] s' = Some 3 /\
  child_value USER_STATUS ["active"] s' = Some 1 /\
  child_value USER_STATUS ["busy"] s' = Some 0.
Proof.
  cbn zeta.
  destruct (current_user_gauges default_config
              (static_env api_two_friends 100) (initial_state 0)
              [("id", JStr "usr_1"); ("displayName", JStr "me");
               ("status", JStr "active");
               ("tags", JList [JStr "system_trust_basic";
                               JStr "system_trust_known"]);
               ("onlineFriends", JList [JStr "usr_2"; JStr "usr_3"]);
               ("friends", JList [JStr "usr_2"; JStr "usr_3"; JStr "usr_4"])]
              2 2 0 0 3 eq_refl)
    as (_ & _ & Hrank & Hon & _ & _ & Hall & Hstatus & _);
    try reflexivity; try discriminate.
  split; [exact Hrank|]. split; [exact Hon|]. split; [exact Hall|].
  split.
  - rewrite (Hstatus "active"); [reflexivity|cbn; auto].
  - rewrite (Hstatus "busy"); [reflexivity|cbn; auto 6].
Defined.

(* ================================================================== *)
(** * Pagination *)
(* ================================================================== *)

Section Pagination.

Context (cfg : Config) (env : Environment).

(** One request of a pagination, as the loop sees it. *)
Lemma page_request_facts ep ps s :
  let s1 := final (_get cfg env ep ps) s in
  (exists new,
     log s1 = (new ++ log s)%list /\
     sent (List.rev new) = [{| endpoint := ep; params := ps |}]) /\
  exchanges s1 = S (exchanges s) /\
  (forall m ls,
     m <> API_REQUEST_DURATION_sum -> m <> API_REQUEST_DURATION_count ->
     child_value m ls s1 = child_value m ls s) /\
  _world_cache s1 = _world_cache s /\
  _instance_cache s1 = _instance_cache s.
Proof.
  cbn zeta.
  destruct (_get_state cfg env ep ps s)
    as (_ & _ & _ & _ & Hother & Hw & Hi & _).
  destruct (_get_effect cfg env ep ps s) as (_ & _ & Hx).
  pose proof (_get_sent cfg env ep ps s) as Hsent.
  destruct (_get_quiet cfg env ep ps s) as [(new & Hlog & _) _].
  rewrite (sent_since _ _ _ Hlog), <- sent_rev in Hsent.
  split; [exists new; auto|auto].
Qed.

Lemma fetch_pages_run ep mk pages last :
  short_page last = true ->
  forall fuel offset acc s,
    (List.length pages < fuel)%nat ->
    serves env ep mk (exchanges s) offset pages last ->
    let s' := final (fetch_pages cfg env fuel ep mk offset acc) s in
    snd (fetch_pages cfg env fuel ep mk offset acc s)
    = Ret (acc ++ concat pages ++ page_items last)%list /\
    (exists new,
       log s' = (new ++ log s)%list /\
       sent (List.rev new)
       = page_requests ep mk offset (S (List.length pages))) /\
    exchanges s' = (exchanges s + S (List.length pages))%nat /\
    (forall m ls,
       m <> API_REQUEST_DURATION_sum -> m <> API_REQUEST_DURATION_count ->
       child_value m ls s' = child_value m ls s) /\
    _world_cache s' = _world_cache s /\
    _instance_cache s' = _instance_cache s.
Proof.
  intros Hshort.
  induction pages as [|p pages IH]; intros fuel offset acc s Hfuel Hserves;
    (destruct fuel as [|fuel]; [cbn in Hfuel; lia|]); cbn zeta.
  - cbn [serves] in Hserves.
    destruct (page_request_facts ep (mk offset) s)
      as ((new & Hlog & Hsent) & Hx & Hother & Hw & Hi).
    assert (Hrun : fetch_pages cfg env (S fuel) ep mk offset acc s
                   = (final (_get cfg env ep (mk offset)) s,
                      Ret (acc ++ page_items last)%list)).
    { cbn [fetch_pages].
      rewrite (bind_run _ _ _ _ _ (_get_run cfg env _ _ s)), Hserves.
      destruct last as [| | | |items|]; cbn [page_items];
        rewrite ?app_nil_r; try reflexivity.
      destruct items as [|i items]; cbn [truthy];
        [rewrite app_nil_r; reflexivity|].
      cbn [short_page] in Hshort. rewrite Hshort. reflexivity. }
    unfold final at 1 2 3 4 5. rewrite Hrun. cbn [fst snd concat app].
    split; [reflexivity|]. split; [exists new; auto|].
    split; [cbn [List.length]; lia|auto].
  - cbn [serves] in Hserves. destruct Hserves as (Hreply & Hfull & Hrest).
    destruct (page_request_facts ep (mk offset) s)
      as ((new & Hlog & Hsent) & Hx & Hother & Hw & Hi).
    set (s1 := final (_get cfg env ep (mk offset)) s) in *.
    assert (Hrun : fetch_pages cfg env (S fuel) ep mk offset acc s
                   = fetch_pages cfg env fuel ep mk (offset + page_size)
                                 (acc ++ p)%list s1).
    { cbn [fetch_pages].
      rewrite (bind_run _ _ _ _ _ (_get_run cfg env _ _ s)), Hreply.
      fold s1.
      destruct p as [|i p]; [cbn in Hfull; unfold page_size in Hfull; lia|].
      cbn [truthy].
      destruct (Z.ltb_spec (Z.of_nat (List.length (i :: p))) page_size);
        [lia|reflexivity]. }
    destruct (IH fuel (offset + page_size) (acc ++ p)%list s1)
      as (Ho & (new' & Hlog' & Hsent') & Hx' & Hother' & Hw' & Hi').
    { cbn [List.length] in Hfuel. lia. }
    { rewrite Hx. exact Hrest. }
    unfold final at 1 2 3 4 5. rewrite Hrun.
    change (fst (fetch_pages cfg env fuel ep mk (offset + page_size)
                             (acc ++ p)%list s1))
      with (final (fetch_pages cfg env fuel ep mk (offset + page_size)
                               (acc ++ p)%list) s1).
    split; [|split; [|split; [|split; [|split]]]].
    + rewrite Ho. cbn [concat]. rewrite <- !app_assoc. reflexivity.
    + exists (new' ++ new)%list. split.
      * rewrite Hlog', Hlog, app_assoc. reflexivity.
      * rewrite rev_app_distr, sent_app, Hsent, Hsent'. reflexivity.
    + rewrite Hx', Hx. cbn [List.length]. lia.
    + intros m ls H1 H2. rewrite Hother', Hother by assumption. reflexivity.
    + congruence.
    + congruence.
Qed.

(** The requests of a pagination, as the observer reads them. *)
Lemma fetch_pages_sends ep mk pages last fuel offset acc s :
  short_page last = true ->
  (List.length pages < fuel)%nat ->
  serves env ep mk (exchanges s) offset pages last ->
  sent (since s (final (fetch_pages cfg env fuel ep mk offset acc) s))
  = page_requests ep mk offset (S (List.length pages)).
Proof.
  intros Hshort Hfuel Hserves.
  destruct (fetch_pages_run ep mk pages last Hshort fuel offset acc s Hfuel
              Hserves) as (_ & (new & Hlog & Hsent) & _).
  rewrite (since_extends _ _ _ Hlog). exact Hsent.
Qed.

End Pagination.

(** X13.  The pagination loop of the three paging collectors.  When the
    upstream serves full pages (100 items or more) and then a page that
    ends the pagination (fewer than 100 items, an empty list, or anything
    that is not a list, the [None] of a failed request included), the
    loop returns the items of all the pages in order, appended to what it
    started with; it sends one request per page, the last one included,
    with the offsets 0, 100, 200, ...; and it touches no metric except the
    request histogram, and no cache. *)
Theorem pagination_concatenates_pages (cfg : Config) (env : Environment)
  (ep : string) (mk : Z -> list (string * string))
  (pages : list (list Json)) (last : Json) (fuel : nat) (acc : list Json)
  (s : State) :
  short_page last = true ->
  (List.length pages < fuel)%nat ->
  serves env ep mk (exchanges s) 0 pages last ->
  let s' := final (fetch_pages cfg env fuel ep mk 0 acc) s in
  snd (fetch_pages cfg env fuel ep mk 0 acc s)
  = Ret (acc ++ concat pages ++ page_items last)%list /\
  sent (since s s') = page_requests ep mk 0 (S (List.length pages)) /\
  map params (sent (since s s'))
  = map (fun i : nat => mk (100 * Z.of_nat i))
        (seq 0 (S (List.length pages))) /\
  (forall m ls,
     m <> API_REQUEST_DURATION_sum -> m <> API_REQUEST_DURATION_count ->
     child_value m ls s' = child_value m ls s) /\
  _world_cache s' = _world_cache s /\
  _instance_cache s' = _instance_cache s.
Proof.
  intros Hshort Hfuel Hserves. cbn zeta.
  destruct (fetch_pages_run cfg env ep mk pages last Hshort fuel 0 acc s
              Hfuel Hserves) as (Ho & _ & _ & Hother & Hw & Hi).
  pose proof (fetch_pages_sends cfg env ep mk pages last fuel 0 acc s Hshort
                Hfuel Hserves) as Hsent.
  split; [exact Ho|]. split; [exact Hsent|].
  split; [|split; [exact Hother|split; [exact Hw|exact Hi]]].
  rewrite Hsent.
  assert (Hgen : forall n k,
            map params (page_requests ep mk (100 * Z.of_nat k) n)
            = map (fun i : nat => mk (100 * Z.of_nat i)) (seq k n)).
  { induction n as [|n IHn]; intros k; [reflexivity|].
    cbn [page_requests map seq params]. f_equal.
    rewrite <- IHn. do 2 f_equal. unfold page_size. lia. }
  apply (Hgen (S (List.length pages)) O).
Qed.

Lemma env_hundred_friends_serves :
  serves env_hundred_friends "/auth/user/friends" (friends_params "false")
         O 0 [hundred_friends] (JList []).
Proof. cbn [serves]. split; [|split]; vm_compute; congruence. Qed.

(** The theorem against an upstream that serves one full page of a
    hundred friends and then an empty page. *)
Lemma pagination_concatenates_pages_witness :
  let s := initial_state 0 in
  let s' := final (fetch_online_friends default_config env_hundred_friends)
                  s in
  snd (fetch_online_friends default_config env_hundred_friends s)
  = Ret hundred_friends /\
  map params (sent (since s s'))
  = [friends_params "false" 0; friends_params "false" 100].
Proof.
  cbn zeta.
  destruct (pagination_concatenates_pages default_config env_hundred_friends
              "/auth/user/friends" (friends_params "false")
              [hundred_friends] (JList []) 8 [] (initial_state 0))
    as (Ho & _ & Hparams & _).
  - reflexivity.
  - cbn. lia.
  - exact env_hundred_friends_serves.
  - split.
    + unfold fetch_online_friends.
      change (patience env_hundred_friends) with 8%nat.
      rewrite Ho. cbn [concat page_items app]. rewrite !app_nil_r.
      reflexivity.
    + exact Hparams.
Defined.

(** X14.  [collect_friends_offline] pages through the friends endpoint
    with [offline=true] and sets [FRIENDS_OFFLINE], the gauge that
    [collect_current_user] sets from the user document, to the number of
    friends it was served.  It counts no error: when its first request
    fails, the gauge is set to 0 as if there were no offline friend. *)
Theorem offline_friends_counted (cfg : Config) (env : Environment)
  (pages : list (list Json)) (last : Json) (s : State) :
  short_page last = true ->
  (List.length pages < patience env)%nat ->
  serves env "/auth/user/friends" (friends_params "true") (exchanges s) 0
         pages last ->
  let s' := final (collect_friends_offline cfg env) s in
  snd (collect_friends_offline cfg env s) = Ret tt /\
  child_value FRIENDS_OFFLINE [] s'
  = Some (Z.of_nat (List.length (concat pages ++ page_items last))) /\
  sent (since s s')
  = page_requests "/auth/user/friends" (friends_params "true") 0
                  (S (List.length pages)) /\
  (forall label, error_count label s' = error_count label s).
Proof.
  intros Hshort Hfuel Hserves. cbn zeta.
  destruct (fetch_pages_run cfg env _ _ pages last Hshort (patience env) 0 []
              s Hfuel Hserves) as (Ho & (new & Hlog & Hsent) & _ & Hother & _).
  assert (Hrun : collect_friends_offline cfg env s =
                 (set_registry
                    (registry_set FRIENDS_OFFLINE []
                       (Z.of_nat (List.length
                                    (concat pages ++ page_items last)))
                       (registry
                          (final (fetch_pages cfg env (patience env)
                                    "/auth/user/friends"
                                    (friends_params "true") 0 []) s)))
                    (final (fetch_pages cfg env (patience env)
                              "/auth/user/friends"
                              (friends_params "true") 0 []) s),
                  Ret tt)).
  { unfold collect_friends_offline.
    rewrite (bind_run _ _ _ _ _
               (eq_trans (run_eq _ _) (f_equal (pair _) Ho))).
    reflexivity. }
  change (final (collect_friends_offline cfg env) s)
    with (fst (collect_friends_offline cfg env s)).
  rewrite Hrun. cbn [fst snd].
  split; [reflexivity|]. split; [|split].
  - read_samples. reflexivity.
  - rewrite (since_extends s _ new) by (cbn [log set_registry]; exact Hlog).
    exact Hsent.
  - intros label. unfold error_count.
    rewrite <- (Hother SCRAPE_ERRORS [label]) by discriminate.
    read_samples. reflexivity.
Qed.

(** The theorem against an upstream that refuses every request: the gauge
    reads 0 and no error is counted. *)
Lemma offline_friends_counted_witness :
  let s' := final (collect_friends_offline default_config
                     (static_env api_unauthorized 100)) (initial_state 0) in
  child_value FRIENDS_OFFLINE [] s' = Some 0 /\
  error_count "friends" s' = 0.
Proof.
  cbn zeta.
  destruct (offline_friends_counted default_config
              (static_env api_unauthorized 100) [] JNull (initial_state 0))
    as (_ & Hgauge & _ & Herr).
  - reflexivity.
  - cbn. lia.
  - reflexivity.
  - split; [exact Hgauge|]. rewrite Herr. reflexivity.
Defined.

(* ================================================================== *)
(** * The requests of a computation *)
(* ================================================================== *)

#[export] Instance silent_preorder : Preorder silent.
Proof.
  split.
  - intros s. exists []. split; reflexivity.
  - intros a b c (n1 & H1 & E1) (n2 & H2 & E2).
    exists (n2 ++ n1)%list. split.
    + rewrite H2, H1, app_assoc. reflexivity.
    + rewrite sent_app, E1, E2. reflexivity.
Qed.

Ltac silent_leaf :=
  first [ exists []; split; reflexivity
        | eexists [_]; split; reflexivity ].

Section Asked.

Lemma asked_refl s : asked s s [].
Proof. exists []. split; reflexivity. Qed.

Lemma asked_trans a b c l1 l2 :
  asked a b l1 -> asked b c l2 -> asked a c (l1 ++ l2).
Proof.
  intros (n1 & H1 & E1) (n2 & H2 & E2). exists (n2 ++ n1)%list. split.
  - rewrite H2, H1, app_assoc. reflexivity.
  - rewrite rev_app_distr, sent_app, E1, E2. reflexivity.
Qed.

Lemma silent_asked s s' : silent s s' -> asked s s' [].
Proof.
  intros (new & Hlog & E). exists new. split; [assumption|].
  rewrite sent_rev, E. reflexivity.
Qed.

Lemma asked_since s s' l : asked s s' l -> sent (since s s') = l.
Proof.
  intros (new & Hlog & E). rewrite (since_extends _ _ _ Hlog). assumption.
Qed.

Lemma asked_silent_r a b c l : asked a b l -> silent b c -> asked a c l.
Proof.
  intros H1 H2. rewrite <- (app_nil_r l).
  eapply asked_trans; [eassumption|]. apply silent_asked. assumption.
Qed.

Lemma asked_silent_l a b c l : silent a b -> asked b c l -> asked a c l.
Proof.
  intros H1 H2. change l with ([] ++ l)%list.
  eapply asked_trans; [|eassumption]. apply silent_asked. assumption.
Qed.

Lemma asked_of_stop s s' (P : Prop) l1 L2 :
  asked s s' l1 -> ~ P -> asked_of s s' P (l1 ++ L2).
Proof.
  intros Hl Hn. split; [|tauto].
  exists (List.length l1 + 0)%nat. rewrite firstn_app_2. cbn.
  rewrite app_nil_r. assumption.
Qed.

Lemma asked_of_continue s s1 s' (P : Prop) l1 L2 :
  asked s s1 l1 -> asked_of s1 s' P L2 -> asked_of s s' P (l1 ++ L2).
Proof.
  intros Hl [(j & Hj) Hfull]. split.
  - exists (List.length l1 + j)%nat. rewrite firstn_app_2.
    eapply asked_trans; eassumption.
  - intros HP. eapply asked_trans; [eassumption|auto].
Qed.

Lemma asked_of_all s s' (P : Prop) l : asked s s' l -> asked_of s s' P l.
Proof.
  intros H. split; [|auto]. exists (List.length l).
  rewrite firstn_all. assumption.
Qed.

Lemma asked_of_bind {A B} (m : M A) (k : A -> M B) l1 L2 s :
  asked s (final m s) l1 ->
  (forall a, snd (m s) = Ret a ->
     asked_of (final m s) (final (k a) (final m s))
              (returns (k a) (final m s)) L2) ->
  asked_of s (final (bind m k) s) (returns (bind m k) s) (l1 ++ L2).
Proof.
  intros Hl Hk. unfold returns. rewrite final_bind, outcome_bind.
  destruct (snd (m s)) as [a|e| |] eqn:Ho.
  - eapply asked_of_continue; [eassumption|]. apply Hk. reflexivity.
  - apply asked_of_stop; [assumption|]. intros [b Hb]. discriminate.
  - apply asked_of_stop; [assumption|]. intros [b Hb]. discriminate.
  - apply asked_of_stop; [assumption|]. intros [b Hb]. discriminate.
Qed.

Lemma asked_of_silent_tail {A B} (m : M A) (k : A -> M B) l s :
  asked_of s (final m s) (returns m s) l ->
  (forall a, respects silent (k a)) ->
  asked_of s (final (bind m k) s) (returns (bind m k) s) l.
Proof.
  intros [(j & Hj) Hfull] Hk. unfold returns.
  rewrite final_bind, outcome_bind.
  destruct (snd (m s)) as [a|e| |] eqn:Ho.
  - apply asked_of_all. eapply asked_silent_r; [|apply Hk].
    apply Hfull. exists a. assumption.
  - split; [eauto|]. intros [b Hb]. discriminate.
  - split; [eauto|]. intros [b Hb]. discriminate.
  - split; [eauto|]. intros [b Hb]. discriminate.
Qed.

End Asked.

Section AskedGet.

Context (cfg : Config) (env : Environment).

Lemma _get_asked ep ps s :
  asked s (final (_get cfg env ep ps) s)
        [{| endpoint := ep; params := ps |}].
Proof. apply (page_request_facts cfg env ep ps s). Qed.

(** A request followed by steps that send nothing. *)
Lemma get_then_asked {B} ep ps (k : Json -> M B) s :
  (forall j, respects silent (k j)) ->
  asked s (final (bind (_get cfg env ep ps) k) s)
        [{| endpoint := ep; params := ps |}].
Proof.
  intros Hk. rewrite final_bind, _get_returns.
  eapply asked_silent_r; [apply _get_asked|apply Hk].
Qed.

Lemma refresh_world_asked wid s :
  asked s (final (refresh_world cfg env wid) s) [world_request wid].
Proof.
  unfold refresh_world. apply get_then_asked.
  intros j. respects_with silent_leaf.
Qed.

Lemma refresh_worlds_asked wids :
  forall refreshed s,
    asked_of s (final (refresh_worlds cfg env wids refreshed) s)
      (returns (refresh_worlds cfg env wids refreshed) s)
      (map world_request
           (firstn (Z.to_nat (MAX_WORLD_LOOKUPS cfg - refreshed)) wids)).
Proof.
  induction wids as [|wid wids IH]; intros refreshed s;
    cbn [refresh_worlds].
  - rewrite firstn_nil. apply asked_of_all. apply asked_refl.
  - destruct (Z.geb_spec refreshed (MAX_WORLD_LOOKUPS cfg)) as [Hcap|Hcap].
    + replace (Z.to_nat (MAX_WORLD_LOOKUPS cfg - refreshed)) with O by lia.
      apply asked_of_all. apply asked_refl.
    + replace (Z.to_nat (MAX_WORLD_LOOKUPS cfg - refreshed))
        with (S (Z.to_nat (MAX_WORLD_LOOKUPS cfg - (refreshed + 1)))) by lia.
      cbn [firstn map].
      apply (asked_of_bind _ _ [world_request wid]).
      * apply refresh_world_asked.
      * intros [] _. apply IH.
Qed.

Lemma collect_world_metrics_asked s :
  asked_of s (final (collect_world_metrics cfg env) s)
    (returns (collect_world_metrics cfg env) s)
    (map world_request
         (firstn (Z.to_nat (MAX_WORLD_LOOKUPS cfg))
                 (dict_keys (_world_cache s)))).
Proof.
  unfold returns, final, collect_world_metrics. rewrite bind_gets_run.
  destruct (_world_cache s) as [|e c] eqn:E.
  - cbn [dict_keys map]. rewrite firstn_nil. apply asked_of_all.
    apply asked_refl.
  - rewrite <- E.
    apply (asked_of_silent_tail
             (refresh_worlds cfg env (dict_keys (_world_cache s)) 0)).
    + pose proof (refresh_worlds_asked (dict_keys (_world_cache s)) 0 s)
        as H.
      rewrite Z.sub_0_r in H. exact H.
    + intros []. respects_with silent_leaf.
Qed.

End AskedGet.

(* ================================================================== *)
(** * The world refresh, lookup by lookup *)
(* ================================================================== *)

Ltac keys_leaf :=
  unfold same_on;
  cbn [_world_cache _instance_cache set_registry set_authenticated
       set_last_request_time pass_time count_exchange set_world_cache
       set_instance_cache bump_next_id set_cycle push_event];
  first [ reflexivity | rewrite dict_keys_update; reflexivity ].

Section WorldRefreshTrace.

Context (cfg : Config) (env : Environment).

Lemma collect_world_metrics_same_keys :
  respects (same_on (fun s => dict_keys (_world_cache s)))
           (collect_world_metrics cfg env).
Proof. respects_with keys_leaf. Qed.

(** When the collector returns on a cache that is not empty, its last
    step has set the gauge of cached worlds. *)
Lemma collect_world_metrics_cached s :
  snd (collect_world_metrics cfg env s) = Ret tt ->
  _world_cache s <> [] ->
  child_value WORLDS_CACHED [] (final (collect_world_metrics cfg env) s)
  = Some (Z.of_nat (List.length (_world_cache s))).
Proof.
  intros Hret Hne.
  pose proof (collect_world_metrics_same_keys s) as Hkeys.
  unfold same_on in Hkeys.
  pose proof (eq_trans (run_eq (collect_world_metrics cfg env) s)
                       (f_equal (pair _) Hret)) as Hrun.
  set (s' := final (collect_world_metrics cfg env) s) in *.
  unfold collect_world_metrics in Hrun. rewrite bind_gets_run in Hrun.
  destruct (_world_cache s) as [|e c] eqn:E; [contradiction|].
  apply bind_ret_inv in Hrun as ([] & s1 & _ & Hrun).
  rewrite bind_gets_run in Hrun.
  apply bind_ret_inv in Hrun as ([] & s2 & _ & Hrun).
  rewrite bind_gets_run in Hrun.
  unfold gauge_set, modify in Hrun. cbv beta in Hrun.
  apply (f_equal fst) in Hrun. cbn [fst] in Hrun. rename Hrun into Hs'.
  rewrite <- Hs'. read_samples. f_equal. f_equal.
  assert (Hc : _world_cache s' = _world_cache s2)
    by (rewrite <- Hs'; reflexivity).
  rewrite <- Hc, <- (length_map fst (_world_cache s')).
  change (map fst (_world_cache s')) with (dict_keys (_world_cache s')).
  rewrite <- Hkeys. unfold dict_keys. rewrite length_map. reflexivity.
Qed.

(** One turn of the refresh loop: the exchange it uses, and what it does
    to the world cache by the answer. *)
Lemma refresh_world_step wid s :
  let c := _world_cache s in
  let s' := final (refresh_world cfg env wid) s in
  let j := reply_json (upstream env (exchanges s) (world_request wid)) in
  exchanges s' = S (exchanges s) /\
  match refresh_action wid j with
  | None => _world_cache s' = c /\
            forall u, snd (refresh_world cfg env wid s) <> Ret u
  | Some None => _world_cache s' = c /\
                 snd (refresh_world cfg env wid s) = Ret tt
  | Some (Some r) =>
      if dict_mem wid c then
        _world_cache s' = dict_update wid (fun e => (fst e, r)) c /\
        snd (refresh_world cfg env wid s) = Ret tt
      else
        _world_cache s' = c /\
        forall u, snd (refresh_world cfg env wid s) <> Ret u
  end.
Proof.
  cbn zeta.
  pose proof (_get_same_world_cache cfg env ("/worlds/" ++ wid) [] s) as Hc.
  destruct (_get_effect cfg env ("/worlds/" ++ wid) [] s) as (_ & _ & Hx).
  unfold same_on in Hc.
  set (s1 := final (_get cfg env ("/worlds/" ++ wid) []) s) in *.
  unfold refresh_action, final, refresh_world.
  rewrite (bind_run _ _ _ _ _ (_get_run cfg env _ _ s)). fold s1.
  change {| endpoint := "/worlds/" ++ wid; params := [] |}
    with (world_request wid).
  set (j := reply_json _).
  destruct (has_name j) as [e|[|]].
  - cbn. auto using conj.
    split; [assumption|]. split; [auto|]. intros u. discriminate.
  - cbn [lift]. rewrite (bind_run _ _ s1 s1 true) by reflexivity.
    destruct (world_of_json wid j) as [e|r].
    + cbn. split; [assumption|]. split; [auto|]. intros u. discriminate.
    + cbn [lift]. rewrite (bind_run _ _ s1 s1 r) by reflexivity.
      unfold world_cache_update. cbv [bind gets].
      rewrite <- Hc. destruct (dict_mem wid (_world_cache s)).
      * cbn. rewrite <- Hc. auto.
      * cbn. split; [assumption|]. split; [auto|]. intros u. discriminate.
  - cbn. auto.
Qed.

Lemma refresh_worlds_trace wids :
  forall refreshed s,
    _world_cache (final (refresh_worlds cfg env wids refreshed) s) =
    refresh_trace cfg env wids refreshed (exchanges s) (_world_cache s).
Proof.
  induction wids as [|w wids IH]; intros refreshed s;
    cbn [refresh_worlds refresh_trace]; [reflexivity|].
  destruct (_ >=? _); [reflexivity|].
  destruct (refresh_world_step w s) as [Hx He].
  rewrite final_bind.
  destruct (refresh_action w _) as [[r|]|].
  - destruct (dict_mem w (_world_cache s)).
    + destruct He as [Hc Ho]. rewrite Ho, IH, Hc, Hx. reflexivity.
    + destruct He as [Hc Ho].
      destruct (snd (refresh_world cfg env w s)); try assumption.
      exfalso. apply (Ho a). reflexivity.
  - destruct He as [Hc Ho]. rewrite Ho, IH, Hc, Hx. reflexivity.
  - destruct He as [Hc Ho].
    destruct (snd (refresh_world cfg env w s)); try assumption.
    exfalso. apply (Ho a). reflexivity.
Qed.

Lemma collect_world_metrics_trace s :
  _world_cache (final (collect_world_metrics cfg env) s) =
  refresh_trace cfg env (dict_keys (_world_cache s)) 0 (exchanges s)
                (_world_cache s).
Proof.
  unfold collect_world_metrics.
  rewrite final_bind. cbn [gets snd final fst].
  destruct (_world_cache s) as [|e c] eqn:E.
  { unfold final. cbn. rewrite E. reflexivity. }
  rewrite <- E.
  change (fst (?m s)) with (final m s).
  rewrite final_bind_same.
  - apply refresh_worlds_trace.
  - intros []. respects_with same_leaf.
Qed.

Lemma refresh_action_well_formed wid j :
  object_or_none j = true -> refresh_action wid j <> None.
Proof.
  intros H. unfold refresh_action, has_name.
  destruct j as [| | | | |f]; try discriminate H.
  - cbn. discriminate.
  - destruct f as [|kv f]; [cbn; discriminate|].
    cbn [truthy lit_in]. destruct (assoc "name" (kv :: f)); [|discriminate].
    unfold world_of_json. cbn [py_get py_bind]. discriminate.
Qed.

Hypothesis Hwf : worlds_well_formed env.

Lemma refresh_trace_other k wids :
  ~ In k wids ->
  forall refreshed x c,
    dict_get k (refresh_trace cfg env wids refreshed x c) = dict_get k c.
Proof.
  induction wids as [|w wids IH]; intros Hk refreshed x c;
    cbn [refresh_trace]; [reflexivity|].
  destruct (_ >=? _); [reflexivity|].
  assert (Hw : w <> k) by (intros ->; apply Hk; left; reflexivity).
  assert (Hrest : ~ In k wids) by (intros H; apply Hk; right; assumption).
  destruct (refresh_action w _) as [[r|]|]; [|apply IH; assumption
                                            |reflexivity].
  destruct (dict_mem w c); [|reflexivity].
  rewrite IH by assumption. rewrite dict_get_update.
  destruct (String.eqb_spec w k); [contradiction|reflexivity].
Qed.

(** The record of the world at position [p] of the list the loop goes
    through. *)
Lemma refresh_trace_get wids :
  NoDup wids ->
  forall p k refreshed x c id old,
    nth_error wids p = Some k ->
    (forall w, In w wids -> dict_mem w c = true) ->
    dict_get k c = Some (id, old) ->
    dict_get k (refresh_trace cfg env wids refreshed x c) =
    Some (id,
          if refreshed + Z.of_nat p <? MAX_WORLD_LOOKUPS cfg
          then refreshed_record k old
                 (reply_json (upstream env (x + p) (world_request k)))
          else old).
Proof.
  induction 1 as [|w wids Hnotin Hnd IH];
    intros p k refreshed x c id old Hp Hmem Hget.
  - destruct p; discriminate.
  - cbn [refresh_trace].
    destruct (Z.geb_spec refreshed (MAX_WORLD_LOOKUPS cfg)) as [Hcap|Hcap].
    { destruct (Z.ltb_spec (refreshed + Z.of_nat p) (MAX_WORLD_LOOKUPS cfg));
        [lia|assumption]. }
    pose proof (refresh_action_well_formed w _ (Hwf x w)) as Hact.
    assert (Hw : dict_mem w c = true) by (apply Hmem; left; reflexivity).
    destruct p as [|p].
    + cbn [nth_error] in Hp. injection Hp as ->.
      rewrite Nat.add_0_r, Z.add_0_r.
      destruct (Z.ltb_spec refreshed (MAX_WORLD_LOOKUPS cfg)); [|lia].
      unfold refreshed_record.
      destruct (refresh_action k _) as [[r|]|]; [| |contradiction].
      * rewrite Hw, refresh_trace_other by assumption.
        rewrite dict_get_update, String.eqb_refl, Hget. reflexivity.
      * rewrite refresh_trace_other by assumption. assumption.
    + cbn [nth_error] in Hp.
      assert (Hin : In k wids) by (eapply nth_error_In; eassumption).
      assert (Hne : w <> k) by (intros ->; contradiction).
      replace (refreshed + Z.of_nat (S p)) with (refreshed + 1 + Z.of_nat p)
        by lia.
      replace (x + S p)%nat with (S x + p)%nat by lia.
      destruct (refresh_action w _) as [[r|]|]; [| |contradiction].
      * rewrite Hw. apply IH; [assumption| |].
        -- intros w' Hw'. rewrite dict_mem_update. apply Hmem. right.
           assumption.
        -- rewrite dict_get_update.
           destruct (String.eqb_spec w k); [contradiction|assumption].
      * apply IH; [assumption| |assumption].
        intros w' Hw'. apply Hmem. right. assumption.
Qed.

Lemma dict_get_nth {V} (d : Dict V) (p : nat) (k : string) (v : V) :
  NoDup (dict_keys d) -> nth_error d p = Some (k, v) -> dict_get k d = Some v.
Proof.
  revert p. unfold dict_get, dict_keys.
  induction d as [|[k0 v0] d IH]; intros p Hnd Hp.
  - destruct p; discriminate.
  - cbn [map fst] in Hnd. inversion Hnd as [|? ? Hnotin Hnd']. subst.
    cbn [assoc]. destruct p as [|p].
    + cbn in Hp. injection Hp as -> ->. rewrite String.eqb_refl.
      reflexivity.
    + cbn [nth_error] in Hp.
      destruct (String.eqb_spec k0 k) as [->|Hne].
      * exfalso. apply Hnotin. apply nth_error_In in Hp.
        apply (in_map fst) in Hp. exact Hp.
      * eapply IH; eassumption.
Qed.

End WorldRefreshTrace.

(** X15.  Which worlds [collect_world_metrics] refreshes.  With an empty
    cache it does nothing at all: no request, no gauge.  Otherwise its
    requests are lookups of the first [MAX_WORLD_LOOKUPS] keys of the world
    cache, in the order of the cache, all of them when it returns and an
    initial segment of them when a lookup makes it raise.  It never
    changes the keys or their order, so every call asks for the same
    worlds: there is no rotation, and a world behind the first
    [MAX_WORLD_LOOKUPS] keys is never refreshed.  A call that returns sets
    [WORLDS_CACHED] to the size of the cache. *)
Theorem world_refresh_asks_first_worlds (cfg : Config) (env : Environment)
  (s : State) :
  let keys := dict_keys (_world_cache s) in
  let due := map world_request
                 (firstn (Z.to_nat (MAX_WORLD_LOOKUPS cfg)) keys) in
  let s' := final (collect_world_metrics cfg env) s in
  (exists j, sent (since s s') = firstn j due) /\
  (snd (collect_world_metrics cfg env s) = Ret tt ->
     sent (since s s') = due /\
     (_world_cache s <> [] ->
        child_value WORLDS_CACHED [] s'
        = Some (Z.of_nat (List.length keys)))) /\
  dict_keys (_world_cache s') = keys /\
  (_world_cache s = [] -> collect_world_metrics cfg env s = (s, Ret tt)).
Proof.
  cbn zeta.
  destruct (collect_world_metrics_asked cfg env s) as [(j & Hj) Hfull].
  split; [exists j; apply asked_since; assumption|].
  split; [|split].
  - intros Hret. split.
    + apply asked_since. apply Hfull. exists tt. assumption.
    + intros Hne. rewrite (collect_world_metrics_cached cfg env s Hret Hne).
      unfold dict_keys. rewrite length_map. reflexivity.
  - symmetry. apply (collect_world_metrics_same_keys cfg env s).
  - intros E. unfold collect_world_metrics. rewrite bind_gets_run, E.
    reflexivity.
Qed.

(** The theorem with a cap of one lookup, at the state reached after a
    cycle that cached one world, to which a second world is added: only
    the first world is asked for. *)
Lemma world_refresh_asks_first_worlds_witness :
  let cfg := {| SCRAPE_INTERVAL := 120; REQUEST_DELAY := 1500;
                MAX_WORLD_LOOKUPS := 1; OFFLINE_SCRAPE_CYCLES := 5;
                AUTH_COOKIE := "authcookie_0000"; USERNAME := "";
                PASSWORD := "" |} in
  let env := static_env api_two_friends 100 in
  let s := bind_world "wrld_xyz" (world_placeholder "wrld_xyz")
             (final (main cfg env 1) (initial_state 0)) in
  let s' := final (collect_world_metrics cfg env) s in
  sent (since s s') = [world_request "wrld_abc"] /\
  dict_keys (_world_cache s') = ["wrld_abc"; "wrld_xyz"].
Proof.
  cbn zeta.
  match goal with
  | |- context [final (collect_world_metrics ?cfg ?env) ?s] =>
      destruct (world_refresh_asks_first_worlds cfg env s)
        as (_ & Hret & Hkeys & _)
  end.
  split.
  - destruct Hret as [Hsent _]; [vm_compute; reflexivity|].
    rewrite Hsent. vm_compute. reflexivity.
  - rewrite Hkeys. vm_compute. reflexivity.
Defined.

(** X16.  What a refresh does to the record of a cached world.  For the
    world at position [p] of the cache, [p] below [MAX_WORLD_LOOKUPS], the
    answer to its lookup (the exchange number [p] of the call) decides:
    an object with a [name] overwrites the six fields of the record, a
    missing field taking its default; [None] or an object without a
    [name] leaves the record as it was.  So a placeholder stored after a
    failed resolution is replaced by the real data at the first refresh
    that succeeds, and a world whose lookup starts to fail keeps its last
    values.  In both cases the record stays the same object.  A world at
    a position from [MAX_WORLD_LOOKUPS] on is not changed.  (World lookups
    answer with a JSON object or fail; the keys of the cache are
    distinct.) *)
Theorem world_refresh_overwrites_or_keeps (cfg : Config)
  (env : Environment) (s : State) (p : nat) (wid : string) (id : nat)
  (old : WorldRec) :
  worlds_well_formed env ->
  NoDup (dict_keys (_world_cache s)) ->
  nth_error (_world_cache s) p = Some (wid, (id, old)) ->
  let answer := reply_json (upstream env (exchanges s + p)
                              (world_request wid)) in
  let s' := final (collect_world_metrics cfg env) s in
  dict_get wid (_world_cache s') =
  Some (id,
        if Z.of_nat p <? MAX_WORLD_LOOKUPS cfg
        then refreshed_record wid old answer
        else old)
  /\
  (answer = JNull -> refreshed_record wid old answer = old)
  /\
  (forall fields, answer = JObj fields -> assoc "name" fields = None ->
     refreshed_record wid old answer = old)
  /\
  (forall fields name, answer = JObj fields ->
     assoc "name" fields = Some name ->
     refreshed_record wid old answer =
     {| w_name := name;
        w_authorName := field fields "authorName" (JStr "");
        w_visits := field fields "visits" (JNum 0);
        w_favorites := field fields "favorites" (JNum 0);
        w_occupants := field fields "occupants" (JNum 0);
        w_heat := field fields "heat" (JNum 0) |}).
Proof.
  intros Hwf Hnd Hp. cbn zeta. split; [|split; [|split]].
  - rewrite collect_world_metrics_trace.
    rewrite (refresh_trace_get cfg env Hwf (dict_keys (_world_cache s)) Hnd
               p wid 0 (exchanges s) (_world_cache s) id old).
    + reflexivity.
    + unfold dict_keys. rewrite nth_error_map, Hp. reflexivity.
    + intros w Hw. apply dict_mem_keys. assumption.
    + eapply dict_get_nth; eassumption.
  - intros ->. reflexivity.
  - intros fields -> Hname. unfold refreshed_record, refresh_action, has_name.
    cbn [truthy lit_in]. destruct fields; [reflexivity|].
    rewrite Hname. reflexivity.
  - intros fields name -> Hname.
    unfold refreshed_record, refresh_action, has_name.
    cbn [truthy lit_in]. destruct fields as [|kv fields]; [discriminate|].
    rewrite Hname. unfold world_of_json. cbn [py_get py_bind].
    unfold field. rewrite Hname. reflexivity.
Qed.

Lemma api_two_friends_well_formed lat :
  worlds_well_formed (static_env api_two_friends lat).
Proof.
  intros n wid. cbn [upstream static_env endpoint world_request].
  unfold api_two_friends.
  change (("/worlds/" ++ wid =? "/visits")%string) with false.
  change (("/worlds/" ++ wid =? "/auth/user")%string) with false.
  change (("/worlds/" ++ wid =? "/auth/user/friends")%string) with false.
  change (("/worlds/" ++ wid =? "/instances/wrld_abc:inst1")%string)
    with false.
  cbv iota.
  destruct ("/worlds/" ++ wid =? "/worlds/wrld_abc")%string; reflexivity.
Qed.

(** The theorem at the state left by a cycle in which the lookup of
    [wrld_abc] failed, refreshed against an upstream that knows the
    world: the placeholder is replaced by the data of the world. *)
Lemma world_refresh_overwrites_or_keeps_witness :
  let s := final (main default_config (static_env api_lookups_fail 100) 1)
                 (initial_state 0) in
  let s' := final (collect_world_metrics default_config
                     (static_env api_two_friends 100)) s in
  dict_get "wrld_abc" (_world_cache s) = Some (O, world_placeholder "wrld_abc")
  /\
  dict_get "wrld_abc" (_world_cache s')
  = Some (O, {| w_name := JStr "The Abc"; w_authorName := JStr "zed";
                w_visits := JNum 10; w_favorites := JNum 2;
                w_occupants := JNum 3; w_heat := JNum 4 |}).
Proof.
  cbn zeta. split; [vm_compute; reflexivity|].
  destruct (world_refresh_overwrites_or_keeps default_config
              (static_env api_two_friends 100)
              (final (main default_config (static_env api_lookups_fail 100) 1)
                     (initial_state 0))
              O "wrld_abc" O (world_placeholder "wrld_abc")
              (api_two_friends_well_formed 100))
    as (Hget & _).
  - vm_compute. repeat constructor. intros [].
  - vm_compute. reflexivity.
  - rewrite Hget. vm_compute. reflexivity.
Defined.

(* ================================================================== *)
(** * The instance cache *)
(* ================================================================== *)

#[export] Instance keeps_keyed_preorder : Preorder keeps_keyed.
Proof. split; unfold keeps_keyed; auto. Qed.

Section Keyed.

Lemma In_dict_set {V} (k k' : string) (v v' : V) (d : Dict V) :
  In (k, v) (dict_set k' v' d) -> In (k, v) d \/ (k, v) = (k', v').
Proof.
  induction d as [|[k0 v0] d IH]; cbn [dict_set].
  - intros [H|[]]. right. congruence.
  - destruct (k0 =? k')%string.
    + intros [H|H]; [right; congruence|left; right; assumption].
    + intros [H|H]; [left; left; assumption|].
      destruct (IH H); [left; right; assumption|right; assumption].
Qed.

Lemma In_dict_update {V} (k k' : string) (v : V) (f : V -> V) (d : Dict V) :
  In (k, v) (dict_update k' f d) ->
  In (k, v) d \/ exists v0, In (k, v0) d /\ v = f v0.
Proof.
  induction d as [|[k0 v0] d IH]; cbn [dict_update]; [intros []|].
  destruct (k0 =? k')%string.
  - intros [H|H].
    + right. exists v0. injection H as <- <-. split; [left|]; reflexivity.
    + left. right. assumption.
  - intros [H|H]; [left; left; assumption|].
    destruct (IH H) as [Hin|(v1 & Hin & E)].
    + left. right. assumption.
    + right. exists v1. split; [right; assumption|assumption].
Qed.

Lemma keyed_mutate key (g : nat * InstanceRec -> nat * InstanceRec) s :
  (forall e, i_world_id (snd (g e)) = i_world_id (snd e) /\
             i_instance_id (snd (g e)) = i_instance_id (snd e)) ->
  keeps_keyed s
    (set_instance_cache (dict_update key g (_instance_cache s)) s).
Proof.
  intros Hg Hs k id r Hin. cbn [_instance_cache set_instance_cache] in Hin.
  apply In_dict_update in Hin as [Hin|([id0 r0] & Hin & E)].
  - apply (Hs k id r Hin).
  - destruct (Hg (id0, r0)) as [Hw Hi]. rewrite <- E in Hw, Hi.
    cbn [snd] in Hw, Hi. rewrite Hw, Hi. apply (Hs k id0 r0 Hin).
Qed.

Lemma keyed_bind_instance key r s :
  key = i_world_id r ++ ":" ++ i_instance_id r ->
  keeps_keyed s (bind_instance key r s).
Proof.
  intros Hkey Hs k id r0 Hin.
  unfold bind_instance in Hin.
  cbn [_instance_cache set_instance_cache bump_next_id] in Hin.
  apply In_dict_set in Hin as [Hin|E].
  - apply (Hs k id r0 Hin).
  - injection E as -> -> ->. assumption.
Qed.

End Keyed.

Ltac keyed_leaf :=
  first [ let H := fresh in intros H; exact H
        | apply keyed_mutate; intros; split; reflexivity ].

Section KeyedCollectors.

Context (cfg : Config) (env : Environment).

Lemma _get_keeps_keyed ep ps : respects keeps_keyed (_get cfg env ep ps).
Proof. respects_with keyed_leaf. Qed.

Lemma instance_of_json_ids wid iid name inst r :
  instance_of_json wid iid name inst = inr r ->
  i_world_id r = wid /\ i_instance_id r = iid.
Proof.
  unfold instance_of_json. intros H.
  destruct (py_get inst "userCount" (JNum 0)) as [e|uc]; [discriminate|].
  cbn [py_bind] in H.
  destruct (py_get inst "n_users" uc) as [e|pc]; [discriminate|].
  cbn [py_bind] in H.
  destruct (py_get inst "region" (JStr "us")) as [e|rg]; [discriminate|].
  cbn [py_bind] in H.
  destruct (py_get inst "type" (JStr "public")) as [e|ty]; [discriminate|].
  cbn [py_bind] in H. injection H as <-. split; reflexivity.
Qed.

(** What a turn of the instance resolution loop leaves: the state after
    its lookup, or that state with one new record, whose ids are those of
    the lookup. *)
Lemma resolve_instance_record key wid iid s :
  let s1 := final (_get cfg env ("/instances/" ++ wid ++ ":" ++ iid) []) s in
  final (resolve_instance cfg env (key, (wid, iid))) s = s1
  \/
  (exists r,
     i_world_id r = wid /\ i_instance_id r = iid /\
     final (resolve_instance cfg env (key, (wid, iid))) s
     = bind_instance key r s1).
Proof.
  cbn zeta.
  set (s1 := final (_get cfg env ("/instances/" ++ wid ++ ":" ++ iid) []) s).
  unfold resolve_instance, final.
  rewrite (bind_run _ _ _ _ _ (_get_run cfg env _ _ s)). fold s1.
  set (j := reply_json _).
  destruct (truthy j); [|left; reflexivity].
  cbv [bind gets].
  destruct (instance_of_json wid iid (cached_world_name wid (_world_cache s1))
                             j) as [e|r] eqn:E.
  - left. reflexivity.
  - right. exists r. apply instance_of_json_ids in E as [Hw Hi].
    split; [assumption|]. split; [assumption|reflexivity].
Qed.

Lemma resolve_instance_keeps_keyed key wid iid s :
  key = wid ++ ":" ++ iid ->
  keeps_keyed s (final (resolve_instance cfg env (key, (wid, iid))) s).
Proof.
  intros Hkey.
  pose proof (_get_keeps_keyed ("/instances/" ++ wid ++ ":" ++ iid) [] s)
    as Hget.
  destruct (resolve_instance_record key wid iid s)
    as [->|(r & Hw & Hi & ->)].
  - exact Hget.
  - eapply pre_trans; [exact Hget|]. apply keyed_bind_instance.
    rewrite Hw, Hi. assumption.
Qed.

Lemma resolve_instances_keeps_keyed (items : Dict (string * string)) :
  (forall k w i, In (k, (w, i)) items -> k = w ++ ":" ++ i) ->
  respects keeps_keyed (for_each items (resolve_instance cfg env)).
Proof.
  induction items as [|[k [w i]] items IH]; intros Hform s;
    cbn [for_each].
  - apply pre_refl.
  - rewrite final_bind.
    pose proof (resolve_instance_keeps_keyed k w i s
                  (Hform k w i (or_introl eq_refl))) as Hstep.
    destruct (snd (resolve_instance cfg env (k, (w, i)) s));
      try assumption.
    eapply pre_trans; [exact Hstep|]. apply IH.
    intros k' w' i' Hin. apply Hform. right. assumption.
Qed.

Lemma resolve_unknown_instances_keeps_keyed friends :
  respects keeps_keyed (resolve_unknown_instances cfg env friends).
Proof.
  intros s. unfold resolve_unknown_instances, final.
  cbv [bind gets].
  destruct (scan_unknown_instances (_instance_cache s) friends [])
    as [e|items] eqn:E.
  - cbn. apply pre_refl.
  - cbn [lift ret].
    destruct (scan_unknown_instances_fresh _ _ _ _ E) as (_ & _ & Hform);
      [constructor|intros k []|intros k w i []|].
    apply (resolve_instances_keeps_keyed (firstn 20 items)).
    intros k w i Hin. apply Hform. eapply In_firstn. eassumption.
Qed.

End KeyedCollectors.

#[export] Hint Resolve resolve_unknown_instances_keeps_keyed : respects.

Section KeyedMain.

Context (cfg : Config) (env : Environment).

Lemma main_keeps_keyed turns : respects keeps_keyed (main cfg env turns).
Proof. respects_with keyed_leaf. Qed.

Lemma main_loop_keeps_keyed turns :
  respects keeps_keyed (main_loop cfg env turns).
Proof. respects_with keyed_leaf. Qed.

Lemma scrape_all_keeps_keyed n : respects keeps_keyed (scrape_all cfg env n).
Proof. respects_with keyed_leaf. Qed.

Lemma collect_friends_online_keeps_keyed :
  respects keeps_keyed (collect_friends_online cfg env).
Proof. respects_with keyed_leaf. Qed.

Lemma collect_instance_metrics_keeps_keyed :
  respects keeps_keyed (collect_instance_metrics cfg env).
Proof. respects_with keyed_leaf. Qed.

End KeyedMain.

(** X17.  Every record of the instance cache is stored under the key
    [world_id:instance_id] made of its own two ids.  The cache of a new
    process has this property, and a whole run of [main], any number of
    turns of its loop, a scrape cycle and each of the two collectors that
    write the instance cache keep it, whatever the upstream answers and
    however the computation ends: resolution stores a record under the key
    it was looked up with, and the refresh changes the player count, the
    region and the type of a record, never its ids. *)
Theorem instance_keys_name_their_record (cfg : Config) (env : Environment) :
  (forall t0, instances_keyed (initial_state t0)) /\
  (forall turns t0,
     instances_keyed (final (main cfg env turns) (initial_state t0))) /\
  (forall turns s, instances_keyed s ->
     instances_keyed (final (main_loop cfg env turns) s)) /\
  (forall n s, instances_keyed s ->
     instances_keyed (final (scrape_all cfg env n) s)) /\
  (forall s, instances_keyed s ->
     instances_keyed (final (collect_friends_online cfg env) s)) /\
  (forall s, instances_keyed s ->
     instances_keyed (final (collect_instance_metrics cfg env) s)).
Proof.
  assert (H0 : forall t0, instances_keyed (initial_state t0))
    by (intros t0 k id r []).
  split; [exact H0|]. split; [|split; [|split; [|split]]].
  - intros turns t0. apply main_keeps_keyed. apply H0.
  - intros turns s. apply main_loop_keeps_keyed.
  - intros n s. apply scrape_all_keeps_keyed.
  - intros s. apply collect_friends_online_keeps_keyed.
  - intros s. apply collect_instance_metrics_keeps_keyed.
Qed.

Section InstanceRefresh.

Context (cfg : Config) (env : Environment).

Lemma assoc_In {V} (k : string) (v : V) (l : list (string * V)) :
  assoc k l = Some v -> In (k, v) l.
Proof.
  induction l as [|[k0 v0] l IH]; cbn [assoc]; [discriminate|].
  destruct (String.eqb_spec k0 k) as [->|].
  - intros H. injection H as ->. left. reflexivity.
  - intros H. right. auto.
Qed.

Lemma refresh_instance_same_keys key :
  respects (same_on (fun s => dict_keys (_instance_cache s)))
           (refresh_instance cfg env key).
Proof. respects_with keys_leaf. Qed.

Lemma collect_instance_metrics_same_keys :
  respects (same_on (fun s => dict_keys (_instance_cache s)))
           (collect_instance_metrics cfg env).
Proof. respects_with keys_leaf. Qed.

Lemma refresh_instance_keeps_keyed key :
  respects keeps_keyed (refresh_instance cfg env key).
Proof. respects_with keyed_leaf. Qed.

(** A turn of the refresh loop asks for the instance its key names. *)
Lemma refresh_instance_asked key s :
  instances_keyed s ->
  In key (dict_keys (_instance_cache s)) ->
  asked s (final (refresh_instance cfg env key) s) [instance_request key].
Proof.
  intros Hkeyed Hin. apply dict_mem_keys in Hin.
  unfold dict_mem in Hin.
  destruct (assoc key (_instance_cache s)) as [[id info]|] eqn:E;
    [|discriminate].
  pose proof (Hkeyed key id info (assoc_In _ _ _ E)) as Hkey.
  unfold refresh_instance, final. rewrite bind_gets_run.
  unfold dict_get. rewrite E.
  change (fst (?m s)) with (final m s).
  replace (instance_request key)
    with (instance_request (i_world_id info ++ ":" ++ i_instance_id info))
    by (f_equal; symmetry; exact Hkey).
  apply (get_then_asked cfg env
           ("/instances/" ++ i_world_id info ++ ":" ++ i_instance_id info) []).
  intros j. respects_with silent_leaf.
Qed.

Lemma refresh_instances_asked (ks : list string) :
  forall s,
    instances_keyed s ->
    (forall k, In k ks -> In k (dict_keys (_instance_cache s))) ->
    asked_of s (final (for_each ks (refresh_instance cfg env)) s)
             (returns (for_each ks (refresh_instance cfg env)) s)
             (map instance_request ks).
Proof.
  induction ks as [|k ks IH]; intros s Hkeyed Hin; cbn [for_each map].
  - apply asked_of_all. apply asked_refl.
  - apply (asked_of_bind _ _ [instance_request k]).
    + apply refresh_instance_asked; [assumption|]. apply Hin. left.
      reflexivity.
    + intros [] _. apply IH.
      * apply (refresh_instance_keeps_keyed k s). assumption.
      * intros k' Hk'. rewrite <- (refresh_instance_same_keys k s).
        apply Hin. right. assumption.
Qed.

Lemma collect_instance_metrics_asked s :
  instances_keyed s ->
  asked_of s (final (collect_instance_metrics cfg env) s)
           (returns (collect_instance_metrics cfg env) s)
           (map instance_request (dict_keys (_instance_cache s))).
Proof.
  intros Hkeyed. unfold returns, final, collect_instance_metrics.
  unfold metric_clear. rewrite bind_modify_run, bind_gets_run.
  cbn [_instance_cache set_registry].
  set (s0 := set_registry _ s).
  destruct (refresh_instances_asked (dict_keys (_instance_cache s)) s0)
    as [(j & new & Hlog & Hsent) Hfull].
  - exact Hkeyed.
  - intros k Hk. exact Hk.
  - split.
    + exists j, new. split; assumption.
    + intros Hr. destruct (Hfull Hr) as (new' & Hlog' & Hsent').
      exists new'. split; assumption.
Qed.

(** A turn of the refresh loop whose lookup fails leaves the cache as it
    is. *)
Lemma refresh_instance_failed key s :
  (forall n k, reply_json (upstream env n (instance_request k)) = JNull) ->
  _instance_cache (final (refresh_instance cfg env key) s)
  = _instance_cache s.
Proof.
  intros Hfail. unfold refresh_instance, final. rewrite bind_gets_run.
  destruct (dict_get key (_instance_cache s)) as [[id info]|]; [|reflexivity].
  rewrite (bind_run _ _ _ _ _ (_get_run cfg env _ _ s)).
  change {| endpoint := "/instances/" ++ i_world_id info ++ ":"
                        ++ i_instance_id info; params := [] |}
    with (instance_request (i_world_id info ++ ":" ++ i_instance_id info)).
  rewrite Hfail. cbn [truthy]. cbv beta.
  match goal with
  | |- _instance_cache (fst (?m ?x)) = _ =>
      assert (Hm : respects (same_on _instance_cache) m)
        by respects_with same_leaf;
      change (fst (m x)) with (final m x);
      rewrite <- (Hm x)
  end.
  symmetry. apply (_get_same_instance_cache cfg env).
Qed.

Lemma refresh_instances_failed (ks : list string) :
  (forall n k, reply_json (upstream env n (instance_request k)) = JNull) ->
  forall s,
    _instance_cache (final (for_each ks (refresh_instance cfg env)) s)
    = _instance_cache s.
Proof.
  intros Hfail. induction ks as [|k ks IH]; intros s; cbn [for_each];
    [reflexivity|].
  rewrite final_bind.
  pose proof (refresh_instance_failed k s Hfail) as Hstep.
  destruct (snd (refresh_instance cfg env k s)); try assumption.
  rewrite IH. assumption.
Qed.

End InstanceRefresh.

(** X18.  Which instances [collect_instance_metrics] refreshes.  It asks
    for every instance of the cache, in the order of the cache and without
    any cap: one lookup per key, all of them when it returns, an initial
    segment of them when it raises.  It neither adds nor removes a key,
    so an instance that was cached once is asked for in every cycle from
    then on.  When every lookup fails the cache is left exactly as it
    was, with the player counts it had.  (Each record is stored under the
    key made of its ids, as it is in every state [main] reaches.) *)
Theorem instance_refresh_asks_every_instance (cfg : Config)
  (env : Environment) (s : State) :
  instances_keyed s ->
  let keys := dict_keys (_instance_cache s) in
  let s' := final (collect_instance_metrics cfg env) s in
  (exists j, sent (since s s') = map instance_request (firstn j keys)) /\
  (snd (collect_instance_metrics cfg env s) = Ret tt ->
     sent (since s s') = map instance_request keys) /\
  dict_keys (_instance_cache s') = keys /\
  ((forall n k, reply_json (upstream env n (instance_request k)) = JNull) ->
     _instance_cache s' = _instance_cache s).
Proof.
  intros Hkeyed. cbn zeta.
  destruct (collect_instance_metrics_asked cfg env s Hkeyed)
    as [(j & Hj) Hfull].
  split; [|split; [|split]].
  - exists j. rewrite <- firstn_map. apply asked_since. assumption.
  - intros Hret. apply asked_since. apply Hfull. exists tt. assumption.
  - symmetry. apply (collect_instance_metrics_same_keys cfg env s).
  - intros Hfail. unfold collect_instance_metrics, final, metric_clear.
    rewrite bind_modify_run, bind_gets_run.
    change (fst (?m ?x)) with (final m x).
    rewrite refresh_instances_failed by assumption. reflexivity.
Qed.

(** The theorem at the state left by a first cycle against an upstream
    with a friend in one instance, refreshed against an upstream that
    refuses every request. *)
Lemma instance_refresh_asks_every_instance_witness :
  let s := final (main default_config (static_env api_two_friends 100) 1)
                 (initial_state 0) in
  let s' := final (collect_instance_metrics default_config
                     (static_env api_unauthorized 100)) s in
  sent (since s s') = [instance_request "wrld_abc:inst1"] /\
  _instance_cache s' = _instance_cache s.
Proof.
  cbn zeta.
  destruct (instance_refresh_asks_every_instance default_config
              (static_env api_unauthorized 100)
              (final (main default_config (static_env api_two_friends 100) 1)
                     (initial_state 0)))
    as (_ & Hret & _ & Hfail).
  - apply (main_keeps_keyed default_config (static_env api_two_friends 100)
             1 (initial_state 0)).
    intros k id r [].
  - split.
    + rewrite Hret; vm_compute; reflexivity.
    + apply Hfail. intros n k. reflexivity.
Defined.

(* ================================================================== *)
(** * The cap on instance lookups *)
(* ================================================================== *)

#[export] Instance adds_no_instance_preorder : Preorder (adds_instances 0).
Proof.
  split.
  - intros s. exists []. repeat split; cbn; lia.
  - intros a b c (n1 & H1 & L1 & G1) (n2 & H2 & L2 & G2).
    exists (n2 ++ n1)%list. split; [|split].
    + rewrite H2, H1, app_assoc. reflexivity.
    + unfold instance_lookups in *.
      rewrite sent_app, filter_app, length_app. lia.
    + lia.
Qed.

Ltac bounded_leaf :=
  first [ exists []; split; [reflexivity|split; cbn; lia]
        | eexists [_]; split; [reflexivity|split; cbn; lia] ].

Section InstanceCap.

Context (cfg : Config) (env : Environment).

Lemma adds_instances_trans n m a b c :
  adds_instances n a b -> adds_instances m b c ->
  adds_instances (n + m) a c.
Proof.
  intros (n1 & H1 & L1 & G1) (n2 & H2 & L2 & G2).
  exists (n2 ++ n1)%list. split; [|split].
  - rewrite H2, H1, app_assoc. reflexivity.
  - unfold instance_lookups in *.
    rewrite sent_app, filter_app, length_app. lia.
  - lia.
Qed.

Lemma adds_instances_mono n m a b :
  (n <= m)%nat -> adds_instances n a b -> adds_instances m a b.
Proof.
  intros Hle (new & H & L & G). exists new. repeat split; [assumption|lia..].
Qed.

Lemma adds_instances_bind {A B} (m : M A) (f : A -> M B) n k s :
  adds_instances n s (final m s) ->
  (forall a s1, adds_instances k s1 (final (f a) s1)) ->
  adds_instances (n + k) s (final (bind m f) s).
Proof.
  intros Hm Hf. rewrite final_bind.
  destruct (snd (m s)) as [a|e| |];
    try (apply (adds_instances_mono n); [lia|assumption]).
  eapply adds_instances_trans; [exact Hm|apply Hf].
Qed.

Lemma instance_lookups_since s s' new :
  log s' = (new ++ log s)%list ->
  instance_lookups (since s s') = instance_lookups new.
Proof.
  intros H. unfold instance_lookups. rewrite (sent_since _ _ _ H).
  generalize (sent new). intros l. induction l as [|r l IH];
    [reflexivity|].
  cbn [List.rev filter]. rewrite filter_app, length_app, IH.
  cbn [filter]. destruct (prefix _ _); cbn [List.length]; lia.
Qed.

Lemma length_dict_set {V} (k : string) (v : V) (d : Dict V) :
  (List.length (dict_set k v d) <= List.length d + 1)%nat.
Proof.
  induction d as [|[k0 v0] d IH]; cbn [dict_set List.length]; [lia|].
  destruct (k0 =? k)%string; cbn [List.length]; lia.
Qed.

(** One turn of the instance resolution loop sends one lookup and binds
    at most one key. *)
Lemma resolve_instance_adds item s :
  adds_instances 1 s (final (resolve_instance cfg env item) s).
Proof.
  destruct item as [key [wid iid]]. unfold resolve_instance.
  rewrite final_bind, _get_returns.
  set (inst := reply_json _).
  pose proof (_get_same_instance_cache cfg env
                ("/instances/" ++ wid ++ ":" ++ iid) [] s) as Hic.
  unfold same_on in Hic.
  destruct (_get_asked cfg env ("/instances/" ++ wid ++ ":" ++ iid) [] s)
    as (new & Hlog & Hsent).
  set (s1 := final (_get cfg env _ _) s) in *.
  assert (Hcount : (instance_lookups new <= 1)%nat).
  { unfold instance_lookups.
    rewrite <- (rev_involutive new), sent_rev, Hsent.
    cbn [List.rev app filter]. destruct (prefix _ _); cbn; lia. }
  assert (Hrest :
    forall r,
      log (final (instance_cache_assign key r) s1) = log s1 /\
      (List.length (_instance_cache (final (instance_cache_assign key r) s1))
       <= List.length (_instance_cache s1) + 1)%nat).
  { intros r. split; [reflexivity|].
    unfold instance_cache_assign, final. cbn. apply length_dict_set. }
  destruct (truthy inst).
  - unfold final at 1. rewrite bind_gets_run.
    destruct (instance_of_json wid iid _ inst) as [e|r].
    + exists new. cbn. fold s1. rewrite <- Hic. repeat split;
        [assumption|assumption|lia].
    + cbn [lift]. rewrite bind_ret_run.
      change (fst (?m ?x)) with (final m x).
      destruct (Hrest r) as [Hl Hg]. exists new. rewrite Hl.
      repeat split; [assumption|assumption|]. rewrite Hic. exact Hg.
  - exists new. cbn. fold s1. rewrite <- Hic.
    repeat split; [assumption|assumption|lia].
Qed.

Lemma resolve_instances_add items s :
  adds_instances (List.length items) s
    (final (for_each items (resolve_instance cfg env)) s).
Proof.
  revert s. induction items as [|item items IH]; intros s;
    cbn [for_each List.length].
  - exists []. repeat split; cbn; lia.
  - apply (adds_instances_bind _ _ 1 (List.length items)).
    + apply resolve_instance_adds.
    + intros [] s1. apply IH.
Qed.

Lemma resolve_unknown_instances_adds friends s :
  adds_instances 20 s (final (resolve_unknown_instances cfg env friends) s).
Proof.
  unfold resolve_unknown_instances, final. rewrite bind_gets_run.
  destruct (scan_unknown_instances (_instance_cache s) friends [])
    as [e|items].
  - exists []. repeat split; cbn; lia.
  - cbn [lift]. rewrite bind_ret_run.
    eapply adds_instances_mono; [|apply resolve_instances_add].
    rewrite length_firstn. lia.
Qed.

Lemma fetch_online_friends_no_instance :
  respects (adds_instances 0) (fetch_online_friends cfg env).
Proof. respects_with bounded_leaf. Qed.

Lemma resolve_unknown_worlds_no_instance friends :
  respects (adds_instances 0) (resolve_unknown_worlds cfg env friends).
Proof. respects_with bounded_leaf. Qed.

Lemma publish_friends_no_instance friends :
  respects (adds_instances 0) (publish_friends env friends).
Proof. respects_with bounded_leaf. Qed.

Lemma collect_friends_online_adds s :
  adds_instances 20 s (final (collect_friends_online cfg env) s).
Proof.
  unfold collect_friends_online.
  apply (adds_instances_bind _ _ 0 20).
  { apply fetch_online_friends_no_instance. }
  intros friends s1. unfold process_friends_online.
  apply (adds_instances_bind _ _ 0 20).
  { unfold metric_clear, final, modify. cbn. bounded_leaf. }
  intros [] s2.
  apply (adds_instances_bind _ _ 0 20).
  { apply resolve_unknown_worlds_no_instance. }
  intros [] s3.
  apply (adds_instances_bind _ _ 20 0).
  { apply resolve_unknown_instances_adds. }
  intros [] s4. apply publish_friends_no_instance.
Qed.

(** ** The growth of the cache over cycles *)

Lemma instances_grow_bind {A B} (m : M A) (f : A -> M B) n k s :
  instances_grow n s (final m s) ->
  (forall a s1, instances_grow k s1 (final (f a) s1)) ->
  instances_grow (n + k) s (final (bind m f) s).
Proof.
  unfold instances_grow. intros Hm Hf. rewrite final_bind.
  destruct (snd (m s)) as [a|e| |]; try lia.
  specialize (Hf a (final m s)). lia.
Qed.

Lemma instances_grow_same {A} (m : M A) s :
  respects (same_on (fun s => dict_keys (_instance_cache s))) m ->
  instances_grow 0 s (final m s).
Proof.
  intros H. specialize (H s). unfold same_on, dict_keys in H.
  apply (f_equal (@List.length string)) in H. rewrite !length_map in H.
  unfold instances_grow. lia.
Qed.

Lemma instances_grow_after {A B} (m : M A) (f : A -> M B) n s :
  respects (same_on (fun s => dict_keys (_instance_cache s))) m ->
  (forall a s1, instances_grow n s1 (final (f a) s1)) ->
  instances_grow n s (final (bind m f) s).
Proof.
  intros Hm Hf.
  apply (instances_grow_bind m f 0 n); [|assumption].
  apply instances_grow_same. assumption.
Qed.

Lemma instances_grow_try {A} (body : M A) (handler : Exn -> M A) n s :
  instances_grow n s (final body s) ->
  (forall e, respects (same_on (fun s => dict_keys (_instance_cache s)))
                      (handler e)) ->
  instances_grow n s (final (try_except body handler) s).
Proof.
  unfold instances_grow, final, try_except. intros Hb Hh.
  destruct (body s) as [s1 [a|e| |]]; cbn [fst] in *; try assumption.
  pose proof (instances_grow_same (handler e) s1 (Hh e)) as H0.
  unfold instances_grow, final in H0. lia.
Qed.

Ltac same_keys := respects_with keys_leaf.

Lemma run_collectors_grows c s :
  instances_grow 20 s (final (run_collectors cfg env c) s).
Proof.
  unfold run_collectors.
  apply instances_grow_after; [same_keys|intros [] s1].
  apply instances_grow_after; [same_keys|intros [] s2].
  apply instances_grow_after; [same_keys|intros [] s3].
  apply instances_grow_after; [same_keys|intros ? s4].
  apply instances_grow_after; [same_keys|intros [] s5].
  apply (instances_grow_bind _ _ 20 0).
  - destruct (collect_friends_online_adds s5) as (new & _ & _ & H).
    exact H.
  - intros [] s6. apply instances_grow_same. same_keys.
Qed.

Lemma scrape_all_grows c s :
  instances_grow 20 s (final (scrape_all cfg env c) s).
Proof.
  unfold scrape_all.
  apply instances_grow_after; [same_keys|intros start s1].
  apply instances_grow_after; [same_keys|intros [] s2].
  apply (instances_grow_bind _ _ 20 0).
  - apply run_collectors_grows.
  - intros [] s3. apply instances_grow_same. same_keys.
Qed.

Lemma authenticate_same_instance_keys :
  respects (same_on (fun s => dict_keys (_instance_cache s)))
           (authenticate cfg env).
Proof. same_keys. Qed.

Lemma main_iteration_grows s :
  instances_grow 20 s (final (main_iteration cfg env) s).
Proof.
  unfold main_iteration.
  apply (instances_grow_bind _ _ 20 0).
  - apply instances_grow_try; [|intros e; same_keys].
    apply instances_grow_after; [same_keys|intros is_auth s1].
    apply instances_grow_after.
    { destruct is_auth; [same_keys|apply authenticate_same_instance_keys]. }
    intros ok s2. destruct (negb ok).
    + apply (instances_grow_bind _ _ 0 20).
      * apply instances_grow_same. same_keys.
      * intros [] s3. unfold instances_grow. cbn. lia.
    + apply (instances_grow_bind _ _ 20 0).
      * unfold next_cycle.
        apply instances_grow_after; [same_keys|intros [] s3].
        apply instances_grow_after; [same_keys|intros n s4].
        apply scrape_all_grows.
      * intros [] s3. unfold instances_grow. cbn. lia.
  - intros continue s1. apply instances_grow_same. same_keys.
Qed.

Lemma main_loop_grows turns s :
  instances_grow (20 * turns) s (final (main_loop cfg env turns) s).
Proof.
  revert s. induction turns as [|n IH]; intros s; cbn [main_loop].
  - unfold instances_grow. cbn. lia.
  - replace (20 * S n)%nat with (20 + 20 * n)%nat by lia.
    apply instances_grow_bind; [apply main_iteration_grows|].
    intros [] s1. apply IH.
Qed.

Lemma main_grows turns s :
  instances_grow (20 * turns) s (final (main cfg env turns) s).
Proof.
  unfold main.
  apply instances_grow_after; [apply authenticate_same_instance_keys|].
  intros ok s1. destruct (negb ok).
  - unfold instances_grow. cbn. lia.
  - apply instances_grow_after; [same_keys|intros [] s2].
    apply main_loop_grows.
Qed.

End InstanceCap.

(** X19.  The cap on instance lookups.  A call of
    [collect_friends_online] sends at most 20 requests to an
    [/instances/] endpoint and adds at most 20 entries to the instance
    cache, however many friends sit in instances that are not cached.
    No other collector adds an entry, so a cycle adds at most 20 of them
    and the cache holds at most 20 more per turn of the main loop. *)
Theorem instance_lookups_capped (cfg : Config) (env : Environment) :
  (forall s,
     let s' := final (collect_friends_online cfg env) s in
     (instance_lookups (since s s') <= 20)%nat /\
     (List.length (_instance_cache s')
      <= List.length (_instance_cache s) + 20)%nat) /\
  (forall c s,
     (List.length (_instance_cache (final (scrape_all cfg env c) s))
      <= List.length (_instance_cache s) + 20)%nat) /\
  (forall turns s,
     (List.length (_instance_cache (final (main cfg env turns) s))
      <= List.length (_instance_cache s) + 20 * turns)%nat).
Proof.
  split; [|split].
  - intros s. cbn zeta.
    destruct (collect_friends_online_adds cfg env s) as (new & Hlog & L & G).
    rewrite (instance_lookups_since _ _ _ Hlog). split; assumption.
  - intros c s. apply (scrape_all_grows cfg env c s).
  - intros turns s. apply (main_grows cfg env turns s).
Qed.

(* ================================================================== *)
(** * Counting and publishing *)
(* ================================================================== *)

Section Counting.

Context (env : Environment).

Lemma string_keys_bump u c :
  string_keys c -> string_keys (count_bump (JStr u) c).
Proof.
  unfold string_keys. induction c as [|[k n] c IH]; intros H;
    cbn [count_bump].
  - constructor; [exists u; reflexivity|constructor].
  - inversion H as [|? ? Hk Hc]; subst.
    destruct (key_eqb k (JStr u)).
    + constructor; assumption.
    + constructor; [assumption|auto].
Qed.

Lemma assoc_labelled_bump u t c :
  string_keys c ->
  assoc t (labelled env (count_bump (JStr u) c)) =
  if (u =? t)%string
  then Some (match assoc u (labelled env c) with
             | Some n => n + 1
             | None => 1
             end)
  else assoc t (labelled env c).
Proof.
  unfold string_keys, labelled.
  induction c as [|[k n] c IH]; intros H; cbn [count_bump map assoc fst snd].
  - cbn [py_str]. reflexivity.
  - inversion H as [|? ? [k' Hk] Hc]; subst. cbn [fst] in Hk. subst k.
    cbn [key_eqb py_str].
    destruct (String.eqb_spec k' u) as [->|Hne];
      cbn [map assoc fst snd py_str].
    + destruct (u =? t)%string; reflexivity.
    + rewrite (IH Hc).
      destruct (String.eqb_spec k' t) as [->|Hne'].
      * destruct (String.eqb_spec u t) as [->|]; [contradiction|].
        reflexivity.
      * reflexivity.
Qed.

Lemma In_labels_bump u x c :
  string_keys c ->
  In x (map fst (labelled env (count_bump (JStr u) c))) ->
  x = u \/ In x (map fst (labelled env c)).
Proof.
  unfold string_keys, labelled.
  induction c as [|[k n] c IH]; intros H; cbn [count_bump map fst snd].
  - cbn. intros [<-|[]]. left. reflexivity.
  - inversion H as [|? ? [k' Hk] Hc]; subst. cbn [fst] in Hk. subst k.
    cbn [key_eqb]. destruct (k' =? u)%string; cbn [map fst snd In].
    + intros Hx. right. exact Hx.
    + intros [Hx|Hx]; [right; left; exact Hx|].
      destruct (IH Hc Hx); auto.
Qed.

Lemma NoDup_labels_bump u c :
  string_keys c ->
  NoDup (map fst (labelled env c)) ->
  NoDup (map fst (labelled env (count_bump (JStr u) c))).
Proof.
  unfold string_keys.
  induction c as [|[k n] c IH]; intros H Hnd.
  - cbn. constructor; [intros []|constructor].
  - inversion H as [|? ? [k' Hk] Hc]; subst. cbn [fst] in Hk. subst k.
    cbn [count_bump key_eqb].
    destruct (String.eqb_spec k' u) as [->|Hne].
    + exact Hnd.
    + unfold labelled in *. cbn [map fst snd py_str] in *.
      inversion Hnd as [|? ? Hk' Hnd']; subst.
      constructor; [|auto].
      intros Hin. apply (In_labels_bump u k' c Hc) in Hin.
      destruct Hin as [->|Hin]; [contradiction|]. apply Hk'. exact Hin.
Qed.

(** The dict of counts of a sequence of string keys. *)
Lemma count_bumps_counted (tags : list string) :
  forall c seen,
    string_keys c ->
    NoDup (map fst (labelled env c)) ->
    (forall t, assoc t (labelled env c) = counted t seen) ->
    let c' := fold_left (fun c t => count_bump (JStr t) c) tags c in
    string_keys c' /\
    NoDup (map fst (labelled env c')) /\
    (forall t, assoc t (labelled env c') = counted t (seen ++ tags)).
Proof.
  induction tags as [|u tags IH]; intros c seen Hk Hnd Hc; cbn zeta;
    cbn [fold_left].
  - rewrite app_nil_r. auto.
  - replace (seen ++ u :: tags)%list with ((seen ++ [u]) ++ tags)%list
      by (rewrite <- app_assoc; reflexivity).
    apply IH.
    + apply string_keys_bump. assumption.
    + apply NoDup_labels_bump; assumption.
    + intros t. rewrite assoc_labelled_bump by assumption.
      rewrite (Hc u). unfold counted, occurrences.
      rewrite !count_occ_app. cbn [count_occ].
      destruct (String.eqb_spec u t) as [->|Hne].
      * destruct (string_dec t t) as [_|]; [|contradiction].
        destruct (Z.eqb_spec (Z.of_nat (count_occ string_dec seen t)) 0);
          destruct (Z.eqb_spec
                      (Z.of_nat (count_occ string_dec seen t + 1)) 0);
          try lia; f_equal; lia.
      * destruct (string_dec u t) as [|_]; [contradiction|].
        rewrite Hc. unfold counted, occurrences. rewrite Nat.add_0_r.
        reflexivity.
Qed.

(** Publishing a dict of counts under one metric. *)
Lemma publish_run (m : Metric) (c : list (Json * Z)) s :
  for_each c (fun tc => gauge_set m [py_str env (fst tc)] (snd tc)) s =
  (set_registry
     (fold_left (fun r e => registry_set m [fst e] (snd e) r)
                (labelled env c) (registry s)) s,
   Ret tt).
Proof.
  revert s. induction c as [|[k n] c IH]; intros s;
    cbn [for_each labelled map fold_left fst snd].
  - destruct s; reflexivity.
  - unfold gauge_set. rewrite bind_modify_run, IH.
    destruct s; reflexivity.
Qed.

Lemma sample_published (m : Metric) (t : string) (kv : list (string * Z)) :
  forall r,
    NoDup (map fst kv) ->
    sample m [t] (fold_left (fun r e => registry_set m [fst e] (snd e) r)
                            kv r)
    = match assoc t kv with
      | Some v => Some v
      | None => sample m [t] r
      end.
Proof.
  induction kv as [|[l v] kv IH]; intros r Hnd;
    cbn [fold_left assoc map fst snd] in *; [reflexivity|].
  inversion Hnd as [|? ? Hl Hnd']; subst.
  rewrite (IH _ Hnd'), sample_registry_set, metric_eqb_refl.
  cbn [labels_eqb andb].
  destruct (String.eqb_spec l t) as [->|Hne]; cbn [andb].
  - destruct (assoc t kv) eqn:E; [|reflexivity].
    exfalso. apply Hl. apply assoc_In in E.
    apply (in_map fst) in E. exact E.
  - reflexivity.
Qed.

Lemma sample_published_other (m m' : Metric) (ls : list string)
  (kv : list (string * Z)) :
  metric_eqb m' m = false ->
  forall r,
    sample m ls (fold_left (fun r e => registry_set m' [fst e] (snd e) r)
                           kv r)
    = sample m ls r.
Proof.
  intros Hm. induction kv as [|[l v] kv IH]; intros r; cbn [fold_left];
    [reflexivity|].
  rewrite IH, sample_registry_set, Hm. reflexivity.
Qed.

End Counting.

Section Favorites.

Context (cfg : Config) (env : Environment).

Lemma count_tags_strings favs tags :
  Forall2 (fun fav t => favorite_tag fav = inr (JStr t)) favs tags ->
  forall c,
    count_tags favs c
    = inr (fold_left (fun c t => count_bump (JStr t) c) tags c).
Proof.
  induction 1 as [|fav t favs tags Hfav _ IH]; intros c;
    cbn [count_tags fold_left]; [reflexivity|].
  rewrite Hfav. cbn [py_bind]. unfold count_incr. cbn [hashable py_bind].
  apply IH.
Qed.

End Favorites.

(** X20.  What [collect_favorites] publishes.  When the three favourite
    types have been paged in and every favourite has a string for its tag
    (the first of its [tags] when that list is not empty, else its [type],
    else [unknown]), the call returns; the child of [FAVORITES_TOTAL]
    under a tag then holds the number of fetched favourites of that tag,
    and a tag that none of them has is left without a child, whatever the
    gauge showed before: the gauge is cleared in every call. *)
Theorem favorites_counted (cfg : Config) (env : Environment)
  (s s1 : State) (favs : list Json) (tags : list string) :
  fetch_favorites cfg env ["world"; "avatar"; "friend"] [] s
  = (s1, Ret favs) ->
  Forall2 (fun fav t => favorite_tag fav = inr (JStr t)) favs tags ->
  let s' := final (collect_favorites cfg env) s in
  snd (collect_favorites cfg env s) = Ret tt /\
  (forall t,
     child_value FAVORITES_TOTAL [t] s' =
     if occurrences t tags =? 0 then None else Some (occurrences t tags)) /\
  (forall t,
     ~ In t tags -> child_value FAVORITES_TOTAL [t] s' = None).
Proof.
  intros Hfetch Htags. cbn zeta.
  assert (Hrun :
    collect_favorites cfg env s =
    (set_registry
       (fold_left (fun r e => registry_set FAVORITES_TOTAL [fst e] (snd e) r)
          (labelled env
             (fold_left (fun c t => count_bump (JStr t) c) tags []))
          (registry_clear FAVORITES_TOTAL (registry s1))) s1,
     Ret tt)).
  { unfold collect_favorites. rewrite (bind_run _ _ _ _ _ Hfetch).
    rewrite (count_tags_strings favs tags Htags). cbn [lift].
    rewrite bind_ret_run. unfold metric_clear. rewrite bind_modify_run.
    rewrite publish_run. destruct s1; reflexivity. }
  destruct (count_bumps_counted env tags [] [])
    as (_ & Hnd & Hcount).
  { constructor. }
  { constructor. }
  { intros t. reflexivity. }
  cbn [app] in Hcount.
  assert (Hvalue : forall t,
    child_value FAVORITES_TOTAL [t] (final (collect_favorites cfg env) s)
    = counted t tags).
  { intros t. unfold final. rewrite Hrun. unfold child_value.
    cbn [fst registry set_registry].
    rewrite (sample_published FAVORITES_TOTAL t _ _ Hnd), Hcount.
    unfold counted. destruct (_ =? 0); [|reflexivity].
    rewrite sample_registry_clear, metric_eqb_refl. reflexivity. }
  split; [|split].
  - rewrite Hrun. reflexivity.
  - intros t. rewrite Hvalue. reflexivity.
  - intros t Hin. rewrite Hvalue. unfold counted, occurrences.
    apply (count_occ_not_In string_dec) in Hin. rewrite Hin. reflexivity.
Qed.

(** The theorem against an upstream whose three pages of favourites hold
    one favourite tagged [group_0] and one untagged favourite of type
    [world] each. *)
Lemma favorites_counted_witness :
  let s' := final (collect_favorites default_config
                     (static_env api_favorites 100)) (initial_state 0) in
  child_value FAVORITES_TOTAL ["group_0"] s' = Some 3 /\
  child_value FAVORITES_TOTAL ["world"] s' = Some 3 /\
  child_value FAVORITES_TOTAL ["avatar"] s' = None.
Proof.
  cbn zeta.
  assert (Hfetch :
    fetch_favorites default_config (static_env api_favorites 100)
      ["world"; "avatar"; "friend"] [] (initial_state 0)
    = (fst (fetch_favorites default_config (static_env api_favorites 100)
              ["world"; "avatar"; "friend"] [] (initial_state 0)),
       Ret (concat (repeat
              [JObj [("id", JStr "fvrt_1"); ("type", JStr "world");
                     ("tags", JList [JStr "group_0"])];
               JObj [("id", JStr "fvrt_2"); ("type", JStr "world")]]
              3))))
    by (vm_compute; reflexivity).
  assert (Htags :
    Forall2 (fun fav t => favorite_tag fav = inr (JStr t))
            (concat (repeat
              [JObj [("id", JStr "fvrt_1"); ("type", JStr "world");
                     ("tags", JList [JStr "group_0"])];
               JObj [("id", JStr "fvrt_2"); ("type", JStr "world")]]
              3))
            ["group_0"; "world"; "group_0"; "world"; "group_0"; "world"])
    by (repeat constructor).
  destruct (favorites_counted default_config (static_env api_favorites 100)
              (initial_state 0) _ _ _ Hfetch Htags)
    as (_ & Hvalue & Hnone).
  split; [|split].
  - rewrite Hvalue. reflexivity.
  - rewrite Hvalue. reflexivity.
  - apply Hnone. cbn. intros H.
    repeat (destruct H as [H|H]; [discriminate H|]). exact H.
Defined.

(* ================================================================== *)
(** * The friend breakdown gauges, value by value *)
(* ================================================================== *)

Section Breakdown.

Context (cfg : Config) (env : Environment).

Lemma friends_metrics_counted friends :
  forall statuses platforms sc pc wc s s' sc' pc' wc',
    Forall2 (fun f st => py_get f "status" (JStr "offline") = inr (JStr st))
            friends statuses ->
    Forall2 (fun f p =>
               py_get f "last_platform" (JStr "unknown") = inr (JStr p))
            friends platforms ->
    friends_metrics env friends (sc, pc, wc) s = (s', Ret (sc', pc', wc')) ->
    sc' = fold_left (fun c t => count_bump (JStr t) c) statuses sc /\
    pc' = fold_left (fun c t => count_bump (JStr t) c) platforms pc.
Proof.
  induction friends as [|f friends IH];
    intros statuses platforms sc pc wc s s' sc' pc' wc' Hst Hpl H.
  - inversion Hst; inversion Hpl; subst. cbn in H.
    injection H as _ <- <- _. split; reflexivity.
  - inversion Hst as [|? st ? statuses' Hs Hst']; subst.
    inversion Hpl as [|? p ? platforms' Hp Hpl']; subst.
    cbn [friends_metrics] in H.
    apply bind_ret_inv in H as ([[sc1 pc1] wc1] & s1 & H1 & H).
    apply friend_metrics_counts in H1
      as (status & platform & Hs' & Hp' & -> & ->).
    rewrite Hs in Hs'. injection Hs' as <-.
    rewrite Hp in Hp'. injection Hp' as <-.
    cbn [fold_left]. eapply IH; eassumption.
Qed.

(** The two breakdown gauges after [publish_friends] has returned. *)
Lemma publish_friends_counted friends statuses platforms s s' t :
  Forall2 (fun f st => py_get f "status" (JStr "offline") = inr (JStr st))
          friends statuses ->
  Forall2 (fun f p =>
             py_get f "last_platform" (JStr "unknown") = inr (JStr p))
          friends platforms ->
  publish_friends env friends s = (s', Ret tt) ->
  child_value FRIEND_STATUS_GAUGE [t] s'
  = match counted t statuses with
    | Some v => Some v
    | None => child_value FRIEND_STATUS_GAUGE [t] s
    end /\
  child_value FRIEND_PLATFORM_GAUGE [t] s'
  = match counted t platforms with
    | Some v => Some v
    | None => child_value FRIEND_PLATFORM_GAUGE [t] s
    end.
Proof.
  intros Hst Hpl H. unfold publish_friends in H.
  apply bind_ret_inv in H as ([[sc pc] wc] & s1 & Hfm & H).
  destruct (friends_metrics_counted _ _ _ _ _ _ _ _ _ _ _ Hst Hpl Hfm)
    as [-> ->].
  pose proof (friends_metrics_same_child env FRIEND_STATUS_GAUGE [t] friends
                ([], [], []) eq_refl s) as Hs1.
  pose proof (friends_metrics_same_child env FRIEND_PLATFORM_GAUGE [t]
                friends ([], [], []) eq_refl s) as Hp1.
  unfold same_on, final in Hs1, Hp1. rewrite Hfm in Hs1, Hp1.
  cbn [fst] in Hs1, Hp1.
  destruct (count_bumps_counted env statuses [] [])
    as (_ & Hnds & Hcs); [constructor|constructor|reflexivity|].
  destruct (count_bumps_counted env platforms [] [])
    as (_ & Hndp & Hcp); [constructor|constructor|reflexivity|].
  cbn [app] in Hcs, Hcp.
  apply bind_ret_inv in H as ([] & s2 & H2 & H).
  rewrite publish_run in H2. injection H2 as <-.
  apply bind_ret_inv in H as ([] & s3 & H3 & H).
  rewrite publish_run in H3. injection H3 as <-.
  apply (f_equal fst) in H. cbn [fst] in H.
  change (fst (?m ?x)) with (final m x) in H.
  match type of H with
  | final ?m ?x = _ =>
      assert (Hs4 : respects (same_on (child_value FRIEND_STATUS_GAUGE [t]))
                             m) by respects_with child_leaf;
      assert (Hp4 : respects (same_on (child_value FRIEND_PLATFORM_GAUGE [t]))
                             m) by respects_with child_leaf;
      specialize (Hs4 x); specialize (Hp4 x);
      unfold same_on in Hs4, Hp4; rewrite H in Hs4, Hp4
  end.
  rewrite <- Hs4, <- Hp4. unfold child_value in *.
  cbn [registry set_registry]. split.
  - rewrite sample_published_other by reflexivity.
    rewrite (sample_published _ _ _ _ Hnds), Hcs, <- Hs1. reflexivity.
  - rewrite (sample_published _ _ _ _ Hndp), Hcp.
    rewrite sample_published_other by reflexivity.
    rewrite <- Hp1. reflexivity.
Qed.

Lemma same_on_run {A C} (f : State -> C) (m : M A) s s' (o : Outcome A) :
  respects (same_on f) m -> m s = (s', o) -> f s' = f s.
Proof.
  intros H Hrun. specialize (H s). unfold same_on, final in H.
  rewrite Hrun in H. symmetry. exact H.
Qed.

Lemma before_publish_keeps_breakdown m ls friends s s' :
  m = FRIEND_STATUS_GAUGE \/ m = FRIEND_PLATFORM_GAUGE ->
  (metric_clear FRIEND_DETAIL ;;
   resolve_unknown_worlds cfg env friends ;;
   resolve_unknown_instances cfg env friends ;;
   ret tt) s = (s', Ret tt) ->
  child_value m ls s' = child_value m ls s.
Proof.
  intros Hm. apply same_on_run.
  destruct Hm as [-> | ->]; respects_with child_leaf.
Qed.

Lemma fetch_online_friends_keeps_breakdown m ls s s' o :
  m = FRIEND_STATUS_GAUGE \/ m = FRIEND_PLATFORM_GAUGE ->
  fetch_online_friends cfg env s = (s', o) ->
  child_value m ls s' = child_value m ls s.
Proof.
  intros Hm. apply same_on_run.
  destruct Hm as [-> | ->]; respects_with child_leaf.
Qed.

End Breakdown.

(** X21.  The values of the two breakdown gauges.  When a call of
    [collect_friends_online] has paged in its friends and returns, the
    child of [FRIEND_STATUS_GAUGE] under a status holds the number of
    these friends with that status, and the child of
    [FRIEND_PLATFORM_GAUGE] under a platform the number of them on it; a
    status or platform that none of them has keeps the value the gauge
    had before the call, if it had one.  (Statuses and platforms are
    strings.) *)
Theorem friend_breakdown_counted (cfg : Config) (env : Environment)
  (s s1 : State) (friends : list Json) (statuses platforms : list string) :
  fetch_online_friends cfg env s = (s1, Ret friends) ->
  Forall2 (fun f st => py_get f "status" (JStr "offline") = inr (JStr st))
          friends statuses ->
  Forall2 (fun f p =>
             py_get f "last_platform" (JStr "unknown") = inr (JStr p))
          friends platforms ->
  snd (collect_friends_online cfg env s) = Ret tt ->
  let s' := final (collect_friends_online cfg env) s in
  forall t,
    child_value FRIEND_STATUS_GAUGE [t] s'
    = (if occurrences t statuses =? 0
       then child_value FRIEND_STATUS_GAUGE [t] s
       else Some (occurrences t statuses)) /\
    child_value FRIEND_PLATFORM_GAUGE [t] s'
    = (if occurrences t platforms =? 0
       then child_value FRIEND_PLATFORM_GAUGE [t] s
       else Some (occurrences t platforms)).
Proof.
  intros Hfetch Hst Hpl Hret. cbn zeta. intros t.
  pose proof (run_eq (collect_friends_online cfg env) s) as Hrun.
  rewrite Hret in Hrun.
  set (s' := final (collect_friends_online cfg env) s) in *.
  unfold collect_friends_online in Hrun.
  rewrite (bind_run _ _ _ _ _ Hfetch) in Hrun.
  unfold process_friends_online in Hrun.
  apply bind_ret_inv in Hrun as ([] & s2 & H2 & Hrun).
  apply bind_ret_inv in Hrun as ([] & s3 & H3 & Hrun).
  apply bind_ret_inv in Hrun as ([] & s4 & H4 & Hrun).
  assert (Hbefore :
    (metric_clear FRIEND_DETAIL ;;
     resolve_unknown_worlds cfg env friends ;;
     resolve_unknown_instances cfg env friends ;;
     ret tt) s1 = (s4, Ret tt)).
  { rewrite (bind_run _ _ _ _ _ H2), (bind_run _ _ _ _ _ H3),
      (bind_run _ _ _ _ _ H4). reflexivity. }
  destruct (publish_friends_counted env friends statuses platforms s4 s' t
              Hst Hpl Hrun) as [Hs Hp].
  rewrite Hs, Hp. unfold counted.
  rewrite (before_publish_keeps_breakdown cfg env FRIEND_STATUS_GAUGE [t] friends
             s1 s4 (or_introl eq_refl) Hbefore).
  rewrite (before_publish_keeps_breakdown cfg env FRIEND_PLATFORM_GAUGE [t]
             friends s1 s4 (or_intror eq_refl) Hbefore).
  rewrite (fetch_online_friends_keeps_breakdown cfg env FRIEND_STATUS_GAUGE [t]
             s s1 _ (or_introl eq_refl) Hfetch).
  rewrite (fetch_online_friends_keeps_breakdown cfg env FRIEND_PLATFORM_GAUGE [t]
             s s1 _ (or_intror eq_refl) Hfetch).
  split.
  - destruct (occurrences t statuses =? 0); reflexivity.
  - destruct (occurrences t platforms =? 0); reflexivity.
Qed.

(** The theorem for the first call against an upstream with two online
    friends, one [active] on [standalonewindows], one [offline] on
    [android]. *)
Lemma friend_breakdown_counted_witness :
  let s' := final (collect_friends_online default_config
                     (static_env api_two_friends 100)) (initial_state 0) in
  child_value FRIEND_STATUS_GAUGE ["active"] s' = Some 1 /\
  child_value FRIEND_STATUS_GAUGE ["busy"] s' = None /\
  child_value FRIEND_PLATFORM_GAUGE ["android"] s' = Some 1.
Proof.
  cbn zeta.
  assert (Hfetch :
    fetch_online_friends default_config (static_env api_two_friends 100)
      (initial_state 0)
    = (fst (fetch_online_friends default_config
              (static_env api_two_friends 100) (initial_state 0)),
       Ret [friend "ann" "active" "standalonewindows" "wrld_abc:inst1~public";
            friend "bob" "offline" "android" "offline"]))
    by (vm_compute; reflexivity).
  assert (Hst :
    Forall2 (fun f st => py_get f "status" (JStr "offline") = inr (JStr st))
      [friend "ann" "active" "standalonewindows" "wrld_abc:inst1~public";
       friend "bob" "offline" "android" "offline"]
      ["active"; "offline"])
    by (repeat constructor).
  assert (Hpl :
    Forall2 (fun f p =>
               py_get f "last_platform" (JStr "unknown") = inr (JStr p))
      [friend "ann" "active" "standalonewindows" "wrld_abc:inst1~public";
       friend "bob" "offline" "android" "offline"]
      ["standalonewindows"; "android"])
    by (repeat constructor).
  assert (Hret :
    snd (collect_friends_online default_config
           (static_env api_two_friends 100) (initial_state 0)) = Ret tt)
    by (vm_compute; reflexivity).
  pose proof (friend_breakdown_counted default_config
                (static_env api_two_friends 100) (initial_state 0) _ _ _ _
                Hfetch Hst Hpl Hret) as H.
  cbn zeta in H.
  split; [|split].
  - destruct (H "active") as [Hs _]. rewrite Hs. reflexivity.
  - destruct (H "busy") as [Hs _]. rewrite Hs. reflexivity.
  - destruct (H "android") as [_ Hp]. rewrite Hp. reflexivity.
Defined.
